(** * Blue Carbon MRV contracts: credit ledger, verification oracle and
      payment distributor

    A shallow embedding of the Solidity contracts [CarbonCreditToken],
    [ProjectRegistry], [VerificationOracle] and [PaymentDistributor], and the
    properties of the verification -> issuance -> settlement pipeline.

    Conventions of the embedding:
    - [uint256] and [address] values are [N]; checked arithmetic (Solidity
      0.8) is written out and reverts with a panic on overflow, [unchecked]
      blocks wrap around modulo [2^256];
    - a [mapping] is a [gmap] read with the zero value of its codomain as
      default;
    - every external function is a function from the pre-state to a
      [result]: [Ok] carries the post-state, [Err] the revert reason; a
      reverted call leaves the storage as it was;
    - [msg.sender], [msg.value] and [block.timestamp] are explicit arguments;
    - calls are atomic transactions: an ether transfer to an account is
      answered by the environment with success or failure and does not call
      back, so the [nonReentrant] guard is open at the entry of every call. *)

From Stdlib Require Import NArith Lia.
From stdpp Require Import gmap strings list fin_maps.

Local Open Scope N_scope.

(** ** Solidity values and the revert monad *)

Module Sol.

Definition address := N.
Definition uint256 := N.

Definition MAX_UINT256 : N := 2 ^ 256 - 1.

Inductive error :=
| Revert (reason : string)
| Panic (code : N).

Inductive result (A : Type) :=
| Ok (a : A)
| Err (e : error).
Arguments Ok {A} a.
Arguments Err {A} e.

Definition bind {A B} (r : result A) (k : A → result B) : result B :=
  match r with
  | Ok a => k a
  | Err e => Err e
  end.

Definition require (b : bool) (reason : string) : result unit :=
  if b then Ok tt else Err (Revert reason).

(** Panic codes of the compiler: 0x11 arithmetic overflow or underflow,
    0x12 division by zero. *)
Definition PANIC_OVERFLOW : N := 17.
Definition PANIC_DIV_ZERO : N := 18.

Definition checked_add (a b : N) : result N :=
  if a + b <=? MAX_UINT256 then Ok (a + b) else Err (Panic PANIC_OVERFLOW).

Definition checked_sub (a b : N) : result N :=
  if b <=? a then Ok (a - b) else Err (Panic PANIC_OVERFLOW).

Definition checked_mul (a b : N) : result N :=
  if a * b <=? MAX_UINT256 then Ok (a * b) else Err (Panic PANIC_OVERFLOW).

Definition checked_div (a b : N) : result N :=
  if b =? 0 then Err (Panic PANIC_DIV_ZERO) else Ok (a / b).

(** Arithmetic inside an [unchecked] block. *)
Definition wrap (a : N) : N := a mod (MAX_UINT256 + 1).

(** [bytes(s).length > 0] *)
Definition nonempty (s : string) : bool :=
  match s with
  | EmptyString => false
  | String _ _ => true
  end.

Definition is_ok {A} (r : result A) : bool :=
  match r with Ok _ => true | Err _ => false end.

(** What a transaction leaves behind: the post-state, or the pre-state when
    it reverted. *)
Definition commit {S} (r : result S) (s : S) : S :=
  match r with Ok s' => s' | Err _ => s end.

End Sol.
Export Sol.

#[global] Instance result_bind : MBind result := λ A B k r, bind r k.
#[global] Instance result_ret : MRet result := @Ok.

(** [x ← r; k] runs [r] and continues with [k], a revert in [r] ends the
    call; [r;; k] drops the value of [r]. *)

(** ** Storage mappings *)

(** Reading a [mapping (K => uint256)]. *)
Definition rd `{Countable K} (m : gmap K N) (k : K) : N := default 0 (m !! k).

(** Sum of [f] over the values of a mapping. *)
Definition map_sum `{Countable K} {V} (f : V → N) (m : gmap K V) : N :=
  map_fold (λ _ v acc, f v + acc) 0 m.

(** Arithmetic of [unchecked] blocks: wrap-around modulo [2^256]. *)
Definition unchecked_add (a b : N) : N := (a + b) mod (MAX_UINT256 + 1).
Definition unchecked_sub (a b : N) : N :=
  (a + (MAX_UINT256 + 1) - b) mod (MAX_UINT256 + 1).

(** ** CarbonCreditToken

    [contract CarbonCreditToken is ERC20, ERC20Burnable, ERC20Pausable,
    Ownable, ReentrancyGuard]. The inherited storage and functions follow
    OpenZeppelin Contracts 4.x, the version the imports of the contract
    resolve to. *)

Module Token.

(** [10 ** decimals()] with the default 18 decimals of ERC20. *)
Definition decimals : N := 18.
Definition UNIT : N := 10 ^ decimals.

Record CreditBatch := mkBatch {
  b_projectId : N;
  b_amount : N;
  b_vintage : N;
  b_verificationStandard : string;
  b_ipfsMetadata : string;
  b_isRetired : bool;
  b_createdAt : N;
  b_originalOwner : address
}.

Record RetirementInfo := mkRetirement {
  r_batchId : N;
  r_amount : N;
  r_reason : string;
  r_retiredBy : address;
  r_timestamp : N
}.

(** Storage of ERC20: [_balances], [_allowances], [_totalSupply]. *)
Record erc20 := mkErc20 {
  balances : gmap address N;
  allowances : gmap (address * address) N;
  totalSupply : N
}.

Record state := mkState {
  owner : address;                                  (* Ownable._owner *)
  paused : bool;                                    (* Pausable._paused *)
  erc : erc20;
  batchIdCounter : N;
  creditBatches : gmap N CreditBatch;
  ownerBatches : gmap address (list N);
  projectBatches : gmap N (list N);
  batchRetirements : gmap N (list RetirementInfo);
  totalRetiredCredits : gmap address N;
  totalIssuedCredits : N;
  totalRetiredCreditsGlobal : N
}.

Definition set_owner (a : address) (s : state) : state :=
  mkState a (paused s) (erc s) (batchIdCounter s) (creditBatches s)
    (ownerBatches s) (projectBatches s) (batchRetirements s)
    (totalRetiredCredits s) (totalIssuedCredits s) (totalRetiredCreditsGlobal s).

Definition set_paused (p : bool) (s : state) : state :=
  mkState (owner s) p (erc s) (batchIdCounter s) (creditBatches s)
    (ownerBatches s) (projectBatches s) (batchRetirements s)
    (totalRetiredCredits s) (totalIssuedCredits s) (totalRetiredCreditsGlobal s).

Definition set_erc (e : erc20) (s : state) : state :=
  mkState (owner s) (paused s) e (batchIdCounter s) (creditBatches s)
    (ownerBatches s) (projectBatches s) (batchRetirements s)
    (totalRetiredCredits s) (totalIssuedCredits s) (totalRetiredCreditsGlobal s).

Definition set_creditBatches (m : gmap N CreditBatch) (s : state) : state :=
  mkState (owner s) (paused s) (erc s) (batchIdCounter s) m
    (ownerBatches s) (projectBatches s) (batchRetirements s)
    (totalRetiredCredits s) (totalIssuedCredits s) (totalRetiredCreditsGlobal s).

Definition balanceOf (s : state) (a : address) : N := rd (balances (erc s)) a.
Definition allowance (s : state) (o sp : address) : N :=
  rd (allowances (erc s)) (o, sp).

(** The record a storage slot of [creditBatches] reads as before it is
    written. *)
Definition noBatch : CreditBatch :=
  mkBatch 0 0 0 EmptyString EmptyString false 0 0.

Definition batch (s : state) (id : N) : CreditBatch :=
  default noBatch (creditBatches s !! id).

Definition retirements (s : state) (id : N) : list RetirementInfo :=
  default [] (batchRetirements s !! id).

Definition constructor (deployer : address) : state :=
  mkState deployer false (mkErc20 ∅ ∅ 0) 0 ∅ ∅ ∅ ∅ ∅ 0 0.

(** *** Modifiers *)

Definition onlyOwner (sender : address) (s : state) : result unit :=
  require (owner s =? sender) "Ownable: caller is not the owner".

Definition validBatchId (id : N) (s : state) : result unit :=
  require ((0 <? id) && (id <=? batchIdCounter s)) "Invalid batch ID".

(** *** ERC20 internals *)

(** [ERC20Pausable._beforeTokenTransfer] *)
Definition _beforeTokenTransfer (s : state) : result unit :=
  require (negb (paused s)) "ERC20Pausable: token transfer while paused".

Definition _mint (account : address) (amount : N) (s : state) : result state :=
  require (negb (account =? 0)) "ERC20: mint to the zero address";;
  _beforeTokenTransfer s;;
  supply ← checked_add (totalSupply (erc s)) amount;
  let bal := balances (erc s) in
  Ok (set_erc (mkErc20 (<[account := unchecked_add (rd bal account) amount]> bal)
                       (allowances (erc s)) supply) s).

Definition _burn (account : address) (amount : N) (s : state) : result state :=
  require (negb (account =? 0)) "ERC20: burn from the zero address";;
  _beforeTokenTransfer s;;
  let bal := balances (erc s) in
  let accountBalance := rd bal account in
  require (amount <=? accountBalance) "ERC20: burn amount exceeds balance";;
  Ok (set_erc (mkErc20 (<[account := unchecked_sub accountBalance amount]> bal)
                       (allowances (erc s))
                       (unchecked_sub (totalSupply (erc s)) amount)) s).

Definition _transfer (from to : address) (amount : N) (s : state) : result state :=
  require (negb (from =? 0)) "ERC20: transfer from the zero address";;
  require (negb (to =? 0)) "ERC20: transfer to the zero address";;
  _beforeTokenTransfer s;;
  let bal := balances (erc s) in
  let fromBalance := rd bal from in
  require (amount <=? fromBalance) "ERC20: transfer amount exceeds balance";;
  let bal1 := <[from := unchecked_sub fromBalance amount]> bal in
  let bal2 := <[to := unchecked_add (rd bal1 to) amount]> bal1 in
  Ok (set_erc (mkErc20 bal2 (allowances (erc s)) (totalSupply (erc s))) s).

Definition _approve (o spender : address) (amount : N) (s : state) : result state :=
  require (negb (o =? 0)) "ERC20: approve from the zero address";;
  require (negb (spender =? 0)) "ERC20: approve to the zero address";;
  Ok (set_erc (mkErc20 (balances (erc s))
                       (<[(o, spender) := amount]> (allowances (erc s)))
                       (totalSupply (erc s))) s).

Definition _spendAllowance (o spender : address) (amount : N) (s : state)
  : result state :=
  let currentAllowance := allowance s o spender in
  if currentAllowance =? MAX_UINT256 then Ok s
  else
    require (amount <=? currentAllowance) "ERC20: insufficient allowance";;
    _approve o spender (unchecked_sub currentAllowance amount) s.

(** *** ERC20, ERC20Burnable, Pausable and Ownable: external functions *)

Definition transfer (sender to : address) (amount : N) (s : state) : result state :=
  _transfer sender to amount s.

Definition approve (sender spender : address) (amount : N) (s : state)
  : result state :=
  _approve sender spender amount s.

Definition transferFrom (sender from to : address) (amount : N) (s : state)
  : result state :=
  s1 ← _spendAllowance from sender amount s;
  _transfer from to amount s1.

Definition increaseAllowance (sender spender : address) (added : N) (s : state)
  : result state :=
  a ← checked_add (allowance s sender spender) added;
  _approve sender spender a s.

Definition decreaseAllowance (sender spender : address) (subtracted : N)
  (s : state) : result state :=
  let currentAllowance := allowance s sender spender in
  require (subtracted <=? currentAllowance) "ERC20: decreased allowance below zero";;
  _approve sender spender (unchecked_sub currentAllowance subtracted) s.

(** [ERC20Burnable.burn]: any holder destroys tokens of its own. *)
Definition burn (sender : address) (amount : N) (s : state) : result state :=
  _burn sender amount s.

(** [ERC20Burnable.burnFrom] *)
Definition burnFrom (sender account : address) (amount : N) (s : state)
  : result state :=
  s1 ← _spendAllowance account sender amount s;
  _burn account amount s1.

Definition pause (sender : address) (s : state) : result state :=
  onlyOwner sender s;;
  require (negb (paused s)) "Pausable: paused";;
  Ok (set_paused true s).

Definition unpause (sender : address) (s : state) : result state :=
  onlyOwner sender s;;
  require (paused s) "Pausable: not paused";;
  Ok (set_paused false s).

Definition transferOwnership (sender newOwner : address) (s : state)
  : result state :=
  onlyOwner sender s;;
  require (negb (newOwner =? 0)) "Ownable: new owner is the zero address";;
  Ok (set_owner newOwner s).

Definition renounceOwnership (sender : address) (s : state) : result state :=
  onlyOwner sender s;;
  Ok (set_owner 0 s).

(** *** The contract's own functions *)

Definition mintCreditBatch (sender : address) (now : N)
    (_projectId _amount _vintage : N)
    (_verificationStandard _ipfsMetadata : string) (_to : address)
    (s : state) : result (state * N) :=
  onlyOwner sender s;;
  require (0 <? _projectId) "Invalid project ID";;
  require (0 <? _amount) "Amount must be greater than 0";;
  require (0 <? _vintage) "Invalid vintage year";;
  require (negb (_to =? 0)) "Invalid recipient address";;
  require (nonempty _verificationStandard) "Verification standard required";;
  newBatchId ← checked_add (batchIdCounter s) 1;
  let newBatch := mkBatch _projectId _amount _vintage _verificationStandard
                    _ipfsMetadata false now _to in
  let s1 := mkState (owner s) (paused s) (erc s) newBatchId
              (<[newBatchId := newBatch]> (creditBatches s))
              (<[_to := default [] (ownerBatches s !! _to) ++ [newBatchId]]>
                 (ownerBatches s))
              (<[_projectId :=
                   default [] (projectBatches s !! _projectId) ++ [newBatchId]]>
                 (projectBatches s))
              (batchRetirements s) (totalRetiredCredits s)
              (totalIssuedCredits s) (totalRetiredCreditsGlobal s) in
  tokenAmount ← checked_mul _amount UNIT;
  s2 ← _mint _to tokenAmount s1;
  issued ← checked_add (totalIssuedCredits s2) _amount;
  Ok (mkState (owner s2) (paused s2) (erc s2) (batchIdCounter s2)
        (creditBatches s2) (ownerBatches s2) (projectBatches s2)
        (batchRetirements s2) (totalRetiredCredits s2)
        issued (totalRetiredCreditsGlobal s2),
      newBatchId).

(** The loop of [getTotalRetiredFromBatch]: [total += retirements[i].amount]. *)
Fixpoint sum_retirements (l : list RetirementInfo) (total : N) : result N :=
  match l with
  | [] => Ok total
  | r :: l' => t ← checked_add total (r_amount r); sum_retirements l' t
  end.

Definition getTotalRetiredFromBatch (_batchId : N) (s : state) : result N :=
  validBatchId _batchId s;;
  sum_retirements (retirements s _batchId) 0.

Definition retireCredits (sender : address) (now : N)
    (_batchId _amount : N) (_reason : string) (s : state) : result state :=
  validBatchId _batchId s;;
  require (0 <? _amount) "Amount must be greater than 0";;
  require (nonempty _reason) "Retirement reason required";;
  let b := batch s _batchId in
  require (negb (b_isRetired b)) "Batch already retired";;
  tokenAmount ← checked_mul _amount UNIT;
  require (tokenAmount <=? balanceOf s sender) "Insufficient balance";;
  s1 ← _burn sender tokenAmount s;
  let retirement := mkRetirement _batchId _amount _reason sender now in
  byAccount ← checked_add (rd (totalRetiredCredits s1) sender) _amount;
  global ← checked_add (totalRetiredCreditsGlobal s1) _amount;
  let s2 := mkState (owner s1) (paused s1) (erc s1) (batchIdCounter s1)
              (creditBatches s1) (ownerBatches s1) (projectBatches s1)
              (<[_batchId := retirements s1 _batchId ++ [retirement]]>
                 (batchRetirements s1))
              (<[sender := byAccount]> (totalRetiredCredits s1))
              (totalIssuedCredits s1) global in
  total ← getTotalRetiredFromBatch _batchId s2;
  if b_amount b <=? total then
    Ok (set_creditBatches
          (<[_batchId := mkBatch (b_projectId b) (b_amount b) (b_vintage b)
                           (b_verificationStandard b) (b_ipfsMetadata b)
                           true (b_createdAt b) (b_originalOwner b)]>
             (creditBatches s2)) s2)
  else Ok s2.

Definition updateBatchMetadata (sender : address) (_batchId : N)
    (_newIpfsMetadata : string) (s : state) : result state :=
  onlyOwner sender s;;
  validBatchId _batchId s;;
  require (nonempty _newIpfsMetadata) "IPFS metadata cannot be empty";;
  let b := batch s _batchId in
  Ok (set_creditBatches
        (<[_batchId := mkBatch (b_projectId b) (b_amount b) (b_vintage b)
                         (b_verificationStandard b) _newIpfsMetadata
                         (b_isRetired b) (b_createdAt b) (b_originalOwner b)]>
           (creditBatches s)) s).

(** [getGlobalStats]: issued, retired and circulating credits; the
    subtraction is checked. *)
Definition getGlobalStats (s : state) : result (N * N * N) :=
  circulating ← checked_sub (totalIssuedCredits s) (totalRetiredCreditsGlobal s);
  Ok (totalIssuedCredits s, totalRetiredCreditsGlobal s, circulating).

(** *** Transactions *)

Inductive call :=
| MintCreditBatch (projectId amount vintage : N) (standard ipfs : string)
    (to : address)
| RetireCredits (batchId amount : N) (reason : string)
| UpdateBatchMetadata (batchId : N) (ipfs : string)
| Transfer (to : address) (amount : N)
| Approve (spender : address) (amount : N)
| TransferFrom (from to : address) (amount : N)
| IncreaseAllowance (spender : address) (added : N)
| DecreaseAllowance (spender : address) (subtracted : N)
| Burn (amount : N)
| BurnFrom (account : address) (amount : N)
| Pause
| Unpause
| TransferOwnership (newOwner : address)
| RenounceOwnership.

Record tx := mkTx { tx_sender : address; tx_time : N; tx_call : call }.

Definition exec (t : tx) (s : state) : result state :=
  let sender := tx_sender t in
  match tx_call t with
  | MintCreditBatch p a v std ipfs to =>
      r ← mintCreditBatch sender (tx_time t) p a v std ipfs to s; Ok (fst r)
  | RetireCredits b a reason => retireCredits sender (tx_time t) b a reason s
  | UpdateBatchMetadata b ipfs => updateBatchMetadata sender b ipfs s
  | Transfer to a => transfer sender to a s
  | Approve sp a => approve sender sp a s
  | TransferFrom from to a => transferFrom sender from to a s
  | IncreaseAllowance sp a => increaseAllowance sender sp a s
  | DecreaseAllowance sp a => decreaseAllowance sender sp a s
  | Burn a => burn sender a s
  | BurnFrom account a => burnFrom sender account a s
  | Pause => pause sender s
  | Unpause => unpause sender s
  | TransferOwnership o => transferOwnership sender o s
  | RenounceOwnership => renounceOwnership sender s
  end.

(** A transaction either commits its post-state or reverts to the
    pre-state. *)
Definition step (s : state) (t : tx) : state := commit (exec t s) s.

Definition run (txs : list tx) (s : state) : state := fold_left step txs s.

(** The states the contract can be in: deployed by anyone, then any
    sequence of transactions by anyone. *)
Definition reachable (s : state) : Prop :=
  ∃ deployer txs, s = run txs (constructor deployer).

(** Calls of the functions inherited from [ERC20Burnable]. *)
Definition is_burn (c : call) : bool :=
  match c with
  | Burn _ | BurnFrom _ _ => true
  | _ => false
  end.

(** *** Sums over the ledger *)

Definition sum_balances (s : state) : N := map_sum id (balances (erc s)).

Definition sum_issued (s : state) : N := map_sum b_amount (creditBatches s).

Definition list_retired (l : list RetirementInfo) : N :=
  foldr (λ r acc, r_amount r + acc) 0 l.

Definition sum_retired (s : state) : N :=
  map_sum list_retired (batchRetirements s).

(** Cumulative quantity of the retirement records of a batch. *)
Definition retired_from_batch (s : state) (id : N) : N :=
  list_retired (retirements s id).

(** *** Invariants of the ledger *)

(** The balances add up to the total supply, which fits a word. *)
Definition erc_ok (e : erc20) : Prop :=
  map_sum id (balances e) = totalSupply e ∧ totalSupply e <= MAX_UINT256.

(** A batch is marked retired exactly when its retirement records reach its
    quantity, and the records before the latest one stayed below it. *)
Definition batch_ok (s : state) (id : N) (b : CreditBatch) : Prop :=
  0 < b_amount b ∧
  (b_isRetired b = true ↔ b_amount b <= retired_from_batch s id) ∧
  (∀ l r, retirements s id = l ++ [r] → list_retired l < b_amount b).

Record inv (s : state) : Prop := mkInv {
  inv_erc : erc_ok (erc s);
  inv_issued : sum_issued s = totalIssuedCredits s;
  inv_retired : sum_retired s = totalRetiredCreditsGlobal s;
  inv_bounded :
    totalSupply (erc s) + UNIT * totalRetiredCreditsGlobal s
    <= UNIT * totalIssuedCredits s;
  inv_batch_dom :
    ∀ id, is_Some (creditBatches s !! id) ↔ 0 < id <= batchIdCounter s;
  inv_ret_dom :
    ∀ id, is_Some (batchRetirements s !! id) → 0 < id <= batchIdCounter s;
  inv_batches : ∀ id b, creditBatches s !! id = Some b → batch_ok s id b
}.

(** No credit has left the ledger other than by a retirement. *)
Definition conserved (s : state) : Prop :=
  totalSupply (erc s) + UNIT * totalRetiredCreditsGlobal s
  = UNIT * totalIssuedCredits s.

(** The conservation property of the ledger, in base units of the token:
    balances plus retired credits equal issued credits. *)
Definition conservation (s : state) : Prop :=
  sum_balances s + UNIT * sum_retired s = UNIT * sum_issued s.

(** The retirement bound: the retirement records of a batch do not exceed
    its quantity. *)
Definition retirement_bound (s : state) (id : N) : Prop :=
  retired_from_batch s id <= b_amount (batch s id).

Definition no_burn (txs : list tx) : Prop :=
  Forall (λ t, is_burn (tx_call t) = false) txs.

End Token.

(** ** ProjectRegistry

    The registry of restoration projects. The oracle reads the owner of a
    project from it and writes the final credits of a project to it. The
    [projectMetadata] mapping and [updateProjectMetadata], which writes
    nothing else, are left out. *)

Module Registry.

Inductive ProjectStatus := Pending | Approved | Active | Completed | Suspended.

Inductive EcosystemType := Mangrove | Seagrass | SaltMarsh.

Record Project := mkProject {
  p_id : N;
  p_name : string;
  p_description : string;
  p_ecosystemType : EcosystemType;
  p_location : string;
  p_areaInHectares : N;
  p_projectOwner : address;
  p_communityWallets : list address;
  p_verifiers : list address;
  p_status : ProjectStatus;
  p_createdAt : N;
  p_approvedAt : N;
  p_ipfsHashMetadata : string;
  p_estimatedCarbonCredits : N;
  p_totalCarbonCredits : N;
  p_isActive : bool
}.

Record state := mkState {
  owner : address;
  projectIdCounter : N;
  projects : gmap N Project;
  ownerProjects : gmap address (list N);
  authorizedVerifiers : gmap address bool
}.

Definition noProject : Project :=
  mkProject 0 EmptyString EmptyString Mangrove EmptyString 0 0 [] [] Pending
    0 0 EmptyString 0 0 false.

Definition project (s : state) (id : N) : Project :=
  default noProject (projects s !! id).

Definition isAuthorizedVerifier (s : state) (a : address) : bool :=
  default false (authorizedVerifiers s !! a).

Definition constructor (deployer : address) : state :=
  mkState deployer 0 ∅ ∅ ∅.

Definition onlyOwner (sender : address) (s : state) : result unit :=
  require (owner s =? sender) "Ownable: caller is not the owner".

Definition onlyAuthorizedVerifier (sender : address) (s : state) : result unit :=
  require (isAuthorizedVerifier s sender || (sender =? owner s))
    "Not authorized verifier".

Definition projectExists (id : N) (s : state) : result unit :=
  require ((0 <? id) && (id <=? projectIdCounter s)) "Project does not exist".

Definition set_project (id : N) (p : Project) (s : state) : state :=
  mkState (owner s) (projectIdCounter s) (<[id := p]> (projects s))
    (ownerProjects s) (authorizedVerifiers s).

Definition registerProject (sender : address) (now : N)
    (_name _description : string) (_ecosystemType : EcosystemType)
    (_location : string) (_areaInHectares : N)
    (_communityWallets : list address) (_ipfsHashMetadata : string)
    (_estimatedCarbonCredits : N) (s : state) : result (state * N) :=
  require (nonempty _name) "Project name cannot be empty";;
  require (nonempty _location) "Location cannot be empty";;
  require (0 <? _areaInHectares) "Area must be greater than 0";;
  require (0 <? _estimatedCarbonCredits) "Estimated credits must be greater than 0";;
  newProjectId ← checked_add (projectIdCounter s) 1;
  let old := project s newProjectId in
  let newProject :=
    mkProject newProjectId _name _description _ecosystemType _location
      _areaInHectares sender _communityWallets (p_verifiers old) Pending now
      (p_approvedAt old) _ipfsHashMetadata _estimatedCarbonCredits
      (p_totalCarbonCredits old) true in
  Ok (mkState (owner s) newProjectId (<[newProjectId := newProject]> (projects s))
        (<[sender := default [] (ownerProjects s !! sender) ++ [newProjectId]]>
           (ownerProjects s))
        (authorizedVerifiers s),
      newProjectId).

Definition with_status (st : ProjectStatus) (approvedAt : N) (p : Project)
  : Project :=
  mkProject (p_id p) (p_name p) (p_description p) (p_ecosystemType p)
    (p_location p) (p_areaInHectares p) (p_projectOwner p)
    (p_communityWallets p) (p_verifiers p) st (p_createdAt p) approvedAt
    (p_ipfsHashMetadata p) (p_estimatedCarbonCredits p)
    (p_totalCarbonCredits p) (p_isActive p).

Definition with_totalCarbonCredits (c : N) (p : Project) : Project :=
  mkProject (p_id p) (p_name p) (p_description p) (p_ecosystemType p)
    (p_location p) (p_areaInHectares p) (p_projectOwner p)
    (p_communityWallets p) (p_verifiers p) (p_status p) (p_createdAt p)
    (p_approvedAt p) (p_ipfsHashMetadata p) (p_estimatedCarbonCredits p)
    c (p_isActive p).

Definition is_pending (st : ProjectStatus) : bool :=
  match st with Pending => true | _ => false end.

Definition approveProject (sender : address) (now : N) (_projectId : N)
    (s : state) : result state :=
  onlyAuthorizedVerifier sender s;;
  projectExists _projectId s;;
  let p := project s _projectId in
  require (is_pending (p_status p)) "Project not in pending status";;
  Ok (set_project _projectId (with_status Approved now p) s).

Definition updateProjectStatus (sender : address) (_projectId : N)
    (_newStatus : ProjectStatus) (s : state) : result state :=
  onlyAuthorizedVerifier sender s;;
  projectExists _projectId s;;
  let p := project s _projectId in
  Ok (set_project _projectId (with_status _newStatus (p_approvedAt p) p) s).

Definition addVerifier (sender _verifier : address) (s : state) : result state :=
  onlyOwner sender s;;
  require (negb (_verifier =? 0)) "Invalid verifier address";;
  Ok (mkState (owner s) (projectIdCounter s) (projects s) (ownerProjects s)
        (<[_verifier := true]> (authorizedVerifiers s))).

Definition removeVerifier (sender _verifier : address) (s : state)
  : result state :=
  onlyOwner sender s;;
  Ok (mkState (owner s) (projectIdCounter s) (projects s) (ownerProjects s)
        (<[_verifier := false]> (authorizedVerifiers s))).

Definition updateTotalCarbonCredits (sender : address) (_projectId _credits : N)
    (s : state) : result state :=
  onlyAuthorizedVerifier sender s;;
  projectExists _projectId s;;
  Ok (set_project _projectId
        (with_totalCarbonCredits _credits (project s _projectId)) s).

Definition getProject (_projectId : N) (s : state) : result Project :=
  projectExists _projectId s;;
  Ok (project s _projectId).

Definition transferOwnership (sender newOwner : address) (s : state)
  : result state :=
  onlyOwner sender s;;
  require (negb (newOwner =? 0)) "Ownable: new owner is the zero address";;
  Ok (mkState newOwner (projectIdCounter s) (projects s) (ownerProjects s)
        (authorizedVerifiers s)).

Definition renounceOwnership (sender : address) (s : state) : result state :=
  onlyOwner sender s;;
  Ok (mkState 0 (projectIdCounter s) (projects s) (ownerProjects s)
        (authorizedVerifiers s)).

Inductive call :=
| RegisterProject (name description : string) (ecosystemType : EcosystemType)
    (location : string) (areaInHectares : N) (communityWallets : list address)
    (ipfsHashMetadata : string) (estimatedCarbonCredits : N)
| ApproveProject (projectId : N)
| UpdateProjectStatus (projectId : N) (newStatus : ProjectStatus)
| AddVerifier (verifier : address)
| RemoveVerifier (verifier : address)
| UpdateTotalCarbonCredits (projectId credits : N)
| TransferOwnership (newOwner : address)
| RenounceOwnership.

Definition exec (sender : address) (now : N) (c : call) (s : state)
  : result state :=
  match c with
  | RegisterProject n d e l a cw ipfs est =>
      r ← registerProject sender now n d e l a cw ipfs est s; Ok (fst r)
  | ApproveProject id => approveProject sender now id s
  | UpdateProjectStatus id st => updateProjectStatus sender id st s
  | AddVerifier v => addVerifier sender v s
  | RemoveVerifier v => removeVerifier sender v s
  | UpdateTotalCarbonCredits id c => updateTotalCarbonCredits sender id c s
  | TransferOwnership o => transferOwnership sender o s
  | RenounceOwnership => renounceOwnership sender s
  end.

End Registry.

(** ** VerificationOracle

    Multi-source verification of a project: evidence is submitted per data
    source, an authorised verifier decides each submission, and after every
    decision the oracle checks whether the project is completely verified, in
    which case it issues the credits. The oracle calls the registry and the
    token, so its functions act on the three storages together. *)

Module Oracle.

Inductive DataSource := Community | Satellite | Drone | ThirdParty.

Inductive VerificationStatus := Pending | Verified | Rejected | RequiresReview.

Record VerificationData := mkData {
  v_projectId : N;
  v_source : DataSource;
  v_ipfsHash : string;
  v_description : string;
  v_submitter : address;
  v_timestamp : N;
  v_status : VerificationStatus;
  v_notes : string;
  v_carbonCreditsEstimate : N
}.

Record ProjectVerification := mkVerif {
  pv_projectId : N;
  pv_verificationIds : list N;
  pv_communityDataCount : N;
  pv_satelliteDataCount : N;
  pv_droneDataCount : N;
  pv_thirdPartyDataCount : N;
  pv_verifiedDataCount : N;
  pv_isCompletelyVerified : bool;
  pv_finalCarbonCredits : N;
  pv_lastUpdateTimestamp : N
}.

(** A [mapping (DataSource => uint256)]. *)
Record perSource := mkPerSource {
  ofCommunity : N;
  ofSatellite : N;
  ofDrone : N;
  ofThirdParty : N
}.

Definition at_source (m : perSource) (src : DataSource) : N :=
  match src with
  | Community => ofCommunity m
  | Satellite => ofSatellite m
  | Drone => ofDrone m
  | ThirdParty => ofThirdParty m
  end.

Definition set_source (src : DataSource) (v : N) (m : perSource) : perSource :=
  match src with
  | Community => mkPerSource v (ofSatellite m) (ofDrone m) (ofThirdParty m)
  | Satellite => mkPerSource (ofCommunity m) v (ofDrone m) (ofThirdParty m)
  | Drone => mkPerSource (ofCommunity m) (ofSatellite m) v (ofThirdParty m)
  | ThirdParty => mkPerSource (ofCommunity m) (ofSatellite m) (ofDrone m) v
  end.

Record state := mkState {
  owner : address;
  verificationData : gmap N VerificationData;
  projectVerifications : gmap N ProjectVerification;
  authorizedVerifiers : gmap address bool;
  minimumDataRequirements : perSource;
  verificationWeights : perSource;
  verificationIdCounter : N
}.

(** The three contracts of the pipeline; [this] is the address the oracle is
    deployed at, the [msg.sender] of the calls it makes. *)
Record world := mkWorld {
  this : address;
  registry : Registry.state;
  token : Token.state;
  oracle : state
}.

(** 70% agreement needed (in basis points) *)
Definition VERIFICATION_THRESHOLD : N := 7000.

Definition noData : VerificationData :=
  mkData 0 Community EmptyString EmptyString 0 0 Pending EmptyString 0.

Definition noVerif : ProjectVerification :=
  mkVerif 0 [] 0 0 0 0 0 false 0 0.

Definition data (s : state) (id : N) : VerificationData :=
  default noData (verificationData s !! id).

Definition projectVerif (s : state) (id : N) : ProjectVerification :=
  default noVerif (projectVerifications s !! id).

Definition isAuthorizedVerifier (s : state) (a : address) : bool :=
  default false (authorizedVerifiers s !! a).

Definition is_verified (st : VerificationStatus) : bool :=
  match st with Verified => true | _ => false end.

Definition constructor (deployer : address) : state :=
  mkState deployer ∅ ∅ ∅ (mkPerSource 3 2 1 1) (mkPerSource 3000 3500 2500 1000) 0.

Definition set_data (id : N) (d : VerificationData) (s : state) : state :=
  mkState (owner s) (<[id := d]> (verificationData s)) (projectVerifications s)
    (authorizedVerifiers s) (minimumDataRequirements s) (verificationWeights s)
    (verificationIdCounter s).

Definition set_verif (id : N) (pv : ProjectVerification) (s : state) : state :=
  mkState (owner s) (verificationData s) (<[id := pv]> (projectVerifications s))
    (authorizedVerifiers s) (minimumDataRequirements s) (verificationWeights s)
    (verificationIdCounter s).

Definition set_oracle (s : state) (w : world) : world :=
  mkWorld (this w) (registry w) (token w) s.

(** *** Modifiers *)

Definition onlyOwner (sender : address) (s : state) : result unit :=
  require (owner s =? sender) "Ownable: caller is not the owner".

Definition onlyAuthorizedVerifier (sender : address) (s : state) : result unit :=
  require (isAuthorizedVerifier s sender || (sender =? owner s))
    "Not authorized verifier".

Definition validProjectId (_projectId : N) : result unit :=
  require (0 <? _projectId) "Invalid project ID".

(** *** Submission *)

Definition count_source (src : DataSource) (pv : ProjectVerification)
  : result ProjectVerification :=
  match src with
  | Community =>
      c ← checked_add (pv_communityDataCount pv) 1;
      Ok (mkVerif (pv_projectId pv) (pv_verificationIds pv) c
            (pv_satelliteDataCount pv) (pv_droneDataCount pv)
            (pv_thirdPartyDataCount pv) (pv_verifiedDataCount pv)
            (pv_isCompletelyVerified pv) (pv_finalCarbonCredits pv)
            (pv_lastUpdateTimestamp pv))
  | Satellite =>
      c ← checked_add (pv_satelliteDataCount pv) 1;
      Ok (mkVerif (pv_projectId pv) (pv_verificationIds pv)
            (pv_communityDataCount pv) c (pv_droneDataCount pv)
            (pv_thirdPartyDataCount pv) (pv_verifiedDataCount pv)
            (pv_isCompletelyVerified pv) (pv_finalCarbonCredits pv)
            (pv_lastUpdateTimestamp pv))
  | Drone =>
      c ← checked_add (pv_droneDataCount pv) 1;
      Ok (mkVerif (pv_projectId pv) (pv_verificationIds pv)
            (pv_communityDataCount pv) (pv_satelliteDataCount pv) c
            (pv_thirdPartyDataCount pv) (pv_verifiedDataCount pv)
            (pv_isCompletelyVerified pv) (pv_finalCarbonCredits pv)
            (pv_lastUpdateTimestamp pv))
  | ThirdParty =>
      c ← checked_add (pv_thirdPartyDataCount pv) 1;
      Ok (mkVerif (pv_projectId pv) (pv_verificationIds pv)
            (pv_communityDataCount pv) (pv_satelliteDataCount pv)
            (pv_droneDataCount pv) c (pv_verifiedDataCount pv)
            (pv_isCompletelyVerified pv) (pv_finalCarbonCredits pv)
            (pv_lastUpdateTimestamp pv))
  end.

Definition submitVerificationData (sender : address) (now : N)
    (_projectId : N) (_source : DataSource) (_ipfsHash _description : string)
    (_carbonCreditsEstimate : N) (s : state) : result (state * N) :=
  validProjectId _projectId;;
  require (nonempty _ipfsHash) "IPFS hash cannot be empty";;
  require (0 <? _carbonCreditsEstimate)
    "Carbon credits estimate must be greater than 0";;
  verificationId ← checked_add (verificationIdCounter s) 1;
  let old := data s verificationId in
  let newData := mkData _projectId _source _ipfsHash _description sender now
                   Pending (v_notes old) _carbonCreditsEstimate in
  let pv := projectVerif s _projectId in
  let pv1 := mkVerif (if pv_projectId pv =? 0 then _projectId else pv_projectId pv)
               (pv_verificationIds pv ++ [verificationId])
               (pv_communityDataCount pv) (pv_satelliteDataCount pv)
               (pv_droneDataCount pv) (pv_thirdPartyDataCount pv)
               (pv_verifiedDataCount pv) (pv_isCompletelyVerified pv)
               (pv_finalCarbonCredits pv) (pv_lastUpdateTimestamp pv) in
  pv2 ← count_source _source pv1;
  let pv3 := mkVerif (pv_projectId pv2) (pv_verificationIds pv2)
               (pv_communityDataCount pv2) (pv_satelliteDataCount pv2)
               (pv_droneDataCount pv2) (pv_thirdPartyDataCount pv2)
               (pv_verifiedDataCount pv2) (pv_isCompletelyVerified pv2)
               (pv_finalCarbonCredits pv2) now in
  Ok (mkState (owner s) (<[verificationId := newData]> (verificationData s))
        (<[_projectId := pv3]> (projectVerifications s))
        (authorizedVerifiers s) (minimumDataRequirements s)
        (verificationWeights s) verificationId,
      verificationId).

(** *** Completion check *)

Definition hasMinimumData (s : state) (pv : ProjectVerification) : bool :=
  (ofCommunity (minimumDataRequirements s) <=? pv_communityDataCount pv) &&
  (ofSatellite (minimumDataRequirements s) <=? pv_satelliteDataCount pv) &&
  (ofDrone (minimumDataRequirements s) <=? pv_droneDataCount pv) &&
  (ofThirdParty (minimumDataRequirements s) <=? pv_thirdPartyDataCount pv).

(** The loop of [_checkProjectVerificationCompletion] over
    [verificationIds], carrying [(totalWeight, verifiedWeight)]. *)
Fixpoint weigh (s : state) (ids : list N) (totalWeight verifiedWeight : N)
  : result (N * N) :=
  match ids with
  | [] => Ok (totalWeight, verifiedWeight)
  | id :: ids' =>
      let d := data s id in
      let weight := at_source (verificationWeights s) (v_source d) in
      tw ← checked_add totalWeight weight;
      vw ← (if is_verified (v_status d) then checked_add verifiedWeight weight
            else Ok verifiedWeight);
      weigh s ids' tw vw
  end.

(** The loop of [_calculateFinalCarbonCredits], carrying
    [(totalEstimate, totalWeight)]. *)
Fixpoint estimate (s : state) (ids : list N) (totalEstimate totalWeight : N)
  : result (N * N) :=
  match ids with
  | [] => Ok (totalEstimate, totalWeight)
  | id :: ids' =>
      let d := data s id in
      if is_verified (v_status d) then
        let weight := at_source (verificationWeights s) (v_source d) in
        p ← checked_mul (v_carbonCreditsEstimate d) weight;
        te ← checked_add totalEstimate p;
        tw ← checked_add totalWeight weight;
        estimate s ids' te tw
      else estimate s ids' totalEstimate totalWeight
  end.

Definition _calculateFinalCarbonCredits (_projectId : N) (s : state) : result N :=
  let pv := projectVerif s _projectId in
  r ← estimate s (pv_verificationIds pv) 0 0;
  let totalEstimate := fst r in
  let totalWeight := snd r in
  Ok (if 0 <? totalWeight then totalEstimate / totalWeight else 0).

Definition _issueCarbonCredits (now : N) (_projectId _amount : N) (w : world)
  : result world :=
  project ← Registry.getProject _projectId (registry w);
  r ← Token.mintCreditBatch (this w) now _projectId _amount now
        "Blue Carbon MRV Standard" EmptyString
        (Registry.p_projectOwner project) (token w);
  Ok (mkWorld (this w) (registry w) (fst r) (oracle w)).

Definition with_completed (pv : ProjectVerification) : ProjectVerification :=
  mkVerif (pv_projectId pv) (pv_verificationIds pv) (pv_communityDataCount pv)
    (pv_satelliteDataCount pv) (pv_droneDataCount pv)
    (pv_thirdPartyDataCount pv) (pv_verifiedDataCount pv) true
    (pv_finalCarbonCredits pv) (pv_lastUpdateTimestamp pv).

Definition with_finalCarbonCredits (c : N) (pv : ProjectVerification)
  : ProjectVerification :=
  mkVerif (pv_projectId pv) (pv_verificationIds pv) (pv_communityDataCount pv)
    (pv_satelliteDataCount pv) (pv_droneDataCount pv)
    (pv_thirdPartyDataCount pv) (pv_verifiedDataCount pv)
    (pv_isCompletelyVerified pv) c (pv_lastUpdateTimestamp pv).

Definition _checkProjectVerificationCompletion (now : N) (_projectId : N)
    (w : world) : result world :=
  let s := oracle w in
  let pv := projectVerif s _projectId in
  if negb (hasMinimumData s pv) then Ok w
  else
    r ← weigh s (pv_verificationIds pv) 0 0;
    let totalWeight := fst r in
    let verifiedWeight := snd r in
    scaled ← checked_mul verifiedWeight 10000;
    verificationScore ← checked_div scaled totalWeight;
    if (VERIFICATION_THRESHOLD <=? verificationScore)
       && negb (pv_isCompletelyVerified pv)
    then
      let s1 := set_verif _projectId (with_completed pv) s in
      finalCredits ← _calculateFinalCarbonCredits _projectId s1;
      let s2 := set_verif _projectId
                  (with_finalCarbonCredits finalCredits
                     (projectVerif s1 _projectId)) s1 in
      reg ← Registry.updateTotalCarbonCredits (this w) _projectId finalCredits
              (registry w);
      _issueCarbonCredits now _projectId finalCredits
        (mkWorld (this w) reg (token w) s2)
    else Ok w.

(** *** Decision *)

Definition with_status (st : VerificationStatus) (notes : string)
    (d : VerificationData) : VerificationData :=
  mkData (v_projectId d) (v_source d) (v_ipfsHash d) (v_description d)
    (v_submitter d) (v_timestamp d) st notes (v_carbonCreditsEstimate d).

Definition with_verified (c : N) (now : N) (pv : ProjectVerification)
  : ProjectVerification :=
  mkVerif (pv_projectId pv) (pv_verificationIds pv) (pv_communityDataCount pv)
    (pv_satelliteDataCount pv) (pv_droneDataCount pv)
    (pv_thirdPartyDataCount pv) c (pv_isCompletelyVerified pv)
    (pv_finalCarbonCredits pv) now.

Definition updateVerificationStatus (sender : address) (now : N)
    (_verificationId : N) (_newStatus : VerificationStatus) (_notes : string)
    (w : world) : result world :=
  let s := oracle w in
  onlyAuthorizedVerifier sender s;;
  require ((0 <? _verificationId) && (_verificationId <=? verificationIdCounter s))
    "Invalid verification ID";;
  let d := data s _verificationId in
  let oldStatus := v_status d in
  let s1 := set_data _verificationId (with_status _newStatus _notes d) s in
  let pid := v_projectId d in
  let pv := projectVerif s1 pid in
  count ←
    (if negb (is_verified oldStatus) && is_verified _newStatus
     then checked_add (pv_verifiedDataCount pv) 1
     else if is_verified oldStatus && negb (is_verified _newStatus)
     then checked_sub (pv_verifiedDataCount pv) 1
     else Ok (pv_verifiedDataCount pv));
  let s2 := set_verif pid (with_verified count now pv) s1 in
  _checkProjectVerificationCompletion now pid (set_oracle s2 w).

(** *** Administration *)

Definition set_verifiers (m : gmap address bool) (s : state) : state :=
  mkState (owner s) (verificationData s) (projectVerifications s) m
    (minimumDataRequirements s) (verificationWeights s)
    (verificationIdCounter s).

Definition addVerifier (sender _verifier : address) (s : state) : result state :=
  onlyOwner sender s;;
  require (negb (_verifier =? 0)) "Invalid verifier address";;
  Ok (set_verifiers (<[_verifier := true]> (authorizedVerifiers s)) s).

Definition removeVerifier (sender _verifier : address) (s : state)
  : result state :=
  onlyOwner sender s;;
  Ok (set_verifiers (<[_verifier := false]> (authorizedVerifiers s)) s).

Definition updateMinimumDataRequirements (sender : address)
    (_source : DataSource) (_minimum : N) (s : state) : result state :=
  onlyOwner sender s;;
  Ok (mkState (owner s) (verificationData s) (projectVerifications s)
        (authorizedVerifiers s)
        (set_source _source _minimum (minimumDataRequirements s))
        (verificationWeights s) (verificationIdCounter s)).

Definition updateVerificationWeights (sender : address)
    (_source : DataSource) (_weight : N) (s : state) : result state :=
  onlyOwner sender s;;
  require (_weight <=? 10000) "Weight cannot exceed 100%";;
  Ok (mkState (owner s) (verificationData s) (projectVerifications s)
        (authorizedVerifiers s) (minimumDataRequirements s)
        (set_source _source _weight (verificationWeights s))
        (verificationIdCounter s)).

Definition set_owner (a : address) (s : state) : state :=
  mkState a (verificationData s) (projectVerifications s)
    (authorizedVerifiers s) (minimumDataRequirements s) (verificationWeights s)
    (verificationIdCounter s).

Definition transferOwnership (sender newOwner : address) (s : state)
  : result state :=
  onlyOwner sender s;;
  require (negb (newOwner =? 0)) "Ownable: new owner is the zero address";;
  Ok (set_owner newOwner s).

Definition renounceOwnership (sender : address) (s : state) : result state :=
  onlyOwner sender s;;
  Ok (set_owner 0 s).

(** [checkVerificationRequirements] *)
Definition checkVerificationRequirements (_projectId : N) (s : state) : bool :=
  hasMinimumData s (projectVerif s _projectId).

(** *** Transactions of the pipeline *)

Inductive call :=
| SubmitVerificationData (projectId : N) (source : DataSource)
    (ipfsHash description : string) (carbonCreditsEstimate : N)
| UpdateVerificationStatus (verificationId : N) (newStatus : VerificationStatus)
    (notes : string)
| AddVerifier (verifier : address)
| RemoveVerifier (verifier : address)
| UpdateMinimumDataRequirements (source : DataSource) (minimum : N)
| UpdateVerificationWeights (source : DataSource) (weight : N)
| TransferOwnership (newOwner : address)
| RenounceOwnership.

(** A transaction is sent to one of the three contracts. *)
Inductive target :=
| ToOracle (c : call)
| ToRegistry (c : Registry.call)
| ToToken (c : Token.call).

Record tx := mkTx { tx_sender : address; tx_time : N; tx_target : target }.

Definition lift (w : world) (r : result state) : result world :=
  s ← r; Ok (set_oracle s w).

Definition exec_call (sender : address) (now : N) (c : call) (w : world)
  : result world :=
  let s := oracle w in
  match c with
  | SubmitVerificationData p src ipfs descr est =>
      r ← submitVerificationData sender now p src ipfs descr est s;
      Ok (set_oracle (fst r) w)
  | UpdateVerificationStatus id st notes =>
      updateVerificationStatus sender now id st notes w
  | AddVerifier v => lift w (addVerifier sender v s)
  | RemoveVerifier v => lift w (removeVerifier sender v s)
  | UpdateMinimumDataRequirements src m =>
      lift w (updateMinimumDataRequirements sender src m s)
  | UpdateVerificationWeights src x =>
      lift w (updateVerificationWeights sender src x s)
  | TransferOwnership o => lift w (transferOwnership sender o s)
  | RenounceOwnership => lift w (renounceOwnership sender s)
  end.

Definition exec (t : tx) (w : world) : result world :=
  match tx_target t with
  | ToOracle c => exec_call (tx_sender t) (tx_time t) c w
  | ToRegistry c =>
      r ← Registry.exec (tx_sender t) (tx_time t) c (registry w);
      Ok (mkWorld (this w) r (token w) (oracle w))
  | ToToken c =>
      r ← Token.exec (Token.mkTx (tx_sender t) (tx_time t) c) (token w);
      Ok (mkWorld (this w) (registry w) r (oracle w))
  end.

Definition step (w : world) (t : tx) : world := commit (exec t w) w.

Definition run (txs : list tx) (w : world) : world := fold_left step txs w.

(** The states of a run, the initial one first. *)
Fixpoint states (txs : list tx) (w : world) : list world :=
  match txs with
  | [] => [w]
  | t :: txs' => w :: states txs' (step w t)
  end.

Definition finalized (w : world) (projectId : N) : bool :=
  pv_isCompletelyVerified (projectVerif (oracle w) projectId).

Definition finalCarbonCredits (w : world) (projectId : N) : N :=
  pv_finalCarbonCredits (projectVerif (oracle w) projectId).

(** How often the flag of a project goes from false to true along a list of
    states. *)
Fixpoint finalizations (projectId : N) (ws : list world) : nat :=
  match ws with
  | w1 :: ((w2 :: _) as rest) =>
      ((if negb (finalized w1 projectId) && finalized w2 projectId
        then 1 else 0) + finalizations projectId rest)%nat
  | _ => 0%nat
  end.

(** *** The weighted average of the specification

    [Σ (claimedQuantity_i × weight_i) / Σ weight_i] over the Accepted
    submissions of a project, in unbounded arithmetic with floor division. *)

Definition all_of (s : state) (ids : list N) : list VerificationData :=
  map (data s) ids.

Definition verified_of (s : state) (ids : list N) : list VerificationData :=
  filter (λ d, is_verified (v_status d) = true) (all_of s ids).

Definition submissions (s : state) (projectId : N) : list VerificationData :=
  all_of s (pv_verificationIds (projectVerif s projectId)).

Definition accepted (s : state) (projectId : N) : list VerificationData :=
  verified_of s (pv_verificationIds (projectVerif s projectId)).

Definition weight_of (s : state) (d : VerificationData) : N :=
  at_source (verificationWeights s) (v_source d).

Definition weighted_sum (s : state) (ds : list VerificationData) : N :=
  foldr (λ d acc, v_carbonCreditsEstimate d * weight_of s d + acc) 0 ds.

Definition weight_sum (s : state) (ds : list VerificationData) : N :=
  foldr (λ d acc, weight_of s d + acc) 0 ds.

Definition weighted_average (s : state) (projectId : N) : N :=
  weighted_sum s (accepted s projectId) / weight_sum s (accepted s projectId).

(** *** What a decision does *)

(** The storage of the oracle after the status update of
    [updateVerificationStatus] and before the completion check; [count] is
    the new [verifiedDataCount]. *)
Definition status_updated (now vid : N) (st : VerificationStatus)
    (notes : string) (count : N) (s : state) : state :=
  let d := data s vid in
  let pid := v_projectId d in
  set_verif pid (with_verified count now (projectVerif s pid))
    (set_data vid (with_status st notes d) s).

(** The check found the project not completely verified and completed it
    with [q] credits, written to the registry and minted as batch [id] to the
    owner of [project]. *)
Definition fired (now pid : N) (w w' : world) (q id : N)
    (project : Registry.Project) : Prop :=
  let s := oracle w in
  let pv := projectVerif s pid in
  let ids := pv_verificationIds pv in
  hasMinimumData s pv = true ∧
  pv_isCompletelyVerified pv = false ∧
  VERIFICATION_THRESHOLD
    <= weight_sum s (verified_of s ids) * 10000 / weight_sum s (all_of s ids) ∧
  0 < weight_sum s (verified_of s ids) ∧
  q = weighted_sum s (verified_of s ids) / weight_sum s (verified_of s ids) ∧
  Registry.getProject pid (registry w) = Ok project ∧
  ∃ reg tok,
    Registry.updateTotalCarbonCredits (this w) pid q (registry w) = Ok reg ∧
    Token.mintCreditBatch (this w) now pid q now "Blue Carbon MRV Standard"
      EmptyString (Registry.p_projectOwner project) (token w) = Ok (tok, id) ∧
    w' = mkWorld (this w) reg tok
           (set_verif pid (with_finalCarbonCredits q (with_completed pv)) s).

(** The counter [submitVerificationData] increments for a source. *)
Definition source_count (src : DataSource) (pv : ProjectVerification) : N :=
  match src with
  | Community => pv_communityDataCount pv
  | Satellite => pv_satelliteDataCount pv
  | Drone => pv_droneDataCount pv
  | ThirdParty => pv_thirdPartyDataCount pv
  end.

(** *** Deployment *)

Definition deploy (this registryOwner tokenOwner oracleOwner : address) : world :=
  mkWorld this (Registry.constructor registryOwner)
    (Token.constructor tokenOwner) (constructor oracleOwner).

Definition reachable (w : world) : Prop :=
  ∃ this registryOwner tokenOwner oracleOwner txs,
    w = run txs (deploy this registryOwner tokenOwner oracleOwner).

End Oracle.

(** ** PaymentDistributor

    Records sales and splits the price among the beneficiaries of a project
    into pull-payment balances. The contract holds ether: [etherBalance] is
    [address(this).balance]. An ether transfer to an account succeeds when the
    account accepts it ([accepts], given by the environment of the call) and
    the contract holds the amount. *)

Module Distributor.

Record PaymentSplit := mkSplit {
  communityWallets : list address;
  communityPercentages : list N;     (* basis points (100 = 1%) *)
  ngoWallets : list address;
  ngoPercentages : list N;
  verifierWallets : list address;
  verifierPercentages : list N;
  platformWallet : address;
  platformPercentage : N
}.

Record Sale := mkSale {
  sale_projectId : N;
  sale_batchId : N;
  sale_amount : N;
  sale_price : N;
  sale_buyer : address;
  sale_seller : address;
  sale_timestamp : N;
  sale_isDistributed : bool
}.

Record state := mkState {
  owner : address;
  projectPaymentSplits : gmap N PaymentSplit;
  sales : gmap N Sale;
  pendingWithdrawals : gmap address N;
  platformTreasury : address;
  defaultPlatformFee : N;
  saleIdCounter : N;
  etherBalance : N
}.

(** Panic code 0x32: array index out of bounds. *)
Definition PANIC_INDEX : N := 50.

Definition noSplit : PaymentSplit := mkSplit [] [] [] [] [] [] 0 0.

Definition noSale : Sale := mkSale 0 0 0 0 0 0 0 false.

Definition paymentSplit (s : state) (projectId : N) : PaymentSplit :=
  default noSplit (projectPaymentSplits s !! projectId).

Definition sale (s : state) (saleId : N) : Sale :=
  default noSale (sales s !! saleId).

Definition getPendingWithdrawal (s : state) (a : address) : N :=
  rd (pendingWithdrawals s) a.

Definition init (deployer _platformTreasury : address) : state :=
  mkState deployer ∅ ∅ ∅ _platformTreasury 250 0 0.

(** [constructor(_carbonCreditToken, _platformTreasury)]; the token address is
    only stored. *)
Definition constructor (deployer _carbonCreditToken _platformTreasury : address)
  : result state :=
  require (negb (_carbonCreditToken =? 0)) "Invalid token address";;
  require (negb (_platformTreasury =? 0)) "Invalid treasury address";;
  Ok (init deployer _platformTreasury).

Definition onlyOwner (sender : address) (s : state) : result unit :=
  require (owner s =? sender) "Ownable: caller is not the owner".

Definition validProjectId (_projectId : N) : result unit :=
  require (0 <? _projectId) "Invalid project ID".

(** [for (i...) totalPercentage += percentages[i]] *)
Fixpoint add_percentages (percentages : list N) (totalPercentage : N)
  : result N :=
  match percentages with
  | [] => Ok totalPercentage
  | p :: ps => t ← checked_add totalPercentage p; add_percentages ps t
  end.

Definition configurePaymentSplit (sender : address) (_projectId : N)
    (_communityWallets : list address) (_communityPercentages : list N)
    (_ngoWallets : list address) (_ngoPercentages : list N)
    (_verifierWallets : list address) (_verifierPercentages : list N)
    (_platformWallet : address) (_platformPercentage : N)
    (s : state) : result state :=
  onlyOwner sender s;;
  validProjectId _projectId;;
  require (length _communityWallets =? length _communityPercentages)%nat
    "Community arrays length mismatch";;
  require (length _ngoWallets =? length _ngoPercentages)%nat
    "NGO arrays length mismatch";;
  require (length _verifierWallets =? length _verifierPercentages)%nat
    "Verifier arrays length mismatch";;
  t1 ← add_percentages _communityPercentages _platformPercentage;
  t2 ← add_percentages _ngoPercentages t1;
  totalPercentage ← add_percentages _verifierPercentages t2;
  require (totalPercentage <=? 10000) "Total percentage exceeds 100%";;
  let split :=
    mkSplit _communityWallets _communityPercentages _ngoWallets _ngoPercentages
      _verifierWallets _verifierPercentages
      (if negb (_platformWallet =? 0) then _platformWallet
       else platformTreasury s)
      (if 0 <? _platformPercentage then _platformPercentage
       else defaultPlatformFee s) in
  Ok (mkState (owner s) (<[_projectId := split]> (projectPaymentSplits s))
        (sales s) (pendingWithdrawals s) (platformTreasury s)
        (defaultPlatformFee s) (saleIdCounter s) (etherBalance s)).

(** [if (amount > 0) pendingWithdrawals[wallet] += amount] *)
Definition credit (wallet : address) (amount : N) (pending : gmap address N)
  : result (gmap address N) :=
  if 0 <? amount then
    v ← checked_add (rd pending wallet) amount;
    Ok (<[wallet := v]> pending)
  else Ok pending.

(** One loop of [_distributePayment]: [wallets[i]] is paid
    [_totalAmount * percentages[i] / 10000]. *)
Fixpoint distribute (_totalAmount : N) (wallets : list address)
    (percentages : list N) (pending : gmap address N)
  : result (gmap address N) :=
  match wallets with
  | [] => Ok pending
  | wallet :: wallets' =>
      match percentages with
      | [] => Err (Panic PANIC_INDEX)
      | p :: percentages' =>
          x ← checked_mul _totalAmount p;
          pending' ← credit wallet (x / 10000) pending;
          distribute _totalAmount wallets' percentages' pending'
      end
  end.

Definition with_distributed (x : Sale) : Sale :=
  mkSale (sale_projectId x) (sale_batchId x) (sale_amount x) (sale_price x)
    (sale_buyer x) (sale_seller x) (sale_timestamp x) true.

(** The four steps of [_distributePayment] on the pull-payment balances:
    community, NGO and verifier wallets, then the platform fee. *)
Definition distribution (_totalAmount : N) (split : PaymentSplit)
    (pending : gmap address N) : result (gmap address N) :=
  p1 ← distribute _totalAmount (communityWallets split)
         (communityPercentages split) pending;
  p2 ← distribute _totalAmount (ngoWallets split) (ngoPercentages split) p1;
  p3 ← distribute _totalAmount (verifierWallets split)
         (verifierPercentages split) p2;
  x ← checked_mul _totalAmount (platformPercentage split);
  credit (platformWallet split) (x / 10000) p3.

Definition _distributePayment (_saleId _projectId _totalAmount : N) (s : state)
  : result state :=
  pending ← distribution _totalAmount (paymentSplit s _projectId)
              (pendingWithdrawals s);
  Ok (mkState (owner s) (projectPaymentSplits s)
        (<[_saleId := with_distributed (sale s _saleId)]> (sales s))
        pending (platformTreasury s) (defaultPlatformFee s) (saleIdCounter s)
        (etherBalance s)).

(** [payable(to).transfer(amount)] and [payable(to).call{value: amount}("")]:
    whether the ether arrives. *)
Definition can_send (accepts : address → bool) (to : address) (amount : N)
    (s : state) : bool :=
  accepts to && (amount <=? etherBalance s).

Definition set_etherBalance (b : N) (s : state) : state :=
  mkState (owner s) (projectPaymentSplits s) (sales s) (pendingWithdrawals s)
    (platformTreasury s) (defaultPlatformFee s) (saleIdCounter s) b.

(** [recordSaleAndDistribute], called by [sender] with [value] wei attached.
    The attached ether is in the balance of the contract from the start of
    the call. *)
Definition recordSaleAndDistribute (accepts : address → bool)
    (sender : address) (value now : N)
    (_projectId _batchId _amount _price : N) (_buyer _seller : address)
    (s : state) : result state :=
  let s0 := set_etherBalance (etherBalance s + value) s in
  validProjectId _projectId;;
  require (0 <? _amount) "Amount must be greater than 0";;
  require (0 <? _price) "Price must be greater than 0";;
  require (negb (_buyer =? 0)) "Invalid buyer address";;
  require (negb (_seller =? 0)) "Invalid seller address";;
  require (_price <=? value) "Insufficient payment";;
  saleId ← checked_add (saleIdCounter s0) 1;
  let newSale := mkSale _projectId _batchId _amount _price _buyer _seller now
                   false in
  let s1 := mkState (owner s0) (projectPaymentSplits s0)
              (<[saleId := newSale]> (sales s0)) (pendingWithdrawals s0)
              (platformTreasury s0) (defaultPlatformFee s0) saleId
              (etherBalance s0) in
  s2 ← _distributePayment saleId _projectId _price s1;
  if _price <? value then
    require (can_send accepts sender (value - _price) s2)
      "transfer of the excess payment failed";;
    Ok (set_etherBalance (etherBalance s2 - (value - _price)) s2)
  else Ok s2.

(** [withdraw]: returns the post-state and the amount sent to the caller. *)
Definition withdraw (accepts : address → bool) (sender : address) (s : state)
  : result (state * N) :=
  let amount := rd (pendingWithdrawals s) sender in
  require (0 <? amount) "No funds to withdraw";;
  let s1 := mkState (owner s) (projectPaymentSplits s) (sales s)
              (<[sender := 0]> (pendingWithdrawals s)) (platformTreasury s)
              (defaultPlatformFee s) (saleIdCounter s) (etherBalance s) in
  require (can_send accepts sender amount s1) "Transfer failed";;
  Ok (set_etherBalance (etherBalance s1 - amount) s1, amount).

Definition emergencyWithdraw (accepts : address → bool) (sender : address)
    (_recipient : address) (_amount : N) (s : state) : result state :=
  onlyOwner sender s;;
  require (negb (_recipient =? 0)) "Invalid recipient";;
  require (_amount <=? etherBalance s) "Insufficient balance";;
  require (can_send accepts _recipient _amount s) "Transfer failed";;
  Ok (set_etherBalance (etherBalance s - _amount) s).

Definition updatePlatformTreasury (sender _newTreasury : address) (s : state)
  : result state :=
  onlyOwner sender s;;
  require (negb (_newTreasury =? 0)) "Invalid treasury address";;
  Ok (mkState (owner s) (projectPaymentSplits s) (sales s)
        (pendingWithdrawals s) _newTreasury (defaultPlatformFee s)
        (saleIdCounter s) (etherBalance s)).

Definition updateDefaultPlatformFee (sender : address) (_newFee : N) (s : state)
  : result state :=
  onlyOwner sender s;;
  require (_newFee <=? 1000) "Fee cannot exceed 10%";;
  Ok (mkState (owner s) (projectPaymentSplits s) (sales s)
        (pendingWithdrawals s) (platformTreasury s) _newFee
        (saleIdCounter s) (etherBalance s)).

(** [receive() external payable {}] *)
Definition receive (value : N) (s : state) : result state :=
  Ok (set_etherBalance (etherBalance s + value) s).

(** Sum of the percentages a configuration stores, the platform percentage
    included. *)
Definition list_sum (l : list N) : N := foldr N.add 0 l.

Definition stored_total (split : PaymentSplit) : N :=
  list_sum (communityPercentages split) + list_sum (ngoPercentages split)
  + list_sum (verifierPercentages split) + platformPercentage split.

(** Sum of the percentages of a call of [configurePaymentSplit]. *)
Definition requested_total (_communityPercentages _ngoPercentages
    _verifierPercentages : list N) (_platformPercentage : N) : N :=
  _platformPercentage + list_sum _communityPercentages
  + list_sum _ngoPercentages + list_sum _verifierPercentages.

(** *** Transactions *)

Inductive call :=
| ConfigurePaymentSplit (projectId : N)
    (communityWallets : list address) (communityPercentages : list N)
    (ngoWallets : list address) (ngoPercentages : list N)
    (verifierWallets : list address) (verifierPercentages : list N)
    (platformWallet : address) (platformPercentage : N)
| RecordSaleAndDistribute (projectId batchId amount price : N)
    (buyer seller : address)
| Withdraw
| EmergencyWithdraw (recipient : address) (amount : N)
| UpdatePlatformTreasury (newTreasury : address)
| UpdateDefaultPlatformFee (newFee : N)
| Receive.

Record tx := mkTx {
  tx_sender : address;
  tx_value : N;
  tx_time : N;
  tx_call : call
}.

(** A function that is not [payable] reverts when ether is attached. *)
Definition nonpayable (value : N) : result unit :=
  require (value =? 0) "function is not payable".

Definition exec (accepts : address → bool) (t : tx) (s : state) : result state :=
  let sender := tx_sender t in
  match tx_call t with
  | ConfigurePaymentSplit p cw cp nw np vw vp pw pp =>
      nonpayable (tx_value t);;
      configurePaymentSplit sender p cw cp nw np vw vp pw pp s
  | RecordSaleAndDistribute p b a price buyer seller =>
      recordSaleAndDistribute accepts sender (tx_value t) (tx_time t)
        p b a price buyer seller s
  | Withdraw =>
      nonpayable (tx_value t);;
      r ← withdraw accepts sender s; Ok (fst r)
  | EmergencyWithdraw r a =>
      nonpayable (tx_value t);; emergencyWithdraw accepts sender r a s
  | UpdatePlatformTreasury a =>
      nonpayable (tx_value t);; updatePlatformTreasury sender a s
  | UpdateDefaultPlatformFee f =>
      nonpayable (tx_value t);; updateDefaultPlatformFee sender f s
  | Receive => receive (tx_value t) s
  end.

Definition step (accepts : address → bool) (s : state) (t : tx) : state :=
  commit (exec accepts t s) s.

Definition run (accepts : address → bool) (txs : list tx) (s : state) : state :=
  fold_left (step accepts) txs s.

(** *** Invariant of the stored configurations *)

Definition aligned (split : PaymentSplit) : Prop :=
  length (communityWallets split) = length (communityPercentages split) ∧
  length (ngoWallets split) = length (ngoPercentages split) ∧
  length (verifierWallets split) = length (verifierPercentages split).

(** Every stored configuration has a percentage for each wallet and adds up
    to at most 10000 basis points plus the default fee, which is at most
    1000 basis points. *)
Definition inv (s : state) : Prop :=
  defaultPlatformFee s <= 1000 ∧
  ∀ pid split, projectPaymentSplits s !! pid = Some split →
    aligned split ∧ stored_total split <= 11000.

Definition reachable (s : state) : Prop :=
  ∃ accepts deployer treasury txs, s = run accepts txs (init deployer treasury).

(** The shares of a price for a list of percentages, each rounded down. *)
Definition shares (price : N) (percentages : list N) : N :=
  list_sum (map (λ p, price * p / 10000) percentages).

Definition total_shares (price : N) (split : PaymentSplit) : N :=
  shares price (communityPercentages split)
  + shares price (ngoPercentages split)
  + shares price (verifierPercentages split)
  + price * platformPercentage split / 10000.

End Distributor.

(** ** Scenarios

    Concrete runs of the contracts. Account 1 deploys and owns the
    contracts, account 7 owns the project, account 9 is the oracle. *)

Module Scenario.

(** Two batches of 10 and 100 credits are minted to account 7. *)
Definition two_batches : list Token.tx :=
  [ Token.mkTx 1 100 (Token.MintCreditBatch 1 10 2024 "VCS" "QmBatch1" 7);
    Token.mkTx 1 100 (Token.MintCreditBatch 1 100 2024 "VCS" "QmBatch2" 7) ].

(** Account 7 retires 50 credits against the first batch, of 10 credits. *)
Definition retire_50_of_batch_1 : Token.tx :=
  Token.mkTx 7 101 (Token.RetireCredits 1 50 "offsetting emissions").

Definition mint_mint_retire : list Token.tx :=
  two_batches ++ [retire_50_of_batch_1].

(** One credit is minted to account 7, which then burns it with the
    inherited [burn]. *)
Definition mint_then_burn : list Token.tx :=
  [ Token.mkTx 1 100 (Token.MintCreditBatch 1 1 2024 "VCS" "QmBatch1" 7);
    Token.mkTx 7 101 (Token.Burn Token.UNIT) ].

(** *** The pipeline

    The oracle is deployed at address 9. Account 7 registers project 1; the
    owner of the registry authorises the oracle, the owner of the token hands
    the token to the oracle, and the owner of the oracle authorises account 3
    as verifier. *)

Definition deployed : Oracle.world := Oracle.deploy 9 1 1 1.

Definition setup : list Oracle.tx :=
  [ Oracle.mkTx 7 10
      (Oracle.ToRegistry
         (Registry.RegisterProject "Mangrove Restoration Project"
            "Restoring 100 hectares of mangrove forest" Registry.Mangrove
            "Mumbai, India" 100 [7] "QmMetadata" 1000));
    Oracle.mkTx 1 11 (Oracle.ToRegistry (Registry.AddVerifier 9));
    Oracle.mkTx 1 12 (Oracle.ToToken (Token.TransferOwnership 9));
    Oracle.mkTx 1 13 (Oracle.ToOracle (Oracle.AddVerifier 3)) ].

Definition submit (sender : address) (src : Oracle.DataSource) (ref : string)
    (estimate : N) : Oracle.tx :=
  Oracle.mkTx sender 20
    (Oracle.ToOracle
       (Oracle.SubmitVerificationData 1 src ref "field data" estimate)).

(** Seven submissions for project 1: three of the community, two from
    satellites, one from a drone, one from a third party. *)
Definition evidence : list Oracle.tx :=
  [ submit 4 Oracle.Community "QmCommunity1" 100;
    submit 5 Oracle.Community "QmCommunity2" 100;
    submit 6 Oracle.Community "QmCommunity3" 101;
    submit 1 Oracle.Satellite "QmSatellite1" 95;
    submit 1 Oracle.Satellite "QmSatellite2" 105;
    submit 1 Oracle.Drone "QmDrone1" 98;
    submit 1 Oracle.ThirdParty "QmThirdParty1" 102 ].

Definition verify (id : N) : Oracle.tx :=
  Oracle.mkTx 3 30
    (Oracle.ToOracle (Oracle.UpdateVerificationStatus id Oracle.Verified "Verified")).

(** The verifier has accepted submissions 1 to 4: 12500 of 19500 weight. *)
Definition four_accepted : Oracle.world :=
  Oracle.run (setup ++ evidence ++ [verify 1; verify 2; verify 3; verify 4])
    deployed.

(** Accepting submission 5 brings the accepted weight to 16000 of 19500. *)
Definition five_accepted : Oracle.world := Oracle.step four_accepted (verify 5).

(** The owner of the oracle sets the weight of every source to 0 before the
    evidence is submitted. *)
Definition zero_weights : list Oracle.tx :=
  [ Oracle.mkTx 1 14 (Oracle.ToOracle (Oracle.UpdateVerificationWeights Oracle.Community 0));
    Oracle.mkTx 1 14 (Oracle.ToOracle (Oracle.UpdateVerificationWeights Oracle.Satellite 0));
    Oracle.mkTx 1 14 (Oracle.ToOracle (Oracle.UpdateVerificationWeights Oracle.Drone 0));
    Oracle.mkTx 1 14 (Oracle.ToOracle (Oracle.UpdateVerificationWeights Oracle.ThirdParty 0)) ].

Definition weightless : Oracle.world :=
  Oracle.run (setup ++ zero_weights ++ evidence) deployed.

(** Account 5 submits evidence for project 42, which nobody registered. *)
Definition submit_unregistered : Oracle.tx :=
  Oracle.mkTx 5 20
    (Oracle.ToOracle
       (Oracle.SubmitVerificationData 42 Oracle.Community "QmEvidence"
          "field data" 10)).

(** *** Settlement

    Account 1 deploys the distributor with account 6 as treasury. Every
    account accepts ether, except where [refuses] says otherwise. *)

Definition distributor : Distributor.state := Distributor.init 1 6.

Definition everyone : address → bool := λ _, true.

(** Account 20 is a contract without a payable fallback. *)
Definition refuses (a : address) : address → bool := λ x, negb (x =? a).

(** The owner gives the whole price of project 1 to account 7 and leaves the
    platform wallet and percentage at zero. *)
Definition configure_full_split : Distributor.tx :=
  Distributor.mkTx 1 0 40
    (Distributor.ConfigurePaymentSplit 1 [7] [10000] [] [] [] [] 0 0).

(** Project 1 pays 30% to account 7 and 10% to the treasury. *)
Definition configure_split : Distributor.tx :=
  Distributor.mkTx 1 0 40
    (Distributor.ConfigurePaymentSplit 1 [7] [3000] [] [] [] [] 6 1000).

(** Account 8 settles a sale of 50 credits of batch 1 for 1000 wei. *)
Definition sale_1000 : Distributor.tx :=
  Distributor.mkTx 8 1000 41
    (Distributor.RecordSaleAndDistribute 1 1 50 1000 8 7).

(** The owner takes the 1000 wei out of the contract. *)
Definition drain : Distributor.tx :=
  Distributor.mkTx 1 0 42 (Distributor.EmergencyWithdraw 1 1000).

Definition configured : Distributor.state :=
  Distributor.run everyone [configure_split] distributor.


Definition sold : Distributor.state :=
  Distributor.run everyone [configure_split; sale_1000] distributor.

End Scenario.

(** ** CarbonCreditToken: views and further invariants *)

Module TokenViews.
Import Token.

(** [getBatch] *)
Definition getBatch (_batchId : N) (s : state) : result CreditBatch :=
  validBatchId _batchId s;;
  Ok (batch s _batchId).

(** [getOwnerBatches] *)
Definition getOwnerBatches (_owner : address) (s : state) : list N :=
  default [] (ownerBatches s !! _owner).

(** [getProjectBatches] *)
Definition getProjectBatches (_projectId : N) (s : state) : list N :=
  default [] (projectBatches s !! _projectId).

(** [getBatchRetirements] *)
Definition getBatchRetirements (_batchId : N) (s : state)
  : result (list RetirementInfo) :=
  validBatchId _batchId s;;
  Ok (retirements s _batchId).

(** [ownerOf]: the original minter of a batch. *)
Definition ownerOf (_batchId : N) (s : state) : result address :=
  validBatchId _batchId s;;
  Ok (b_originalOwner (batch s _batchId)).

(** [getTotalBatches] *)
Definition getTotalBatches (s : state) : N := batchIdCounter s.

(** [batchExists] *)
Definition batchExists (_batchId : N) (s : state) : bool :=
  (0 <? _batchId) && (_batchId <=? batchIdCounter s).

(** What [mintCreditBatch] requires of the record it creates. *)
Definition minted_well (b : CreditBatch) : Prop :=
  0 < b_projectId b ∧ 0 < b_amount b ∧ 0 < b_vintage b ∧
  b_originalOwner b ≠ 0 ∧ nonempty (b_verificationStandard b) = true.

(** What a retirement record of batch [id] carries. *)
Definition retired_well (id : N) (r : RetirementInfo) : Prop :=
  r_batchId r = id ∧ 0 < r_amount r ∧ nonempty (r_reason r) = true ∧
  r_retiredBy r ≠ 0.

(** The fields of a batch that no function writes after the mint. *)
Definition same_origin (b b' : CreditBatch) : Prop :=
  b_projectId b' = b_projectId b ∧ b_amount b' = b_amount b ∧
  b_vintage b' = b_vintage b ∧
  b_verificationStandard b' = b_verificationStandard b ∧
  b_createdAt b' = b_createdAt b ∧ b_originalOwner b' = b_originalOwner b.

(** The records of the ledger: batches, indexes and retirement records. *)
Record records_ok (s : state) : Prop := mkRecordsOk {
  rec_batches : ∀ id b, creditBatches s !! id = Some b → minted_well b;
  rec_retirements :
    ∀ id l r, batchRetirements s !! id = Some l → r ∈ l → retired_well id r;
  rec_by_account :
    map_sum id (totalRetiredCredits s) = totalRetiredCreditsGlobal s;
  rec_owner_index :
    ∀ o id, id ∈ getOwnerBatches o s ↔
            ∃ b, creditBatches s !! id = Some b ∧ b_originalOwner b = o;
  rec_owner_nodup : ∀ o, NoDup (getOwnerBatches o s);
  rec_project_index :
    ∀ p id, id ∈ getProjectBatches p s ↔
            ∃ b, creditBatches s !! id = Some b ∧ b_projectId b = p;
  rec_project_nodup : ∀ p, NoDup (getProjectBatches p s)
}.

(** A later state keeps the batch: the fields of its origin are the same,
    a retired batch stays retired and its retirement records are extended at
    the end. *)
Definition batch_kept (s s' : state) (id : N) : Prop :=
  same_origin (batch s id) (batch s' id) ∧
  (b_isRetired (batch s id) = true → b_isRetired (batch s' id) = true) ∧
  retirements s id `prefix_of` retirements s' id.

(** The calls that write the batch records. *)
Definition writes_ledger (c : call) : bool :=
  match c with
  | MintCreditBatch _ _ _ _ _ _ | RetireCredits _ _ _
  | UpdateBatchMetadata _ _ => true
  | _ => false
  end.

(** The batch side of the storage is the same in both states. *)
Definition same_ledger (s s' : state) : Prop :=
  batchIdCounter s' = batchIdCounter s ∧
  creditBatches s' = creditBatches s ∧
  ownerBatches s' = ownerBatches s ∧
  projectBatches s' = projectBatches s ∧
  batchRetirements s' = batchRetirements s ∧
  totalRetiredCredits s' = totalRetiredCredits s ∧
  totalIssuedCredits s' = totalIssuedCredits s ∧
  totalRetiredCreditsGlobal s' = totalRetiredCreditsGlobal s.

End TokenViews.

(** ** ProjectRegistry: views, transactions and invariants *)

Module RegistryViews.
Import Registry.

(** [getProjectsByOwner] *)
Definition getProjectsByOwner (_owner : address) (s : state) : list N :=
  default [] (ownerProjects s !! _owner).

(** [getTotalProjects] *)
Definition getTotalProjects (s : state) : N := projectIdCounter s.

Record tx := mkTx {
  tx_sender : address;
  tx_time : N;
  tx_call : call
}.

Definition step (s : state) (t : tx) : state :=
  commit (exec (tx_sender t) (tx_time t) (tx_call t) s) s.

Definition run (txs : list tx) (s : state) : state := fold_left step txs s.

(** The states the registry can be in. *)
Definition reachable (s : state) : Prop :=
  ∃ deployer txs, s = run txs (constructor deployer).

(** What [registerProject] requires of the record it creates under [id], and
    the fields no function sets to anything else. *)
Definition registered_well (id : N) (p : Project) : Prop :=
  p_id p = id ∧ nonempty (p_name p) = true ∧ nonempty (p_location p) = true ∧
  0 < p_areaInHectares p ∧ 0 < p_estimatedCarbonCredits p ∧
  p_isActive p = true ∧ p_verifiers p = [].

(** The fields of a project that are written by [registerProject] only. *)
Definition same_registration (p p' : Project) : Prop :=
  p_id p' = p_id p ∧ p_name p' = p_name p ∧
  p_description p' = p_description p ∧
  p_ecosystemType p' = p_ecosystemType p ∧ p_location p' = p_location p ∧
  p_areaInHectares p' = p_areaInHectares p ∧
  p_projectOwner p' = p_projectOwner p ∧
  p_communityWallets p' = p_communityWallets p ∧
  p_createdAt p' = p_createdAt p ∧
  p_ipfsHashMetadata p' = p_ipfsHashMetadata p ∧
  p_estimatedCarbonCredits p' = p_estimatedCarbonCredits p.

Record registry_ok (s : state) : Prop := mkRegistryOk {
  reg_dom : ∀ id, is_Some (projects s !! id) ↔ 0 < id <= projectIdCounter s;
  reg_projects : ∀ id p, projects s !! id = Some p → registered_well id p;
  reg_owner_index :
    ∀ o id, id ∈ getProjectsByOwner o s ↔
            ∃ p, projects s !! id = Some p ∧ p_projectOwner p = o;
  reg_owner_nodup : ∀ o, NoDup (getProjectsByOwner o s)
}.

(** Account 7 registers two projects; the owner authorises account 3, which
    approves the first project. *)
Definition two_projects : list tx :=
  [ mkTx 7 10 (RegisterProject "Mangroves" "Restoration" Mangrove "Mumbai" 100
                 [7; 8] "QmProject1" 1000);
    mkTx 7 11 (RegisterProject "Seagrass" "Meadow" Seagrass "Goa" 40
                 [] "QmProject2" 300);
    mkTx 1 12 (AddVerifier 3);
    mkTx 3 13 (ApproveProject 1) ].

End RegistryViews.

(** ** VerificationOracle: views and invariants of the records *)

Module OracleViews.
Import Oracle.

(** [getVerificationData] *)
Definition getVerificationData (_verificationId : N) (s : state)
  : VerificationData := data s _verificationId.

(** [getProjectVerification] *)
Definition getProjectVerification (_projectId : N) (s : state)
  : ProjectVerification := projectVerif s _projectId.

(** [getProjectVerificationIds] *)
Definition getProjectVerificationIds (_projectId : N) (s : state) : list N :=
  pv_verificationIds (projectVerif s _projectId).

(** [getTotalVerifications] *)
Definition getTotalVerifications (s : state) : N := verificationIdCounter s.

Definition same_source (a b : DataSource) : bool :=
  match a, b with
  | Community, Community | Satellite, Satellite | Drone, Drone
  | ThirdParty, ThirdParty => true
  | _, _ => false
  end.

(** How many of the listed submissions pass a test. *)
Fixpoint count_where (f : N → bool) (ids : list N) : N :=
  match ids with
  | [] => 0
  | id :: ids' => (if f id then 1 else 0) + count_where f ids'
  end.

Definition of_source (src : DataSource) (s : state) (id : N) : bool :=
  same_source (v_source (data s id)) src.

Definition verified (s : state) (id : N) : bool :=
  is_verified (v_status (data s id)).

(** What [submitVerificationData] requires of a submission. *)
Definition submitted_well (d : VerificationData) : Prop :=
  0 < v_projectId d ∧ nonempty (v_ipfsHash d) = true ∧
  0 < v_carbonCreditsEstimate d.

(** The fields of a submission that only [submitVerificationData] writes. *)
Definition same_submission (d d' : VerificationData) : Prop :=
  v_projectId d' = v_projectId d ∧ v_source d' = v_source d ∧
  v_ipfsHash d' = v_ipfsHash d ∧ v_description d' = v_description d ∧
  v_submitter d' = v_submitter d ∧ v_timestamp d' = v_timestamp d ∧
  v_carbonCreditsEstimate d' = v_carbonCreditsEstimate d.

(** The fields of a project's verification record that only
    [submitVerificationData] and the status update write. *)
Definition same_tracking (pv pv' : ProjectVerification) : Prop :=
  pv_projectId pv' = pv_projectId pv ∧
  pv_verificationIds pv' = pv_verificationIds pv ∧
  pv_communityDataCount pv' = pv_communityDataCount pv ∧
  pv_satelliteDataCount pv' = pv_satelliteDataCount pv ∧
  pv_droneDataCount pv' = pv_droneDataCount pv ∧
  pv_thirdPartyDataCount pv' = pv_thirdPartyDataCount pv.

Record oracle_ok (s : state) : Prop := mkOracleOk {
  ok_dom :
    ∀ id, is_Some (verificationData s !! id)
          ↔ 0 < id <= verificationIdCounter s;
  ok_data : ∀ id d, verificationData s !! id = Some d → submitted_well d;
  ok_index :
    ∀ p id, id ∈ getProjectVerificationIds p s ↔
            ∃ d, verificationData s !! id = Some d ∧ v_projectId d = p;
  ok_nodup : ∀ p, NoDup (getProjectVerificationIds p s);
  ok_sources :
    ∀ p src, source_count src (projectVerif s p)
             = count_where (of_source src s) (getProjectVerificationIds p s);
  ok_verified :
    ∀ p, pv_verifiedDataCount (projectVerif s p)
         = count_where (verified s) (getProjectVerificationIds p s);
  ok_weights : ∀ src, at_source (verificationWeights s) src <= 10000;
  ok_projectId :
    ∀ p, pv_projectId (projectVerif s p) = p ∨
         (pv_projectId (projectVerif s p) = 0 ∧
          getProjectVerificationIds p s = [])
}.

(** The verdict of every project: final credits are recorded, and positive,
    exactly for the completely verified projects. *)
Definition verdicts_ok (s : state) : Prop :=
  ∀ p, pv_isCompletelyVerified (projectVerif s p) = true
       ↔ 0 < pv_finalCarbonCredits (projectVerif s p).

End OracleViews.

(** ** PaymentDistributor: views and invariant of the sale records *)

Module DistributorViews.
Import Distributor.

(** [getPaymentSplit] *)
Definition getPaymentSplit (_projectId : N) (s : state) : PaymentSplit :=
  paymentSplit s _projectId.

(** [getSale] *)
Definition getSale (_saleId : N) (s : state) : Sale := sale s _saleId.

(** [getTotalSales] *)
Definition getTotalSales (s : state) : N := saleIdCounter s.

(** What [recordSaleAndDistribute] requires of a sale, which it marks
    distributed in the same call. *)
Definition sold_well (x : Sale) : Prop :=
  0 < sale_projectId x ∧ 0 < sale_amount x ∧ 0 < sale_price x ∧
  sale_buyer x ≠ 0 ∧ sale_seller x ≠ 0 ∧ sale_isDistributed x = true.

Record sales_ok (s : state) : Prop := mkSalesOk {
  sales_dom : ∀ id, is_Some (sales s !! id) ↔ 0 < id <= saleIdCounter s;
  sales_well : ∀ id x, sales s !! id = Some x → sold_well x
}.

End DistributorViews.

(** ** GeoDataRegistry

    The registry of GPS coordinates and image metadata submitted for the
    projects. Coordinates are [int256] values, modelled as [Z]. The contract
    uses three roles of [AccessControl], whose admin is
    [DEFAULT_ADMIN_ROLE]; other role identifiers, which no function of the
    contract reads, are left out, and the revert reason of [onlyRole], which
    spells out the account and the role, is shortened. [Counters.increment]
    is unchecked. The key of [submissionsByLocation], the hash of the packed
    coordinates, is modelled by the pair of coordinates. *)

Module GeoData.

Inductive role := DEFAULT_ADMIN_ROLE | VERIFIER_ROLE | DATA_SUBMITTER_ROLE.

Record GPSCoordinates := mkGPS {
  gps_latitude : Z;       (* Latitude * 1e6 for precision *)
  gps_longitude : Z;      (* Longitude * 1e6 for precision *)
  gps_altitude : Z;
  gps_accuracy : N;
  gps_timestamp : N
}.

Record ImageMetadata := mkImage {
  img_ipfsHash : string;
  img_filename : string;
  img_fileSize : N;
  img_captureTime : N;
  img_imageType : string;
  img_width : N;
  img_height : N
}.

Record DataSubmission := mkSubmission {
  ds_id : N;
  ds_submitter : address;
  ds_projectId : string;
  ds_projectType : string;
  ds_location : GPSCoordinates;
  ds_images : list ImageMetadata;
  ds_description : string;
  ds_submissionTime : N;
  ds_isVerified : bool;
  ds_verifiedBy : address;
  ds_verificationTime : N;
  ds_verificationNotes : string;
  ds_carbonCreditsAwarded : N
}.

Record state := mkState {
  admins : gset address;
  verifiers : gset address;
  submitters : gset address;
  submissionIdCounter : N;
  submissions : gmap N DataSubmission;
  submissionsByUser : gmap address (list N);
  submissionsByProject : gmap string (list N);
  submissionsByLocation : gmap (Z * Z) N
}.

(** Panic code 0x32: array index out of bounds. *)
Definition PANIC_INDEX : N := 50.

Definition noSubmission : DataSubmission :=
  mkSubmission 0 0 EmptyString EmptyString (mkGPS 0 0 0 0 0) [] EmptyString 0
    false 0 0 EmptyString 0.

Definition submission (s : state) (submissionId : N) : DataSubmission :=
  default noSubmission (submissions s !! submissionId).

(** *** AccessControl *)

Definition members (r : role) (s : state) : gset address :=
  match r with
  | DEFAULT_ADMIN_ROLE => admins s
  | VERIFIER_ROLE => verifiers s
  | DATA_SUBMITTER_ROLE => submitters s
  end.

Definition set_members (r : role) (m : gset address) (s : state) : state :=
  match r with
  | DEFAULT_ADMIN_ROLE =>
      mkState m (verifiers s) (submitters s) (submissionIdCounter s)
        (submissions s) (submissionsByUser s) (submissionsByProject s)
        (submissionsByLocation s)
  | VERIFIER_ROLE =>
      mkState (admins s) m (submitters s) (submissionIdCounter s)
        (submissions s) (submissionsByUser s) (submissionsByProject s)
        (submissionsByLocation s)
  | DATA_SUBMITTER_ROLE =>
      mkState (admins s) (verifiers s) m (submissionIdCounter s)
        (submissions s) (submissionsByUser s) (submissionsByProject s)
        (submissionsByLocation s)
  end.

Definition hasRole (r : role) (account : address) (s : state) : bool :=
  bool_decide (account ∈ members r s).

Definition onlyRole (r : role) (sender : address) (s : state) : result unit :=
  require (hasRole r sender s) "AccessControl: account is missing role".

Definition _grantRole (r : role) (account : address) (s : state) : state :=
  set_members r (members r s ∪ {[account]}) s.

Definition _revokeRole (r : role) (account : address) (s : state) : state :=
  set_members r (members r s ∖ {[account]}) s.

Definition grantRole (sender : address) (r : role) (account : address)
    (s : state) : result state :=
  onlyRole DEFAULT_ADMIN_ROLE sender s;;
  Ok (_grantRole r account s).

Definition revokeRole (sender : address) (r : role) (account : address)
    (s : state) : result state :=
  onlyRole DEFAULT_ADMIN_ROLE sender s;;
  Ok (_revokeRole r account s).

Definition renounceRole (sender : address) (r : role) (account : address)
    (s : state) : result state :=
  require (account =? sender) "AccessControl: can only renounce roles for self";;
  Ok (_revokeRole r account s).

Definition constructor (deployer : address) : state :=
  _grantRole DATA_SUBMITTER_ROLE deployer
    (_grantRole VERIFIER_ROLE deployer
       (_grantRole DEFAULT_ADMIN_ROLE deployer
          (mkState ∅ ∅ ∅ 0 ∅ ∅ ∅ ∅))).

(** [grantSubmitterRole] *)
Definition grantSubmitterRole (sender user : address) (s : state)
  : result state :=
  onlyRole DEFAULT_ADMIN_ROLE sender s;;
  Ok (_grantRole DATA_SUBMITTER_ROLE user s).

(** [grantVerifierRole] *)
Definition grantVerifierRole (sender user : address) (s : state)
  : result state :=
  onlyRole DEFAULT_ADMIN_ROLE sender s;;
  Ok (_grantRole VERIFIER_ROLE user s).

(** *** Submission *)

(** [x >= lo && x <= hi] *)
Definition within (lo hi x : Z) : bool := ((lo <=? x) && (x <=? hi))%Z.

Definition valid_latitude (latitude : Z) : bool :=
  within (-90000000) 90000000 latitude.

Definition valid_longitude (longitude : Z) : bool :=
  within (-180000000) 180000000 longitude.

(** The loop of [submitGeoData] that pushes one [ImageMetadata] per hash. *)
Fixpoint push_images (now : N) (imageHashes : list string)
    (imageSizes : list N) (imageFilenames : list string)
    (images : list ImageMetadata) : result (list ImageMetadata) :=
  match imageHashes with
  | [] => Ok images
  | h :: imageHashes' =>
      match imageFilenames, imageSizes with
      | f :: imageFilenames', z :: imageSizes' =>
          push_images now imageHashes' imageSizes' imageFilenames'
            (images ++ [mkImage h f z now "JPEG" 0 0])
      | _, _ => Err (Panic PANIC_INDEX)
      end
  end.

Definition submitGeoData (sender : address) (now : N)
    (projectId projectType : string) (latitude longitude altitude : Z)
    (accuracy : N) (description : string) (imageHashes : list string)
    (imageSizes : list N) (imageFilenames : list string) (s : state)
  : result (state * N) :=
  onlyRole DATA_SUBMITTER_ROLE sender s;;
  require (nonempty projectId) "Project ID cannot be empty";;
  require (0 <? length imageHashes)%nat "At least one image required";;
  require (length imageHashes =? length imageSizes)%nat
    "Image arrays length mismatch";;
  require (length imageHashes =? length imageFilenames)%nat
    "Filename arrays length mismatch";;
  require (valid_latitude latitude) "Invalid latitude";;
  require (valid_longitude longitude) "Invalid longitude";;
  let submissionId := unchecked_add (submissionIdCounter s) 1 in
  let old := submission s submissionId in
  images ← push_images now imageHashes imageSizes imageFilenames
             (ds_images old);
  let new :=
    mkSubmission submissionId sender projectId projectType
      (mkGPS latitude longitude altitude accuracy now) images description now
      false (ds_verifiedBy old) (ds_verificationTime old)
      (ds_verificationNotes old) (ds_carbonCreditsAwarded old) in
  Ok (mkState (admins s) (verifiers s) (submitters s) submissionId
        (<[submissionId := new]> (submissions s))
        (<[sender := default [] (submissionsByUser s !! sender)
                     ++ [submissionId]]> (submissionsByUser s))
        (<[projectId := default [] (submissionsByProject s !! projectId)
                        ++ [submissionId]]> (submissionsByProject s))
        (<[(latitude, longitude) := submissionId]> (submissionsByLocation s)),
      submissionId).

Definition set_submission (submissionId : N) (x : DataSubmission) (s : state)
  : state :=
  mkState (admins s) (verifiers s) (submitters s) (submissionIdCounter s)
    (<[submissionId := x]> (submissions s)) (submissionsByUser s)
    (submissionsByProject s) (submissionsByLocation s).

(** *** Verification *)

Definition with_verification (verifier : address) (now : N) (notes : string)
    (credits : N) (x : DataSubmission) : DataSubmission :=
  mkSubmission (ds_id x) (ds_submitter x) (ds_projectId x) (ds_projectType x)
    (ds_location x) (ds_images x) (ds_description x) (ds_submissionTime x)
    true verifier now notes credits.

Definition verifySubmission (sender : address) (now : N) (submissionId : N)
    (approved : bool) (carbonCredits : N) (verificationNotes : string)
    (s : state) : result state :=
  onlyRole VERIFIER_ROLE sender s;;
  require (submissionId <=? submissionIdCounter s) "Invalid submission ID";;
  let x := submission s submissionId in
  require (negb (ds_isVerified x)) "Already verified";;
  Ok (set_submission submissionId
        (with_verification sender now verificationNotes
           (if approved then carbonCredits else ds_carbonCreditsAwarded x) x)
        s).

Definition with_position (latitude longitude : Z) (x : DataSubmission)
  : DataSubmission :=
  mkSubmission (ds_id x) (ds_submitter x) (ds_projectId x) (ds_projectType x)
    (mkGPS latitude longitude (gps_altitude (ds_location x))
       (gps_accuracy (ds_location x)) (gps_timestamp (ds_location x)))
    (ds_images x) (ds_description x) (ds_submissionTime x) (ds_isVerified x)
    (ds_verifiedBy x) (ds_verificationTime x) (ds_verificationNotes x)
    (ds_carbonCreditsAwarded x).

Definition updateLocation (sender : address) (submissionId : N)
    (newLatitude newLongitude : Z) (s : state) : result state :=
  onlyRole VERIFIER_ROLE sender s;;
  require (submissionId <=? submissionIdCounter s) "Invalid submission ID";;
  require (valid_latitude newLatitude) "Invalid latitude";;
  require (valid_longitude newLongitude) "Invalid longitude";;
  Ok (set_submission submissionId
        (with_position newLatitude newLongitude (submission s submissionId))
        s).

(** *** Views *)

(** [getSubmission]: id, submitter, projectId, projectType, location,
    description, submissionTime, isVerified, carbonCreditsAwarded. *)
Definition getSubmission (submissionId : N) (s : state)
  : result (N * address * string * string * GPSCoordinates * string * N
            * bool * N) :=
  require (submissionId <=? submissionIdCounter s) "Invalid submission ID";;
  let x := submission s submissionId in
  Ok (ds_id x, ds_submitter x, ds_projectId x, ds_projectType x,
      ds_location x, ds_description x, ds_submissionTime x, ds_isVerified x,
      ds_carbonCreditsAwarded x).

Definition getSubmissionImages (submissionId : N) (s : state)
  : result (list ImageMetadata) :=
  require (submissionId <=? submissionIdCounter s) "Invalid submission ID";;
  Ok (ds_images (submission s submissionId)).

Definition getSubmissionsByUser (user : address) (s : state) : list N :=
  default [] (submissionsByUser s !! user).

Definition getSubmissionsByProject (projectId : string) (s : state) : list N :=
  default [] (submissionsByProject s !! projectId).

Definition getTotalSubmissions (s : state) : N := submissionIdCounter s.

Definition in_area (minLatitude maxLatitude minLongitude maxLongitude : Z)
    (location : GPSCoordinates) : bool :=
  ((minLatitude <=? gps_latitude location)
   && (gps_latitude location <=? maxLatitude)
   && (minLongitude <=? gps_longitude location)
   && (gps_longitude location <=? maxLongitude))%Z.

(** The first loop of [getSubmissionsInArea],
    [for (i = 1; i <= current(); i++)]: [todo] counts the iterations left,
    [result] is the memory array and [count] the number of its entries in
    use. *)
Fixpoint area_loop (todo : nat) (s : state)
    (minLatitude maxLatitude minLongitude maxLongitude : Z)
    (i : N) (result : list N) (count : N) : Sol.result (list N * N) :=
  match todo with
  | O => Ok (result, count)
  | S todo' =>
      r ← (if in_area minLatitude maxLatitude minLongitude maxLongitude
                (ds_location (submission s i))
           then
             if (N.to_nat count <? length result)%nat then
               c ← checked_add count 1;
               Ok (<[N.to_nat count := i]> result, c)
             else Err (Panic PANIC_INDEX)
           else Ok (result, count));
      i' ← checked_add i 1;
      area_loop todo' s minLatitude maxLatitude minLongitude maxLongitude i'
        (fst r) (snd r)
  end.

(** The second loop, [for (j = 0; j < count; j++)], copies the entries in
    use. *)
Fixpoint copy_loop (todo : nat) (j : N) (result filteredResult : list N)
  : Sol.result (list N) :=
  match todo with
  | O => Ok filteredResult
  | S todo' =>
      match result !! N.to_nat j with
      | None => Err (Panic PANIC_INDEX)
      | Some x =>
          if (N.to_nat j <? length filteredResult)%nat then
            j' ← checked_add j 1;
            copy_loop todo' j' result (<[N.to_nat j := x]> filteredResult)
          else Err (Panic PANIC_INDEX)
      end
  end.

Definition getSubmissionsInArea
    (minLatitude maxLatitude minLongitude maxLongitude : Z) (s : state)
  : Sol.result (list N) :=
  let total := N.to_nat (submissionIdCounter s) in
  r ← area_loop total s minLatitude maxLatitude minLongitude maxLongitude 1
        (replicate total 0) 0;
  let count := N.to_nat (snd r) in
  copy_loop count 0 (fst r) (replicate count 0).

(** The loop of [getStatistics]. *)
Fixpoint statistics_loop (todo : nat) (s : state)
    (i verifiedSubmissions totalCarbonCredits : N) : Sol.result (N * N) :=
  match todo with
  | O => Ok (verifiedSubmissions, totalCarbonCredits)
  | S todo' =>
      let x := submission s i in
      r ← (if ds_isVerified x then
             v ← checked_add verifiedSubmissions 1;
             c ← checked_add totalCarbonCredits (ds_carbonCreditsAwarded x);
             Ok (v, c)
           else Ok (verifiedSubmissions, totalCarbonCredits));
      i' ← checked_add i 1;
      statistics_loop todo' s i' (fst r) (snd r)
  end.

(** [getStatistics]: totalSubmissions, verifiedSubmissions,
    totalCarbonCredits, uniqueSubmitters. *)
Definition getStatistics (s : state) : Sol.result (N * N * N * N) :=
  let totalSubmissions := submissionIdCounter s in
  r ← statistics_loop (N.to_nat totalSubmissions) s 1 0 0;
  Ok (totalSubmissions, fst r, snd r, 0).

(** *** Transactions *)

Inductive call :=
| SubmitGeoData (projectId projectType : string)
    (latitude longitude altitude : Z) (accuracy : N) (description : string)
    (imageHashes : list string) (imageSizes : list N)
    (imageFilenames : list string)
| VerifySubmission (submissionId : N) (approved : bool) (carbonCredits : N)
    (verificationNotes : string)
| UpdateLocation (submissionId : N) (newLatitude newLongitude : Z)
| GrantSubmitterRole (user : address)
| GrantVerifierRole (user : address)
| GrantRole (r : role) (account : address)
| RevokeRole (r : role) (account : address)
| RenounceRole (r : role) (account : address).

Record tx := mkTx { tx_sender : address; tx_time : N; tx_call : call }.

Definition exec (t : tx) (s : state) : result state :=
  let sender := tx_sender t in
  match tx_call t with
  | SubmitGeoData p ty lat long alt acc descr hashes sizes names =>
      r ← submitGeoData sender (tx_time t) p ty lat long alt acc descr hashes
            sizes names s;
      Ok (fst r)
  | VerifySubmission i approved credits notes =>
      verifySubmission sender (tx_time t) i approved credits notes s
  | UpdateLocation i lat long => updateLocation sender i lat long s
  | GrantSubmitterRole user => grantSubmitterRole sender user s
  | GrantVerifierRole user => grantVerifierRole sender user s
  | GrantRole r account => grantRole sender r account s
  | RevokeRole r account => revokeRole sender r account s
  | RenounceRole r account => renounceRole sender r account s
  end.

Definition step (s : state) (t : tx) : state := commit (exec t s) s.

Definition run (txs : list tx) (s : state) : state := fold_left step txs s.

Definition reachable (s : state) : Prop :=
  ∃ deployer txs, s = run txs (constructor deployer).

(** *** What the views are compared with *)

(** The ids [i, i + 1, ...], [n] of them, and the ids [1, ..., n]. *)
Fixpoint ids_from (i : N) (n : nat) : list N :=
  match n with
  | O => []
  | S n' => i :: ids_from (i + 1) n'
  end.

Definition ids_upto (n : N) : list N := ids_from 1 (N.to_nat n).

(** The ids issued so far whose position lies in a rectangle. *)
Definition ids_in_area (minLatitude maxLatitude minLongitude maxLongitude : Z)
    (s : state) : list N :=
  filter (λ i, in_area minLatitude maxLatitude minLongitude maxLongitude
                 (ds_location (submission s i)) = true)
    (ids_upto (submissionIdCounter s)).

Definition position_ok (x : DataSubmission) : Prop :=
  valid_latitude (gps_latitude (ds_location x)) = true ∧
  valid_longitude (gps_longitude (ds_location x)) = true.

Definition verified_ids (s : state) : list N :=
  filter (λ i, ds_isVerified (submission s i) = true)
    (ids_upto (submissionIdCounter s)).

Definition awarded (s : state) (l : list N) : N :=
  foldr (λ i acc, ds_carbonCreditsAwarded (submission s i) + acc) 0 l.

(** The verdict of a verification. *)
Definition same_verdict (x x' : DataSubmission) : Prop :=
  ds_isVerified x' = ds_isVerified x ∧ ds_verifiedBy x' = ds_verifiedBy x ∧
  ds_verificationTime x' = ds_verificationTime x ∧
  ds_verificationNotes x' = ds_verificationNotes x ∧
  ds_carbonCreditsAwarded x' = ds_carbonCreditsAwarded x.

(** Account 1 deploys the registry and lets account 4 submit; account 4
    submits two sites, the deployer verifies the first and moves the
    second. *)
Definition survey : list tx :=
  [ mkTx 1 10 (GrantSubmitterRole 4);
    mkTx 4 11 (SubmitGeoData "P-1" "mangrove" 19076000 72877700 500 300
                 "north plot" ["QmA"; "QmB"] [1000; 2000] ["a.jpg"; "b.jpg"]);
    mkTx 4 12 (SubmitGeoData "P-1" "mangrove" (-33868800) 151209300 0 250
                 "south plot" ["QmC"] [3000] ["c.jpg"]);
    mkTx 1 13 (VerifySubmission 1 true 40 "checked on site");
    mkTx 1 14 (UpdateLocation 2 (-33868900) 151209400) ].

End GeoData.

(** ** PaymentDistributor: ether sends that call back

    [withdraw] and [emergencyWithdraw] send ether with
    [call{value: ...}("")], which hands all gas to the recipient: the code of
    the recipient runs before the function goes on and may call the
    distributor again, itself or through other contracts. This module gives
    the external calls of the distributor with these call-backs and with the
    lock of [ReentrancyGuard]; the functions of [Ownable] are included. A
    message call carries the calls that reach the distributor while the
    recipient of its ether is in control, in their order, and whether the
    recipient ends without reverting; a call-back that reverts leaves no
    trace and the recipient goes on. The refund of [recordSaleAndDistribute]
    is sent with [transfer], whose 2300 gas pay for no call that changes the
    storage or the balance of the distributor, so it is answered by success
    or failure alone, as in [Distributor]. *)

Module Callbacks.
Import Distributor.

Inductive entry :=
| Call (c : call)
| TransferOwnership (newOwner : address)
| RenounceOwnership.

(** A message call: [inner] are the calls made to the distributor while the
    recipient of the ether it sends is in control, [accept] says whether the
    recipient returns. Both are read where the function sends ether. *)
#[warnings="-register-all"]
Inductive msg :=
| Msg (sender : address) (value : N) (e : entry) (inner : list msg)
    (accept : bool).

(** The storage together with the status of [ReentrancyGuard]: [entered] is
    [_status == _ENTERED]. *)
Record guarded := mkGuarded { store : state; entered : bool }.

Definition set_store (s : state) (g : guarded) : guarded :=
  mkGuarded s (entered g).

Definition set_owner (a : address) (s : state) : state :=
  mkState a (projectPaymentSplits s) (sales s) (pendingWithdrawals s)
    (platformTreasury s) (defaultPlatformFee s) (saleIdCounter s)
    (etherBalance s).

(** The check of [nonReentrant]. *)
Definition nonReentrant (g : guarded) : result unit :=
  require (negb (entered g)) "ReentrancyGuard: reentrant call".

(** What the recipient does while it is in control: each call-back is run by
    [f]; one that reverts is rolled back and the recipient goes on. *)
Definition react (f : msg → guarded → result guarded) (inner : list msg)
    (g : guarded) : guarded :=
  fold_left (λ g' m, commit (f m g') g') inner g.

(** [to.call{value: amount}("")]: the ether leaves the contract, the
    recipient runs and returns or reverts; [None] is [success == false], with
    everything the recipient did rolled back. *)
Definition send (recipient : guarded → guarded) (accept : bool) (amount : N)
    (g : guarded) : option guarded :=
  if amount <=? etherBalance (store g) then
    if accept then
      Some (recipient
              (set_store
                 (set_etherBalance (etherBalance (store g) - amount) (store g))
                 g))
    else None
  else None.

(** [withdraw] *)
Definition withdraw (recipient : guarded → guarded) (accept : bool)
    (sender : address) (g : guarded) : result guarded :=
  nonReentrant g;;
  let s := store g in
  let amount := rd (pendingWithdrawals s) sender in
  require (0 <? amount) "No funds to withdraw";;
  let s1 := mkState (owner s) (projectPaymentSplits s) (sales s)
              (<[sender := 0]> (pendingWithdrawals s)) (platformTreasury s)
              (defaultPlatformFee s) (saleIdCounter s) (etherBalance s) in
  match send recipient accept amount (mkGuarded s1 true) with
  | Some g' => Ok (mkGuarded (store g') false)
  | None => Err (Revert "Transfer failed")
  end.

(** [emergencyWithdraw], which is not [nonReentrant]. *)
Definition emergencyWithdraw (recipient : guarded → guarded) (accept : bool)
    (sender _recipient : address) (_amount : N) (g : guarded)
  : result guarded :=
  onlyOwner sender (store g);;
  require (negb (_recipient =? 0)) "Invalid recipient";;
  require (_amount <=? etherBalance (store g)) "Insufficient balance";;
  match send recipient accept _amount g with
  | Some g' => Ok g'
  | None => Err (Revert "Transfer failed")
  end.

(** [Ownable.transferOwnership] *)
Definition transferOwnership (sender newOwner : address) (s : state)
  : result state :=
  onlyOwner sender s;;
  require (negb (newOwner =? 0)) "Ownable: new owner is the zero address";;
  Ok (set_owner newOwner s).

(** [Ownable.renounceOwnership] *)
Definition renounceOwnership (sender : address) (s : state) : result state :=
  onlyOwner sender s;;
  Ok (set_owner 0 s).

(** A function that sends no ether with [call]. *)
Definition plain (r : result state) (g : guarded) : result guarded :=
  s ← r; Ok (set_store s g).

(** One message call at block time [now], with the call-backs it leads
    to. *)
Fixpoint call_msg (now : N) (m : msg) (g : guarded) {struct m}
  : result guarded :=
  match m with
  | Msg sender value e inner accept =>
      let s := store g in
      match e with
      | Call (ConfigurePaymentSplit p cw cp nw np vw vp pw pp) =>
          nonpayable value;;
          plain (configurePaymentSplit sender p cw cp nw np vw vp pw pp s) g
      | Call (RecordSaleAndDistribute p b a price buyer seller) =>
          nonReentrant g;;
          plain (recordSaleAndDistribute (λ _, accept) sender value now
                   p b a price buyer seller s) g
      | Call Withdraw =>
          nonpayable value;;
          withdraw (react (call_msg now) inner) accept sender g
      | Call (EmergencyWithdraw r a) =>
          nonpayable value;;
          emergencyWithdraw (react (call_msg now) inner) accept sender r a g
      | Call (UpdatePlatformTreasury a) =>
          nonpayable value;; plain (updatePlatformTreasury sender a s) g
      | Call (UpdateDefaultPlatformFee f) =>
          nonpayable value;; plain (updateDefaultPlatformFee sender f s) g
      | Call Receive => plain (receive value s) g
      | TransferOwnership o =>
          nonpayable value;; plain (transferOwnership sender o s) g
      | RenounceOwnership =>
          nonpayable value;; plain (renounceOwnership sender s) g
      end
  end.

(** A transaction: a message call from outside, when the lock is open. *)
Record tx := mkTx { tx_time : N; tx_msg : msg }.

Definition exec (t : tx) (s : state) : result state :=
  g ← call_msg (tx_time t) (tx_msg t) (mkGuarded s false); Ok (store g).

Definition step (s : state) (t : tx) : state := commit (exec t s) s.

Definition run (txs : list tx) (s : state) : state := fold_left step txs s.

(** The accounts that call [withdraw] in a message call while the lock is
    open: the sender of a [withdraw], and the senders of the [withdraw]s
    among the call-backs of an [emergencyWithdraw]. Under a [withdraw] the
    lock is closed. *)
Fixpoint withdrawers (m : msg) : list address :=
  match m with
  | Msg sender _ (Call Withdraw) _ _ => [sender]
  | Msg _ _ (Call (EmergencyWithdraw _ _)) inner _ =>
      concat (map withdrawers inner)
  | Msg _ _ _ _ _ => []
  end.

(** The property of one message call that is carried through the
    call-backs: the lock is left as it was found, and no pending balance is
    lowered, except that of an account that calls [withdraw] while the lock
    is open. *)
Definition keeps_pending (now : N) (m : msg) : Prop :=
  ∀ g g', call_msg now m g = Ok g' →
    entered g' = entered g ∧
    ∀ a, entered g = true ∨ a ∉ withdrawers m →
         rd (pendingWithdrawals (store g)) a
         <= rd (pendingWithdrawals (store g')) a.

(** The owner sends 100 wei to account 7, a contract that calls [withdraw]
    when it receives ether. *)
Definition rescue_then_withdraw : tx :=
  mkTx 50
    (Msg 1 0 (Call (EmergencyWithdraw 7 100)) [Msg 7 0 (Call Withdraw) [] true]
       true).

(** Account 7 withdraws and, on receiving the ether, sends 100 wei back to
    the contract. *)
Definition withdraw_and_return : tx :=
  mkTx 50 (Msg 7 0 (Call Withdraw) [Msg 7 100 (Call Receive) [] true] true).

End Callbacks.

(** * Properties *)

(** ** Sums over mappings *)

Section map_sum.
Context `{Countable K} {V : Type} (f : V → N).
Implicit Types m : gmap K V.

Lemma map_sum_empty : map_sum f (∅ : gmap K V) = 0.
Proof. unfold map_sum. apply map_fold_empty. Qed.

Lemma map_sum_insert_fresh m k v :
  m !! k = None → map_sum f (<[k:=v]> m) = f v + map_sum f m.
Proof.
  intros Hk. unfold map_sum.
  rewrite map_fold_insert_L; [done| |done].
  intros. lia.
Qed.

Lemma map_sum_delete m k v :
  m !! k = Some v → map_sum f m = f v + map_sum f (delete k m).
Proof.
  intros Hk. unfold map_sum.
  rewrite (map_fold_delete_L _ _ k v m); [done| |done].
  intros. lia.
Qed.

Lemma map_sum_insert m k v :
  map_sum f (<[k:=v]> m) + default 0 (f <$> m !! k) = f v + map_sum f m.
Proof.
  destruct (m !! k) as [v0|] eqn:Hk; simpl.
  - rewrite <- (insert_delete_eq m k v).
    rewrite map_sum_insert_fresh by apply lookup_delete_eq.
    rewrite (map_sum_delete m k v0 Hk). lia.
  - rewrite map_sum_insert_fresh by done. lia.
Qed.

Lemma map_sum_lookup_le m k v : m !! k = Some v → f v <= map_sum f m.
Proof. intros Hk. rewrite (map_sum_delete m k v Hk). lia. Qed.
End map_sum.

Lemma rd_le_sum `{Countable K} (m : gmap K N) k : rd m k <= map_sum id m.
Proof.
  unfold rd. destruct (m !! k) as [v|] eqn:Hk; simpl; [|lia].
  apply (map_sum_lookup_le id m k v Hk).
Qed.

Lemma map_sum_write `{Countable K} (m : gmap K N) k v :
  map_sum id (<[k:=v]> m) + rd m k = v + map_sum id m.
Proof.
  pose proof (map_sum_insert id m k v) as Hs. unfold rd.
  destruct (m !! k); simpl in *; exact Hs.
Qed.

Lemma rd_insert_eq `{Countable K} (m : gmap K N) k v : rd (<[k:=v]> m) k = v.
Proof. unfold rd. by rewrite lookup_insert_eq. Qed.

Lemma rd_insert_ne `{Countable K} (m : gmap K N) k k' v :
  k ≠ k' → rd (<[k:=v]> m) k' = rd m k'.
Proof. intros. unfold rd. by rewrite lookup_insert_ne. Qed.

(** ** Reasoning about calls that return *)

Lemma bind_Ok {A B} (r : result A) (k : A → result B) (b : B) :
  r ≫= k = Ok b ↔ ∃ a, r = Ok a ∧ k a = Ok b.
Proof.
  destruct r as [a|e]; simpl; split.
  - intros Hk. by exists a.
  - intros (a' & [= ->] & Hk). done.
  - done.
  - intros (a' & [=] & _).
Qed.

Lemma Ok_bind {A B} (a : A) (k : A → result B) : Ok a ≫= k = k a.
Proof. reflexivity. Qed.

Lemma Err_bind {A B} (e : error) (k : A → result B) : Err e ≫= k = Err e.
Proof. reflexivity. Qed.

Lemma require_Ok (b : bool) (reason : string) (u : unit) :
  require b reason = Ok u ↔ b = true.
Proof. destruct b, u; simpl; split; done. Qed.

Lemma checked_add_Ok (a b c : N) :
  checked_add a b = Ok c ↔ c = a + b ∧ a + b <= MAX_UINT256.
Proof.
  unfold checked_add. destruct (N.leb_spec (a + b) MAX_UINT256); split.
  - intros [= <-]. done.
  - intros [-> _]. done.
  - done.
  - intros [_ ?]. lia.
Qed.

Lemma checked_sub_Ok (a b c : N) :
  checked_sub a b = Ok c ↔ c = a - b ∧ b <= a.
Proof.
  unfold checked_sub. destruct (N.leb_spec b a); split.
  - intros [= <-]. done.
  - intros [-> _]. done.
  - done.
  - intros [_ ?]. lia.
Qed.

Lemma checked_mul_Ok (a b c : N) :
  checked_mul a b = Ok c ↔ c = a * b ∧ a * b <= MAX_UINT256.
Proof.
  unfold checked_mul. destruct (N.leb_spec (a * b) MAX_UINT256); split.
  - intros [= <-]. done.
  - intros [-> _]. done.
  - done.
  - intros [_ ?]. lia.
Qed.

Lemma checked_div_Ok (a b c : N) :
  checked_div a b = Ok c ↔ c = a / b ∧ b ≠ 0.
Proof.
  unfold checked_div. destruct (N.eqb_spec b 0); split.
  - done.
  - intros [_ ?]. done.
  - intros [= <-]. done.
  - intros [-> _]. done.
Qed.

Lemma unchecked_add_exact (a b : N) :
  a + b <= MAX_UINT256 → unchecked_add a b = a + b.
Proof. intros. unfold unchecked_add. apply N.mod_small. lia. Qed.

Lemma unchecked_sub_exact (a b : N) :
  b <= a → a <= MAX_UINT256 → unchecked_sub a b = a - b.
Proof.
  intros. unfold unchecked_sub.
  replace (a + (MAX_UINT256 + 1) - b) with (a - b + 1 * (MAX_UINT256 + 1)) by lia.
  rewrite N.Div0.mod_add. apply N.mod_small. lia.
Qed.

(** Turns the boolean tests of the guards into propositions. *)
Ltac bool_prop :=
  repeat match goal with
  | H : negb _ = true |- _ => apply negb_true_iff in H
  | H : negb _ = false |- _ => apply negb_false_iff in H
  | H : _ && _ = true |- _ => apply andb_true_iff in H; destruct H
  | H : (_ =? _) = true |- _ => apply N.eqb_eq in H
  | H : (_ =? _) = false |- _ => apply N.eqb_neq in H
  | H : (_ <=? _) = true |- _ => apply N.leb_le in H
  | H : (_ <=? _) = false |- _ => apply N.leb_gt in H
  | H : (_ <? _) = true |- _ => apply N.ltb_lt in H
  | H : (_ <? _) = false |- _ => apply N.ltb_ge in H
  end.

(** Splits a hypothesis [c = Ok x], with [c] a sequence of guards and
    checked operations, into what each step established. *)
Ltac ok_inv :=
  repeat match goal with
  | H : _ ≫= _ = Ok _ |- _ =>
      apply bind_Ok in H; destruct H as (? & ? & H)
  | H : bind _ _ = Ok _ |- _ =>
      apply (proj1 (bind_Ok _ _ _)) in H; destruct H as (? & ? & H)
  | H : require _ _ = Ok _ |- _ => apply require_Ok in H
  | H : checked_add _ _ = Ok _ |- _ =>
      apply checked_add_Ok in H; destruct H as [-> ?]
  | H : checked_sub _ _ = Ok _ |- _ =>
      apply checked_sub_Ok in H; destruct H as [-> ?]
  | H : checked_mul _ _ = Ok _ |- _ =>
      apply checked_mul_Ok in H; destruct H as [-> ?]
  | H : checked_div _ _ = Ok _ |- _ =>
      apply checked_div_Ok in H; destruct H as [-> ?]
  | H : Ok _ = Ok _ |- _ => injection H as H
  | H : Err _ = Ok _ |- _ => discriminate H
  end.

(** ** CarbonCreditToken: the ledger invariants *)

Section token_internals.
Import Token.

Lemma set_erc_set_erc (e1 e2 : erc20) (s : state) :
  set_erc e2 (set_erc e1 s) = set_erc e2 s.
Proof. reflexivity. Qed.

Lemma balance_le_supply (e : erc20) (a : address) :
  erc_ok e → rd (balances e) a <= totalSupply e.
Proof. intros [<- _]. apply rd_le_sum. Qed.

Lemma _mint_Ok (account : address) (amount : N) (s s' : state) :
  erc_ok (erc s) → _mint account amount s = Ok s' →
  ∃ e, s' = set_erc e s ∧ erc_ok e ∧
       totalSupply e = totalSupply (erc s) + amount ∧
       rd (balances e) account = rd (balances (erc s)) account + amount ∧
       (∀ a, a ≠ account → rd (balances e) a = rd (balances (erc s)) a) ∧
       paused s = false ∧ account ≠ 0.
Proof.
  intros Hok Hm. pose proof (balance_le_supply _ account Hok) as Hle.
  destruct Hok as [Hsum Hmax].
  unfold _mint, _beforeTokenTransfer in Hm. ok_inv. bool_prop. subst s'.
  rewrite unchecked_add_exact by lia.
  eexists. split; [reflexivity|]. simpl.
  repeat split; simpl; try done.
  - pose proof (map_sum_write (balances (erc s)) account
                  (rd (balances (erc s)) account + amount)). lia.
  - apply rd_insert_eq.
  - intros a Ha. by apply rd_insert_ne.
Qed.

Lemma _burn_Ok (account : address) (amount : N) (s s' : state) :
  erc_ok (erc s) → _burn account amount s = Ok s' →
  ∃ e, s' = set_erc e s ∧ erc_ok e ∧
       totalSupply e + amount = totalSupply (erc s) ∧
       amount <= rd (balances (erc s)) account ∧
       rd (balances e) account + amount = rd (balances (erc s)) account ∧
       paused s = false.
Proof.
  intros Hok Hb. pose proof (balance_le_supply _ account Hok) as Hle.
  destruct Hok as [Hsum Hmax].
  unfold _burn, _beforeTokenTransfer in Hb. ok_inv. bool_prop. subst s'.
  rewrite !unchecked_sub_exact by lia.
  eexists. split; [reflexivity|]. simpl.
  pose proof (map_sum_write (balances (erc s)) account
                (rd (balances (erc s)) account - amount)).
  rewrite rd_insert_eq.
  repeat split; simpl; try done; lia.
Qed.

Lemma _transfer_Ok (from to : address) (amount : N) (s s' : state) :
  erc_ok (erc s) → _transfer from to amount s = Ok s' →
  ∃ e, s' = set_erc e s ∧ erc_ok e ∧ totalSupply e = totalSupply (erc s).
Proof.
  intros Hok Ht. pose proof (balance_le_supply _ from Hok) as Hle.
  destruct Hok as [Hsum Hmax].
  unfold _transfer, _beforeTokenTransfer in Ht. ok_inv. bool_prop. subst s'.
  set (bal := balances (erc s)) in *.
  rewrite (unchecked_sub_exact (rd bal from) amount) by lia.
  set (bal1 := <[from := rd bal from - amount]> bal).
  assert (map_sum id bal1 + amount = map_sum id bal) as Hs1.
  { pose proof (map_sum_write bal from (rd bal from - amount)) as Hw.
    fold bal1 in Hw. lia. }
  pose proof (rd_le_sum bal1 to).
  rewrite unchecked_add_exact by lia.
  eexists. split; [reflexivity|]. simpl.
  repeat split; simpl; try done.
  pose proof (map_sum_write bal1 to (rd bal1 to + amount)). lia.
Qed.

Lemma _approve_Ok (o spender : address) (amount : N) (s s' : state) :
  _approve o spender amount s = Ok s' →
  ∃ e, s' = set_erc e s ∧ balances e = balances (erc s) ∧
       totalSupply e = totalSupply (erc s).
Proof.
  unfold _approve. intros Ha. ok_inv. subst s'.
  eexists. split; [reflexivity|]. done.
Qed.

Lemma _spendAllowance_Ok (o spender : address) (amount : N) (s s' : state) :
  _spendAllowance o spender amount s = Ok s' →
  ∃ e, s' = set_erc e s ∧ balances e = balances (erc s) ∧
       totalSupply e = totalSupply (erc s).
Proof.
  unfold _spendAllowance. intros Ha.
  destruct (_ =? _).
  - ok_inv. subst s'. exists (erc s). by destruct s.
  - ok_inv. by eapply _approve_Ok.
Qed.

Lemma erc_ok_same (e e' : erc20) :
  erc_ok e → balances e' = balances e → totalSupply e' = totalSupply e →
  erc_ok e'.
Proof. unfold erc_ok. intros [? ?] -> ->. done. Qed.

End token_internals.

Section token_invariant.
Import Token.

Lemma list_retired_app (l : list RetirementInfo) (r : RetirementInfo) :
  list_retired (l ++ [r]) = list_retired l + r_amount r.
Proof. induction l as [|x l IH]; simpl; [lia|]. rewrite IH. lia. Qed.

Lemma sum_retirements_Ok (l : list RetirementInfo) (t total : N) :
  sum_retirements l t = Ok total → total = t + list_retired l.
Proof.
  revert t. induction l as [|r l IH]; simpl; intros t Hs.
  - ok_inv. lia.
  - ok_inv. apply IH in Hs. lia.
Qed.

Lemma inv_constructor (deployer : address) : inv (constructor deployer).
Proof.
  split; simpl.
  - split; simpl; [apply map_sum_empty|]. unfold MAX_UINT256. lia.
  - apply map_sum_empty.
  - apply map_sum_empty.
  - lia.
  - intros id. rewrite lookup_empty. split; [intros [? [=]]|lia].
  - intros id. rewrite lookup_empty. intros [? [=]].
  - intros id b. rewrite lookup_empty. done.
Qed.

Lemma inv_set_erc (e : erc20) (s : state) :
  inv s → erc_ok e → totalSupply e <= totalSupply (erc s) → inv (set_erc e s).
Proof.
  intros [] He Hle. split; simpl; try done. lia.
Qed.

Lemma inv_set_paused (p : bool) (s : state) : inv s → inv (set_paused p s).
Proof. intros []. split; simpl; done. Qed.

Lemma inv_set_owner (a : address) (s : state) : inv s → inv (set_owner a s).
Proof. intros []. split; simpl; done. Qed.

Lemma conserved_set_erc (e : erc20) (s : state) :
  conserved s → totalSupply e = totalSupply (erc s) → conserved (set_erc e s).
Proof. unfold conserved. simpl. intros ? ->. done. Qed.
End token_invariant.

Section token_mint.
Import Token.

Lemma mintCreditBatch_Ok sender now p a v std ipfs to (s s' : state) (id : N) :
  inv s → mintCreditBatch sender now p a v std ipfs to s = Ok (s', id) →
  ∃ e, erc_ok e ∧ totalSupply e = totalSupply (erc s) + a * UNIT ∧
       rd (balances e) to = rd (balances (erc s)) to + a * UNIT ∧
       (∀ x, x ≠ to → rd (balances e) x = rd (balances (erc s)) x) ∧
       id = batchIdCounter s + 1 ∧ owner s = sender ∧ 0 < a ∧ 0 < p ∧
       s' = mkState (owner s) (paused s) e id
              (<[id := mkBatch p a v std ipfs false now to]> (creditBatches s))
              (<[to := default [] (ownerBatches s !! to) ++ [id]]> (ownerBatches s))
              (<[p := default [] (projectBatches s !! p) ++ [id]]> (projectBatches s))
              (batchRetirements s) (totalRetiredCredits s)
              (totalIssuedCredits s + a) (totalRetiredCreditsGlobal s) ∧
       totalIssuedCredits s + a <= MAX_UINT256.
Proof.
  intros Hinv Hm. unfold mintCreditBatch, onlyOwner in Hm. ok_inv.
  match goal with H : _mint _ _ _ = Ok _ |- _ =>
    apply _mint_Ok in H; [|apply Hinv];
    destruct H as (e & -> & He & Hsup & Hto & Hother & _ & _) end.
  simpl in *. subst s' id. bool_prop.
  exists e. repeat split; try done; apply He.
Qed.

Lemma mintCreditBatch_inv sender now p a v std ipfs to (s s' : state) (id : N) :
  inv s → mintCreditBatch sender now p a v std ipfs to s = Ok (s', id) → inv s'.
Proof.
  intros Hinv Hm.
  destruct (mintCreditBatch_Ok _ _ _ _ _ _ _ _ _ _ _ Hinv Hm)
    as (e & He & Hsup & _ & _ & -> & _ & Ha & _ & -> & Hmax).
  destruct Hinv as [Herc Hiss Hret Hbnd Hdom Hrdom Hb].
  assert (creditBatches s !! (batchIdCounter s + 1) = None) as Hfresh.
  { apply eq_None_not_Some. rewrite Hdom. lia. }
  assert (batchRetirements s !! (batchIdCounter s + 1) = None) as Hrfresh.
  { apply eq_None_not_Some. intros Hs. apply Hrdom in Hs. lia. }
  split; simpl.
  - done.
  - unfold sum_issued. simpl. rewrite map_sum_insert_fresh by done.
    simpl. unfold sum_issued in Hiss. lia.
  - done.
  - rewrite Hsup. lia.
  - intros id. destruct (decide (id = batchIdCounter s + 1)) as [->|Hne].
    + rewrite lookup_insert_eq. split; [lia|eauto].
    + rewrite lookup_insert_ne by done. rewrite Hdom. lia.
  - intros id Hs. apply Hrdom in Hs. lia.
  - intros id b. destruct (decide (id = batchIdCounter s + 1)) as [->|Hne].
    + rewrite lookup_insert_eq. intros [= <-].
      unfold batch_ok, retired_from_batch, retirements. simpl.
      rewrite Hrfresh. simpl. repeat split; try done; try lia.
      intros l r Hl. by destruct l.
    + rewrite lookup_insert_ne by done. intros Hl. apply Hb in Hl. exact Hl.
Qed.
End token_mint.

Section token_retire.
Import Token.

Lemma batch_lookup (s : state) (id : N) :
  inv s → 0 < id <= batchIdCounter s → creditBatches s !! id = Some (batch s id).
Proof.
  intros Hinv Hid. apply (inv_batch_dom s Hinv) in Hid as [b Hb].
  unfold batch. by rewrite Hb.
Qed.

(** What a successful [retireCredits] did. *)
Lemma retireCredits_Ok sender now id a reason (s s' : state) :
  inv s → retireCredits sender now id a reason s = Ok s' →
  let b := batch s id in
  let total := retired_from_batch s id + a in
  ∃ e, erc_ok e ∧ totalSupply e + a * UNIT = totalSupply (erc s) ∧
       rd (balances e) sender + a * UNIT = rd (balances (erc s)) sender ∧
       0 < id <= batchIdCounter s ∧ 0 < a ∧ nonempty reason = true ∧
       b_isRetired b = false ∧
       s' = mkState (owner s) (paused s) e (batchIdCounter s)
              (if b_amount b <=? total
               then <[id := mkBatch (b_projectId b) (b_amount b) (b_vintage b)
                              (b_verificationStandard b) (b_ipfsMetadata b)
                              true (b_createdAt b) (b_originalOwner b)]>
                      (creditBatches s)
               else creditBatches s)
              (ownerBatches s) (projectBatches s)
              (<[id := retirements s id ++ [mkRetirement id a reason sender now]]>
                 (batchRetirements s))
              (<[sender := rd (totalRetiredCredits s) sender + a]>
                 (totalRetiredCredits s))
              (totalIssuedCredits s) (totalRetiredCreditsGlobal s + a).
Proof.
  intros Hinv Hr b total. unfold retireCredits, validBatchId in Hr. ok_inv.
  match goal with H : _burn _ _ _ = Ok _ |- _ =>
    apply _burn_Ok in H; [|apply Hinv];
    destruct H as (e & -> & He & Hsup & _ & Hbal & _) end.
  simpl in *. change (retirements (set_erc e s) id) with (retirements s id) in *.
  unfold getTotalRetiredFromBatch, validBatchId in *. ok_inv.
  match goal with H : sum_retirements _ _ = Ok _ |- _ =>
    apply sum_retirements_Ok in H; rename H into Htot end.
  unfold retirements in Htot at 1. simpl in Htot.
  rewrite lookup_insert_eq in Htot. simpl in Htot.
  rewrite list_retired_app in Htot. simpl in Htot.
  fold (retired_from_batch s id) in Htot. rewrite N.add_0_l in Htot.
  subst. fold b in Hr. fold total in Hr. bool_prop.
  exists e. repeat split; try done; try apply He.
  destruct (b_amount b <=? total); ok_inv; subst s'; reflexivity.
Qed.


Lemma retireCredits_inv sender now id a reason (s s' : state) :
  inv s → retireCredits sender now id a reason s = Ok s' → inv s'.
Proof.
  intros Hinv Hr.
  destruct (retireCredits_Ok _ _ _ _ _ _ _ Hinv Hr)
    as (e & He & Hsup & _ & Hid & Ha & _ & Hnot & ->).
  pose proof (batch_lookup s id Hinv Hid) as Hlook.
  destruct Hinv as [Herc Hiss Hret Hbnd Hdom Hrdom Hb].
  pose proof (Hb _ _ Hlook) as (Hpos & Hiff & Hlast).
  set (b := batch s id) in *.
  set (r := mkRetirement id a reason sender now).
  assert (retired_from_batch s id < b_amount b) as Hlt.
  { destruct (N.lt_ge_cases (retired_from_batch s id) (b_amount b)) as [|Hge];
      [done|]. apply Hiff in Hge. congruence. }
  assert (∀ (m : gmap N CreditBatch),
            sum_retired
              (mkState (owner s) (paused s) e (batchIdCounter s) m
                 (ownerBatches s) (projectBatches s)
                 (<[id := retirements s id ++ [r]]> (batchRetirements s))
                 (<[sender := rd (totalRetiredCredits s) sender + a]>
                    (totalRetiredCredits s))
                 (totalIssuedCredits s) (totalRetiredCreditsGlobal s + a))
            = totalRetiredCreditsGlobal s + a) as Hsumret.
  { intros m. unfold sum_retired. simpl.
    pose proof (map_sum_insert list_retired (batchRetirements s) id
                  (retirements s id ++ [r])) as Hw.
    rewrite list_retired_app in Hw. simpl in Hw.
    assert (default 0 (list_retired <$> batchRetirements s !! id)
            = list_retired (retirements s id)) as Hd.
    { unfold retirements. by destruct (batchRetirements s !! id). }
    rewrite Hd in Hw. unfold sum_retired in Hret. lia. }
  assert (∀ (m : gmap N CreditBatch) id',
            retirements
              (mkState (owner s) (paused s) e (batchIdCounter s) m
                 (ownerBatches s) (projectBatches s)
                 (<[id := retirements s id ++ [r]]> (batchRetirements s))
                 (<[sender := rd (totalRetiredCredits s) sender + a]>
                    (totalRetiredCredits s))
                 (totalIssuedCredits s) (totalRetiredCreditsGlobal s + a)) id'
            = if decide (id = id') then retirements s id ++ [r]
              else retirements s id') as Hrets.
  { intros m id'. unfold retirements at 1. simpl.
    rewrite lookup_insert. by destruct (decide (id = id')). }
  split; simpl.
  - done.
  - destruct (b_amount b <=? _); unfold sum_issued; simpl; [|done].
    pose proof (map_sum_insert b_amount (creditBatches s) id
                  (mkBatch (b_projectId b) (b_amount b) (b_vintage b)
                     (b_verificationStandard b) (b_ipfsMetadata b) true
                     (b_createdAt b) (b_originalOwner b))) as Hw.
    rewrite Hlook in Hw. simpl in Hw. unfold sum_issued in Hiss. lia.
  - apply Hsumret.
  - lia.
  - intros id'. destruct (b_amount b <=? _); [|apply Hdom].
    destruct (decide (id' = id)) as [->|Hne].
    + rewrite lookup_insert_eq. split; [lia|eauto].
    + rewrite lookup_insert_ne by done. apply Hdom.
  - intros id'. destruct (decide (id' = id)) as [->|Hne]; [lia|].
    rewrite lookup_insert_ne by done. apply Hrdom.
  - intros id' b'. unfold batch_ok, retired_from_batch.
    rewrite Hrets.
    destruct (decide (id = id')) as [<-|Hne].
    + rewrite list_retired_app. simpl.
      fold (retired_from_batch s id).
      destruct (N.leb_spec (b_amount b) (retired_from_batch s id + a)) as [Hle|Hgt].
      * rewrite lookup_insert_eq. intros [= <-]. simpl.
        repeat split; try done.
        intros l r' Heq. apply app_inj_tail in Heq as [<- _]. exact Hlt.
      * rewrite Hlook. intros [= <-]. repeat split; try done.
        -- intros Ht. congruence.
        -- intros Hle. lia.
        -- intros l r' Heq. apply app_inj_tail in Heq as [<- _]. exact Hlt.
    + intros Hl. apply (Hb id' b').
      destruct (b_amount b <=? _); [|done].
      by rewrite lookup_insert_ne in Hl.
Qed.

Lemma updateBatchMetadata_inv sender id ipfs (s s' : state) :
  inv s → updateBatchMetadata sender id ipfs s = Ok s' → inv s'.
Proof.
  intros Hinv Hu. unfold updateBatchMetadata, onlyOwner, validBatchId in Hu.
  ok_inv. bool_prop. subst s'.
  assert (0 < id <= batchIdCounter s) as Hid by lia.
  pose proof (batch_lookup s id Hinv Hid) as Hlook.
  destruct Hinv as [Herc Hiss Hret Hbnd Hdom Hrdom Hb].
  set (b := batch s id) in *.
  split; simpl; try done.
  - unfold sum_issued. simpl.
    pose proof (map_sum_insert b_amount (creditBatches s) id
                  (mkBatch (b_projectId b) (b_amount b) (b_vintage b)
                     (b_verificationStandard b) ipfs (b_isRetired b)
                     (b_createdAt b) (b_originalOwner b))) as Hw.
    rewrite Hlook in Hw. simpl in Hw. unfold sum_issued in Hiss. lia.
  - intros id'. destruct (decide (id' = id)) as [->|Hne].
    + rewrite lookup_insert_eq. split; [lia|eauto].
    + rewrite lookup_insert_ne by done. apply Hdom.
  - intros id' b'. destruct (decide (id' = id)) as [->|Hne].
    + rewrite lookup_insert_eq. intros [= <-]. apply (Hb id b Hlook).
    + rewrite lookup_insert_ne by done. apply Hb.
Qed.

End token_retire.

Section token_runs.
Import Token.

(** The calls of ERC20, ERC20Burnable, Pausable and Ownable only replace the
    ERC20 storage, the pause flag or the owner. *)
Lemma exec_inv (t : tx) (s s' : state) : inv s → exec t s = Ok s' → inv s'.
Proof.
  intros Hinv He. pose proof (inv_erc s Hinv) as Herc.
  destruct t as [sender now c]. unfold exec in He. simpl in He.
  destruct c.
  - ok_inv. subst s'. destruct x as [s1 id]. simpl.
    by eapply mintCreditBatch_inv.
  - by eapply retireCredits_inv.
  - by eapply updateBatchMetadata_inv.
  - apply _transfer_Ok in He as (e & -> & ? & ?); [|done].
    apply inv_set_erc; [done..|lia].
  - apply _approve_Ok in He as (e & -> & ? & ?).
    apply inv_set_erc; [done|by eapply erc_ok_same|lia].
  - unfold transferFrom in He. ok_inv.
    match goal with H : _spendAllowance _ _ _ _ = Ok _ |- _ =>
      apply _spendAllowance_Ok in H as (e1 & -> & Hb1 & Hs1) end.
    apply _transfer_Ok in He as (e & -> & ? & Hs2);
      [|by eapply erc_ok_same].
    rewrite set_erc_set_erc. simpl in Hs2.
    apply inv_set_erc; [done..|lia].
  - unfold increaseAllowance in He. ok_inv.
    apply _approve_Ok in He as (e & -> & ? & ?).
    apply inv_set_erc; [done|by eapply erc_ok_same|lia].
  - unfold decreaseAllowance in He. ok_inv.
    apply _approve_Ok in He as (e & -> & ? & ?).
    apply inv_set_erc; [done|by eapply erc_ok_same|lia].
  - apply _burn_Ok in He as (e & -> & ? & ? & _); [|done].
    apply inv_set_erc; [done..|lia].
  - unfold burnFrom in He. ok_inv.
    match goal with H : _spendAllowance _ _ _ _ = Ok _ |- _ =>
      apply _spendAllowance_Ok in H as (e1 & -> & Hb1 & Hs1) end.
    apply _burn_Ok in He as (e & -> & ? & Hs2 & _);
      [|by eapply erc_ok_same].
    rewrite set_erc_set_erc. simpl in Hs2.
    apply inv_set_erc; [done..|lia].
  - unfold pause in He. ok_inv. subst s'. by apply inv_set_paused.
  - unfold unpause in He. ok_inv. subst s'. by apply inv_set_paused.
  - unfold transferOwnership in He. ok_inv. subst s'. by apply inv_set_owner.
  - unfold renounceOwnership in He. ok_inv. subst s'. by apply inv_set_owner.
Qed.

Lemma step_inv (s : state) (t : tx) : inv s → inv (step s t).
Proof.
  intros Hinv. unfold step, commit.
  destruct (exec t s) as [s'|] eqn:He; [by eapply exec_inv|done].
Qed.

Lemma run_inv (txs : list tx) (s : state) : inv s → inv (run txs s).
Proof.
  revert s. induction txs as [|t txs IH]; intros s Hinv; simpl; [done|].
  apply IH. by apply step_inv.
Qed.

Lemma reachable_inv (s : state) : reachable s → inv s.
Proof. intros (deployer & txs & ->). apply run_inv, inv_constructor. Qed.

(** Without the inherited burn functions, supply and retirements account for
    every issued credit. *)
Lemma exec_conserved (t : tx) (s s' : state) :
  inv s → conserved s → is_burn (tx_call t) = false → exec t s = Ok s' →
  conserved s'.
Proof.
  intros Hinv Hc Hnb He. pose proof (inv_erc s Hinv) as Herc.
  destruct t as [sender now c]. unfold exec in He. simpl in He, Hnb.
  destruct c; try discriminate Hnb.
  - ok_inv. subst s'. destruct x as [s1 id]. simpl.
    match goal with H : mintCreditBatch _ _ _ _ _ _ _ _ _ = Ok _ |- _ =>
      destruct (mintCreditBatch_Ok _ _ _ _ _ _ _ _ _ _ _ Hinv H)
        as (e & _ & Hsup & _ & _ & _ & _ & _ & _ & -> & _) end.
    unfold conserved in *. simpl. lia.
  - destruct (retireCredits_Ok _ _ _ _ _ _ _ Hinv He)
      as (e & _ & Hsup & _ & _ & _ & _ & _ & ->).
    unfold conserved in *. simpl. lia.
  - unfold updateBatchMetadata in He. ok_inv. by subst s'.
  - apply _transfer_Ok in He as (e & -> & ? & ?); [|done].
    by apply conserved_set_erc.
  - apply _approve_Ok in He as (e & -> & ? & ?). by apply conserved_set_erc.
  - unfold transferFrom in He. ok_inv.
    match goal with H : _spendAllowance _ _ _ _ = Ok _ |- _ =>
      apply _spendAllowance_Ok in H as (e1 & -> & Hb1 & Hs1) end.
    apply _transfer_Ok in He as (e & -> & ? & Hs2);
      [|by eapply erc_ok_same].
    rewrite set_erc_set_erc. simpl in Hs2.
    apply conserved_set_erc; [done|congruence].
  - unfold increaseAllowance in He. ok_inv.
    apply _approve_Ok in He as (e & -> & ? & ?). by apply conserved_set_erc.
  - unfold decreaseAllowance in He. ok_inv.
    apply _approve_Ok in He as (e & -> & ? & ?). by apply conserved_set_erc.
  - unfold pause in He. ok_inv. by subst s'.
  - unfold unpause in He. ok_inv. by subst s'.
  - unfold transferOwnership in He. ok_inv. by subst s'.
  - unfold renounceOwnership in He. ok_inv. by subst s'.
Qed.

Lemma run_conserved (txs : list tx) (s : state) :
  inv s → conserved s → Forall (λ t, is_burn (tx_call t) = false) txs →
  conserved (run txs s).
Proof.
  revert s. induction txs as [|t txs IH]; intros s Hinv Hc Hnb; simpl; [done|].
  apply Forall_cons in Hnb as [Ht Hnb].
  apply IH; [by apply step_inv| |done].
  unfold step, commit.
  destruct (exec t s) as [s'|] eqn:He; [by eapply exec_conserved|done].
Qed.

End token_runs.

(** ** VerificationOracle: the completion check *)

Section oracle_loops.
Import Oracle.

(** The loops read the submissions and the weights only. *)
Lemma weigh_set_verif (id : N) (pv : ProjectVerification) (s : state)
    (ids : list N) (tw vw : N) :
  weigh (set_verif id pv s) ids tw vw = weigh s ids tw vw.
Proof.
  revert tw vw. induction ids as [|i ids IH]; intros tw vw; simpl; [done|].
  change (data (set_verif id pv s) i) with (data s i).
  destruct (checked_add tw _); simpl; [|done].
  destruct (if is_verified _ then _ else _); simpl; [|done].
  apply IH.
Qed.

Lemma estimate_set_verif (id : N) (pv : ProjectVerification) (s : state)
    (ids : list N) (te tw : N) :
  estimate (set_verif id pv s) ids te tw = estimate s ids te tw.
Proof.
  revert te tw. induction ids as [|i ids IH]; intros te tw; simpl; [done|].
  change (data (set_verif id pv s) i) with (data s i).
  destruct (is_verified _); [|apply IH].
  destruct (checked_mul _ _); simpl; [|done].
  destruct (checked_add te _); simpl; [|done].
  destruct (checked_add tw _); simpl; [|done].
  apply IH.
Qed.

Lemma verified_of_cons (s : state) (i : N) (ids : list N) :
  verified_of s (i :: ids)
  = if is_verified (v_status (data s i)) then data s i :: verified_of s ids
    else verified_of s ids.
Proof.
  unfold verified_of, all_of. simpl. rewrite filter_cons.
  by destruct (is_verified _).
Qed.

(** [weigh] adds the weights of all submissions and of the verified ones. *)
Lemma weigh_Ok (s : state) (ids : list N) (tw vw tw' vw' : N) :
  weigh s ids tw vw = Ok (tw', vw') →
  tw' = tw + weight_sum s (all_of s ids) ∧
  vw' = vw + weight_sum s (verified_of s ids).
Proof.
  revert tw vw. induction ids as [|i ids IH]; intros tw vw Hw; simpl in Hw.
  - ok_inv. simplify_eq. simpl. lia.
  - ok_inv. rewrite verified_of_cons.
    destruct (is_verified (v_status (data s i))); ok_inv;
      apply IH in Hw as [-> ->]; simpl; unfold weight_of; lia.
Qed.

(** [estimate] adds the weighted estimates and the weights of the verified
    submissions. *)
Lemma estimate_Ok (s : state) (ids : list N) (te tw te' tw' : N) :
  estimate s ids te tw = Ok (te', tw') →
  te' = te + weighted_sum s (verified_of s ids) ∧
  tw' = tw + weight_sum s (verified_of s ids).
Proof.
  revert te tw. induction ids as [|i ids IH]; intros te tw He; simpl in He.
  - ok_inv. simplify_eq. simpl. lia.
  - rewrite verified_of_cons.
    destruct (is_verified (v_status (data s i))).
    + ok_inv. apply IH in He as [-> ->]. simpl. unfold weight_of. lia.
    + by apply IH in He.
Qed.

End oracle_loops.

Section oracle_check.
Import Oracle.

Lemma projectVerif_set_verif_eq (id : N) (pv : ProjectVerification) (s : state) :
  projectVerif (set_verif id pv s) id = pv.
Proof. unfold projectVerif. simpl. by rewrite lookup_insert_eq. Qed.

Lemma projectVerif_set_verif_ne (id id' : N) (pv : ProjectVerification)
    (s : state) :
  id ≠ id' → projectVerif (set_verif id pv s) id' = projectVerif s id'.
Proof. intros. unfold projectVerif. simpl. by rewrite lookup_insert_ne. Qed.

Lemma set_verif_set_verif (id : N) (pv1 pv2 : ProjectVerification) (s : state) :
  set_verif id pv2 (set_verif id pv1 s) = set_verif id pv2 s.
Proof. unfold set_verif. simpl. by rewrite insert_insert_eq. Qed.

Lemma getProject_after_update (sender : address) (pid q : N)
    (reg reg' : Registry.state) (project' : Registry.Project) :
  Registry.updateTotalCarbonCredits sender pid q reg = Ok reg' →
  Registry.getProject pid reg' = Ok project' →
  ∃ project, Registry.getProject pid reg = Ok project ∧
             Registry.p_projectOwner project' = Registry.p_projectOwner project.
Proof.
  unfold Registry.updateTotalCarbonCredits, Registry.getProject,
    Registry.projectExists.
  intros Hu Hg. ok_inv. subst reg' project'.
  exists (Registry.project reg pid). split.
  - match goal with H : _ && _ = true |- _ => simpl in H; rewrite H end. done.
  - unfold Registry.project at 1. simpl. by rewrite lookup_insert_eq.
Qed.

(** A score at the threshold needs verified weight. *)
Lemma score_positive (vw tw : N) :
  VERIFICATION_THRESHOLD <= vw * 10000 / tw → 0 < vw.
Proof.
  unfold VERIFICATION_THRESHOLD. intros Hs.
  destruct (N.eq_dec vw 0) as [->|]; [|lia].
  rewrite N.mul_0_l, N.Div0.div_0_l in Hs. lia.
Qed.

Lemma _check_Ok (now pid : N) (w w' : world) :
  _checkProjectVerificationCompletion now pid w = Ok w' →
  w' = w ∨ ∃ q id project, fired now pid w w' q id project.
Proof.
  unfold _checkProjectVerificationCompletion. intros Hc.
  destruct (hasMinimumData _ _) eqn:Hmin; simpl in Hc; [|ok_inv; by left].
  ok_inv.
  match goal with H : weigh _ _ _ _ = Ok ?r |- _ =>
    destruct r as [tw vw]; apply weigh_Ok in H as [Htw Hvw] end.
  simpl in *. rewrite !N.add_0_l in *. subst tw vw.
  destruct (_ <=? _) eqn:Hscore; simpl in Hc; [|ok_inv; by left].
  destruct (pv_isCompletelyVerified _) eqn:Hdone; simpl in Hc;
    [ok_inv; by left|].
  right. bool_prop. ok_inv.
  unfold _calculateFinalCarbonCredits in *. ok_inv.
  rewrite projectVerif_set_verif_eq in *. simpl in *.
  rewrite estimate_set_verif in *.
  match goal with H : estimate _ _ _ _ = Ok ?r |- _ =>
    destruct r as [te tw]; apply estimate_Ok in H as [Hte Htw] end.
  simpl in *. rewrite !N.add_0_l in *. subst te tw.
  pose proof (score_positive _ _ Hscore) as Hpos.
  apply N.ltb_lt in Hpos as Hposb. rewrite Hposb in *.
  unfold _issueCarbonCredits in Hc. ok_inv. simpl in *.
  rewrite set_verif_set_verif in *.
  match goal with
  | Hu : Registry.updateTotalCarbonCredits _ _ _ _ = Ok _,
    Hg : Registry.getProject _ _ = Ok _ |- _ =>
      destruct (getProject_after_update _ _ _ _ _ _ Hu Hg)
        as (project & Hproj & Howner)
  end.
  match goal with H : Token.mintCreditBatch _ _ _ _ _ _ _ _ _ = Ok ?r |- _ =>
    destruct r as [tok id]; rewrite Howner in H end.
  simpl in *. subst x w'.
  eexists _, id, project. unfold fired.
  split_and!; try done. eauto.
Qed.
End oracle_check.

Section oracle_decide.
Import Oracle.

(** What a successful [updateVerificationStatus] did: the status update,
    then either nothing more or the completion of the project. *)
Lemma updateVerificationStatus_Ok sender now vid st notes (w w' : world) :
  updateVerificationStatus sender now vid st notes w = Ok w' →
  let pid := v_projectId (data (oracle w) vid) in
  ∃ count,
    let w1 := set_oracle (status_updated now vid st notes count (oracle w)) w in
    0 < vid <= verificationIdCounter (oracle w) ∧
    (w' = w1 ∨ ∃ q id project, fired now pid w1 w' q id project).
Proof.
  intros Hu pid. unfold updateVerificationStatus, onlyAuthorizedVerifier in Hu.
  ok_inv. bool_prop.
  match goal with H : (if _ then _ else _) = Ok ?c |- _ => exists c end.
  split; [lia|]. by apply _check_Ok in Hu.
Qed.

Lemma projectVerif_status_updated now vid st notes count (s : state) (p : N) :
  let pv := projectVerif s p in
  let pv' := projectVerif (status_updated now vid st notes count s) p in
  pv_isCompletelyVerified pv' = pv_isCompletelyVerified pv ∧
  pv_finalCarbonCredits pv' = pv_finalCarbonCredits pv ∧
  pv_verificationIds pv' = pv_verificationIds pv.
Proof.
  unfold status_updated. simpl.
  destruct (decide (v_projectId (data s vid) = p)) as [<-|Hne].
  - by rewrite projectVerif_set_verif_eq.
  - by rewrite projectVerif_set_verif_ne.
Qed.

Lemma data_status_updated now vid st notes count (s : state) (i : N) :
  data (status_updated now vid st notes count s) i
  = if decide (vid = i) then with_status st notes (data s vid) else data s i.
Proof.
  unfold status_updated, data at 1. simpl. rewrite lookup_insert.
  by destruct (decide (vid = i)).
Qed.

Lemma submit_verdict sender now pid src ipfs descr est (s s' : state) (id : N)
    (p : N) :
  submitVerificationData sender now pid src ipfs descr est s = Ok (s', id) →
  pv_isCompletelyVerified (projectVerif s' p)
  = pv_isCompletelyVerified (projectVerif s p) ∧
  pv_finalCarbonCredits (projectVerif s' p)
  = pv_finalCarbonCredits (projectVerif s p).
Proof.
  unfold submitVerificationData. intros Hs. ok_inv. simplify_eq.
  unfold projectVerif at 1 3. simpl. rewrite lookup_insert.
  destruct (decide (pid = p)) as [->|Hne]; [|done]. simpl.
  match goal with H : count_source ?c _ = Ok _ |- _ =>
    destruct c; simpl in H; ok_inv; by subst end.
Qed.

(** A transaction does not touch the verdict of a completely verified
    project. *)
Lemma exec_finalized (t : tx) (w w' : world) (p : N) :
  exec t w = Ok w' → finalized w p = true →
  finalized w' p = true ∧ finalCarbonCredits w' p = finalCarbonCredits w p.
Proof.
  unfold finalized, finalCarbonCredits. intros He Hfin.
  destruct t as [sender now [c|c|c]]; unfold exec in He; simpl in He.
  - destruct c; simpl in He; unfold lift in He.
    + ok_inv. subst w'. simpl.
      match goal with H : submitVerificationData _ _ _ _ _ _ _ _ = Ok ?r |- _ =>
        destruct r as [s' id];
        destruct (submit_verdict _ _ _ _ _ _ _ _ _ _ p H) as [Hv1 Hv2] end.
      simpl. by rewrite Hv1, Hv2.
    + apply updateVerificationStatus_Ok in He as (count & _ & [->|Hf]).
      * simpl.
        destruct (projectVerif_status_updated now verificationId newStatus
                    notes count (oracle w) p) as (-> & -> & _). done.
      * destruct Hf as (q & id & project & _ & Hnot & _ & _ & _ & _
                        & reg & tok & _ & _ & ->).
        simpl in *.
        destruct (projectVerif_status_updated now verificationId newStatus
                    notes count (oracle w) p) as (Hf1 & Hf2 & _).
        destruct (decide (v_projectId (data (oracle w) verificationId) = p))
          as [Heq|Hne].
        -- rewrite Heq in Hnot. rewrite Hf1 in Hnot. congruence.
        -- rewrite projectVerif_set_verif_ne by done. by rewrite Hf1, Hf2.
    + unfold addVerifier in He. ok_inv. by subst.
    + unfold removeVerifier in He. ok_inv. by subst.
    + unfold updateMinimumDataRequirements in He. ok_inv. by subst.
    + unfold updateVerificationWeights in He. ok_inv. by subst.
    + unfold transferOwnership in He. ok_inv. by subst.
    + unfold renounceOwnership in He. ok_inv. by subst.
  - ok_inv. by subst.
  - ok_inv. by subst.
Qed.

Lemma step_finalized (t : tx) (w : world) (p : N) :
  finalized w p = true →
  finalized (step w t) p = true ∧
  finalCarbonCredits (step w t) p = finalCarbonCredits w p.
Proof.
  intros Hfin. unfold step, commit.
  destruct (exec t w) as [w'|] eqn:He; [by eapply exec_finalized|done].
Qed.

Lemma run_finalized (txs : list tx) (w : world) (p : N) :
  finalized w p = true →
  finalized (run txs w) p = true ∧
  finalCarbonCredits (run txs w) p = finalCarbonCredits w p.
Proof.
  revert w. induction txs as [|t txs IH]; intros w Hfin; simpl; [done|].
  destruct (step_finalized t w p Hfin) as [Hf Hq].
  destruct (IH _ Hf) as [Hf' Hq']. split; [done|congruence].
Qed.

Lemma states_head (txs : list tx) (w : world) :
  ∃ rest, states txs w = w :: rest.
Proof. destruct txs; simpl; eauto. Qed.

Lemma finalizations_cons (w1 w2 : world) (rest : list world) (p : N) :
  finalizations p (w1 :: w2 :: rest)
  = ((if negb (finalized w1 p) && finalized w2 p then 1 else 0)
     + finalizations p (w2 :: rest))%nat.
Proof. reflexivity. Qed.

Lemma finalizations_run (txs : list tx) (w : world) (p : N) :
  (finalizations p (states txs w) <= 1)%nat ∧
  (finalized w p = true → finalizations p (states txs w) = 0%nat).
Proof.
  revert w. induction txs as [|t txs IH]; intros w; [split; [simpl; lia|done]|].
  change (states (t :: txs) w) with (w :: states txs (step w t)).
  destruct (states_head txs (step w t)) as [rest Hrest].
  destruct (IH (step w t)) as [IH1 IH2]. rewrite Hrest in *.
  rewrite finalizations_cons.
  destruct (finalized w p) eqn:Hw; simpl negb; simpl andb.
  - destruct (step_finalized t w p Hw) as [Hf _].
    rewrite (IH2 Hf). split; [lia|done].
  - split; [|done]. destruct (finalized (step w t) p) eqn:Hs; [|lia].
    rewrite (IH2 eq_refl). lia.
Qed.

End oracle_decide.

Section oracle_world.
Import Oracle.

(** The token of the pipeline keeps the ledger invariants. *)
Lemma exec_token_inv (t : tx) (w w' : world) :
  Token.inv (token w) → exec t w = Ok w' → Token.inv (token w').
Proof.
  intros Hinv He.
  destruct t as [sender now [c|c|c]]; unfold exec in He; simpl in He.
  - destruct c; simpl in He; unfold lift in He; try (ok_inv; by subst).
    apply updateVerificationStatus_Ok in He as (count & _ & [->|Hf]); [done|].
    destruct Hf as (q & id & project & _ & _ & _ & _ & _ & _
                    & reg & tok & _ & Hm & ->).
    simpl in *. by eapply mintCreditBatch_inv.
  - ok_inv. by subst.
  - ok_inv. subst. simpl. by eapply exec_inv.
Qed.

Lemma run_token_inv (txs : list tx) (w : world) :
  Token.inv (token w) → Token.inv (token (run txs w)).
Proof.
  revert w. induction txs as [|t txs IH]; intros w Hinv; simpl; [done|].
  apply IH. unfold step, commit.
  destruct (exec t w) as [w'|] eqn:He; [by eapply exec_token_inv|done].
Qed.

Lemma reachable_token_inv (w : world) : reachable w → Token.inv (token w).
Proof.
  intros (a & r & t & o & txs & ->). apply run_token_inv, inv_constructor.
Qed.

(** A decision on a submission of a completely verified project changes
    neither the token nor the registry. *)
Lemma decide_after_finalization sender now vid st notes (w : world) :
  finalized w (v_projectId (data (oracle w) vid)) = true →
  let w' := step w (mkTx sender now
                      (ToOracle (UpdateVerificationStatus vid st notes))) in
  token w' = token w ∧ registry w' = registry w.
Proof.
  intros Hfin w'. subst w'. unfold step, commit, exec. simpl.
  destruct (updateVerificationStatus _ _ _ _ _ _) as [w'|] eqn:Hu; [|done].
  apply updateVerificationStatus_Ok in Hu as (count & _ & [->|Hf]); [done|].
  destruct Hf as (q & id & project & _ & Hnot & _).
  simpl in Hnot. unfold finalized in Hfin.
  destruct (projectVerif_status_updated now vid st notes count (oracle w)
              (v_projectId (data (oracle w) vid))) as (Hf1 & _).
  congruence.
Qed.

End oracle_world.

Section oracle_weights.
Import Oracle.

Lemma verified_weight_le (s : state) (ids : list N) :
  weight_sum s (verified_of s ids) <= weight_sum s (all_of s ids).
Proof.
  induction ids as [|i ids IH]; [done|].
  rewrite verified_of_cons. simpl.
  destruct (is_verified _); simpl; lia.
Qed.

Lemma checked_mul_0_l (b : N) : checked_mul 0 b = Ok 0.
Proof. reflexivity. Qed.

(** With the minimum data met and nothing accepted, the check leaves the
    project as it is when some submission has weight. *)
Lemma check_defers_without_accepted_weight (now pid : N) (w : world) (tw : N) :
  let s := oracle w in
  let pv := projectVerif s pid in
  hasMinimumData s pv = true →
  weigh s (pv_verificationIds pv) 0 0 = Ok (tw, 0) → tw ≠ 0 →
  _checkProjectVerificationCompletion now pid w = Ok w.
Proof.
  intros s pv Hmin Hw Htw. unfold _checkProjectVerificationCompletion.
  fold s pv. rewrite Hmin, Hw. cbn [negb]. rewrite Ok_bind. cbn [fst snd].
  rewrite checked_mul_0_l, !Ok_bind.
  unfold checked_div. destruct (N.eqb_spec tw 0) as [|_]; [done|].
  rewrite Ok_bind, N.Div0.div_0_l. reflexivity.
Qed.

(** With the minimum data met and no weight at all, the check divides by
    zero. *)
Lemma check_panics_without_weight (now pid : N) (w : world) (vw : N) :
  let s := oracle w in
  let pv := projectVerif s pid in
  hasMinimumData s pv = true →
  weigh s (pv_verificationIds pv) 0 0 = Ok (0, vw) →
  _checkProjectVerificationCompletion now pid w = Err (Panic PANIC_DIV_ZERO).
Proof.
  intros s pv Hmin Hw. unfold _checkProjectVerificationCompletion.
  fold s pv. rewrite Hmin, Hw. cbn [negb]. rewrite Ok_bind. cbn [fst snd].
  apply weigh_Ok in Hw as [Htw ->]. rewrite !N.add_0_l in *.
  pose proof (verified_weight_le s (pv_verificationIds pv)) as Hle.
  assert (weight_sum s (verified_of s (pv_verificationIds pv)) = 0) as ->
    by lia.
  reflexivity.
Qed.

End oracle_weights.

(** ** CarbonCreditToken: conservation and the retirement bound *)

Section token_claims.
Import Token.

(** C1, as stated, fails: after a mint of one credit to account 7 and a
    [burn] of that credit by account 7, one credit is issued, none is retired
    and no balance is left. *)
Lemma C1_burn_breaks_conservation :
  ¬ conservation (run Scenario.mint_then_burn (constructor 1)).
Proof. vm_compute. discriminate. Qed.

(** C1, amended: after every sequence of transactions from deployment, the
    balances plus the retired credits are at most the issued credits (in base
    units of the token), and they are equal when the sequence has no call of
    the inherited [burn] and [burnFrom]. *)
Theorem C1_conservation_up_to_burns (deployer : address) (txs : list tx) :
  let s := run txs (constructor deployer) in
  sum_balances s + UNIT * sum_retired s <= UNIT * sum_issued s ∧
  (no_burn txs → conservation s).
Proof.
  intros s.
  assert (inv s) as Hinv by apply run_inv, inv_constructor.
  pose proof (inv_erc s Hinv) as [Hsum _].
  pose proof (inv_bounded s Hinv) as Hb.
  unfold conservation, sum_balances.
  rewrite Hsum, (inv_retired s Hinv), (inv_issued s Hinv).
  split; [done|]. intros Hnb.
  apply (run_conserved txs (constructor deployer)); [apply inv_constructor| |done].
  reflexivity.
Qed.

Lemma C1_conservation_witness :
  no_burn Scenario.mint_mint_retire ∧
  conservation (run Scenario.mint_mint_retire (constructor 1)).
Proof.
  assert (no_burn Scenario.mint_mint_retire) as Hnb
    by (repeat constructor).
  split; [exact Hnb|].
  exact (proj2 (C1_conservation_up_to_burns 1 Scenario.mint_mint_retire) Hnb).
Defined.

(** C2, as stated, fails: with batches of 10 and 100 credits minted to
    account 7, a retirement of 50 credits against the first batch succeeds
    although only 10 remain in it; afterwards the records of the batch add up
    to 50, more than its 10 credits, and the batch is marked retired. *)
Lemma C2_retirement_exceeds_batch :
  let s := run Scenario.two_batches (constructor 1) in
  let s' := run Scenario.mint_mint_retire (constructor 1) in
  is_ok (exec Scenario.retire_50_of_batch_1 s) = true ∧
  b_amount (batch s 1) - retired_from_batch s 1 = 10 ∧
  retired_from_batch s' 1 = 50 ∧
  ¬ retirement_bound s' 1 ∧
  b_isRetired (batch s' 1) = true.
Proof.
  intros s s'. split_and!; try (vm_compute; reflexivity).
  intros Hle. vm_compute in Hle. by apply Hle.
Qed.

(** C2, amended: in every reachable state a batch is marked retired exactly
    when its retirement records reach or exceed its quantity, the records
    before the latest one add up to less than the quantity, and a retirement
    of quantity [q] that succeeds found the batch below its quantity, adds
    [q] to its records and is covered by the balance of the caller. The
    quantity left in the batch does not bound [q]. *)
Theorem C2_retired_iff_reached (s : state) (id : N) (b : CreditBatch) :
  reachable s → creditBatches s !! id = Some b →
  (b_isRetired b = true ↔ b_amount b <= retired_from_batch s id) ∧
  (∀ l r, retirements s id = l ++ [r] → list_retired l < b_amount b) ∧
  (∀ sender now q reason s',
     retireCredits sender now id q reason s = Ok s' →
     retired_from_batch s id < b_amount b ∧
     retired_from_batch s' id = retired_from_batch s id + q ∧
     q * UNIT <= balanceOf s sender).
Proof.
  intros Hreach Hlook. apply reachable_inv in Hreach as Hinv.
  destruct (inv_batches s Hinv id b Hlook) as (Hpos & Hiff & Hlast).
  split; [exact Hiff|]. split; [exact Hlast|].
  intros sender now q reason s' Hr.
  destruct (retireCredits_Ok _ _ _ _ _ _ _ Hinv Hr)
    as (e & _ & _ & Hbal & _ & _ & _ & Hnot & ->).
  assert (batch s id = b) as Hb by (unfold batch; by rewrite Hlook).
  rewrite Hb in Hnot.
  split.
  { destruct (N.lt_ge_cases (retired_from_batch s id) (b_amount b)) as [|Hge];
      [done|]. apply Hiff in Hge. congruence. }
  split.
  - unfold retired_from_batch at 1, retirements at 1. simpl.
    rewrite lookup_insert_eq. simpl. rewrite list_retired_app. reflexivity.
  - unfold balanceOf. lia.
Qed.

Lemma C2_retired_iff_reached_witness :
  let s := run Scenario.mint_mint_retire (constructor 1) in
  b_isRetired (batch s 1) = true ↔ b_amount (batch s 1) <= retired_from_batch s 1.
Proof.
  intros s.
  assert (reachable s) as Hreach by (by exists 1, Scenario.mint_mint_retire).
  assert (creditBatches s !! 1 = Some (batch s 1)) as Hlook
    by (vm_compute; reflexivity).
  exact (proj1 (C2_retired_iff_reached s 1 (batch s 1) Hreach Hlook)).
Defined.

End token_claims.

(** ** VerificationOracle: finalization, issued quantity, unknown claims *)

Section oracle_claims.
Import Oracle.

(** C4: along every run the flag of a project goes from false to true at
    most once; once it is true, no transaction changes it or the final
    credits of the project; and a decision on a submission of a completely
    verified project changes neither the token, so that no batch is issued,
    nor the registry. *)
Theorem C4_single_finalization (p : N) (txs : list tx) (w : world) :
  (finalizations p (states txs w) <= 1)%nat ∧
  (finalized w p = true →
   finalized (run txs w) p = true ∧
   finalCarbonCredits (run txs w) p = finalCarbonCredits w p) ∧
  (∀ sender now vid st notes,
     v_projectId (data (oracle w) vid) = p → finalized w p = true →
     let w' := step w (mkTx sender now
                         (ToOracle (UpdateVerificationStatus vid st notes))) in
     finalCarbonCredits w' p = finalCarbonCredits w p ∧
     token w' = token w ∧ registry w' = registry w).
Proof.
  split_and!.
  - apply finalizations_run.
  - apply run_finalized.
  - intros sender now vid st notes <- Hfin w'. split.
    + by apply step_finalized.
    + by apply decide_after_finalization.
Qed.

Lemma C4_single_finalization_witness :
  let w := Scenario.five_accepted in
  let w' := step w (Scenario.verify 6) in
  finalized w 1 = true ∧
  finalCarbonCredits w' 1 = finalCarbonCredits w 1 ∧
  token w' = token w ∧ registry w' = registry w.
Proof.
  intros w w'.
  assert (finalized w 1 = true) as Hfin by (vm_compute; reflexivity).
  split; [exact Hfin|].
  destruct (C4_single_finalization 1 [] w) as (_ & _ & Hdecide).
  apply (Hdecide 3 30 6 Verified "Verified"); [vm_compute; reflexivity|exact Hfin].
Defined.

(** C5: when a decision completes a project, the final credits are the
    weighted average of the estimates of its verified submissions, with floor
    division, and a batch of that quantity is minted to the owner of the
    project: the batch record carries the quantity and the owner, whose
    balance grows by the quantity (in base units of the token). *)
Theorem C5_issued_quantity_is_weighted_average sender now vid st notes
    (w w' : world) :
  let p := v_projectId (data (oracle w) vid) in
  reachable w →
  updateVerificationStatus sender now vid st notes w = Ok w' →
  finalized w p = false → finalized w' p = true →
  let q := weighted_average (oracle w') p in
  finalCarbonCredits w' p = q ∧
  0 < weight_sum (oracle w') (accepted (oracle w') p) ∧
  ∃ project,
    Registry.getProject p (registry w) = Ok project ∧
    let to := Registry.p_projectOwner project in
    let id := Token.batchIdCounter (token w) + 1 in
    Token.batchIdCounter (token w') = id ∧
    Token.batch (token w') id
    = Token.mkBatch p q now "Blue Carbon MRV Standard" EmptyString false now to ∧
    Token.balanceOf (token w') to
    = Token.balanceOf (token w) to + q * Token.UNIT ∧
    Token.totalIssuedCredits (token w')
    = Token.totalIssuedCredits (token w) + q.
Proof.
  intros p Hreach Hu Hbefore Hafter q.
  apply reachable_token_inv in Hreach as Hinv.
  apply updateVerificationStatus_Ok in Hu as (count & _ & [->|Hf]).
  { unfold finalized in *. simpl in Hafter.
    destruct (projectVerif_status_updated now vid st notes count (oracle w) p)
      as (Hf1 & _). fold p in Hf1. congruence. }
  destruct Hf as (q0 & id & project & _ & _ & _ & Hpos & Hq & Hproj
                  & reg & tok & _ & Hm & ->).
  fold p in Hpos, Hq, Hproj, Hm. simpl in Hpos, Hq, Hproj, Hm.
  set (s1 := status_updated now vid st notes count (oracle w)) in *.
  assert (q = q0) as ->.
  { subst q q0. unfold weighted_average, accepted. simpl.
    rewrite projectVerif_set_verif_eq. reflexivity. }
  split.
  { unfold finalCarbonCredits. simpl. by rewrite projectVerif_set_verif_eq. }
  split.
  { unfold accepted. simpl. rewrite projectVerif_set_verif_eq. exact Hpos. }
  exists project. split; [exact Hproj|]. simpl.
  destruct (mintCreditBatch_Ok _ _ _ _ _ _ _ _ _ _ _ Hinv Hm)
    as (e & _ & _ & Hto & _ & -> & _ & _ & _ & -> & _).
  unfold Token.batch, Token.balanceOf. simpl.
  rewrite lookup_insert_eq. done.
Qed.

Lemma C5_issued_quantity_witness :
  let w := Scenario.four_accepted in
  let w' := Scenario.five_accepted in
  finalCarbonCredits w' 1 = weighted_average (oracle w') 1 ∧
  0 < weight_sum (oracle w') (accepted (oracle w') 1).
Proof.
  intros w w'.
  assert (reachable w) as Hreach.
  { exists 9, 1, 1, 1. eexists. reflexivity. }
  assert (updateVerificationStatus 3 30 5 Verified "Verified" w = Ok w') as Hu
    by (vm_compute; reflexivity).
  assert (v_projectId (data (oracle w) 5) = 1) as Hp by (vm_compute; reflexivity).
  pose proof (C5_issued_quantity_is_weighted_average 3 30 5 Verified "Verified"
                w w' Hreach Hu) as H5.
  rewrite Hp in H5.
  destruct H5 as (Hq & Hpos & _); [vm_compute; reflexivity..|].
  exact (conj Hq Hpos).
Defined.

End oracle_claims.

Section oracle_claims_edge.
Import Oracle.

(** A case in which a decision does not return: with every weight set
    to 0 and the minimum data of project 1 submitted, the total weight is
    zero and the completion check divides by it; the transaction reverts and
    leaves the submission pending. *)
Lemma decision_panics_when_all_weights_are_zero :
  let w := Scenario.weightless in
  let w' := step w (Scenario.verify 1) in
  hasMinimumData (oracle w) (projectVerif (oracle w) 1) = true ∧
  weight_sum (oracle w) (submissions (oracle w) 1) = 0 ∧
  exec (Scenario.verify 1) w = Err (Panic PANIC_DIV_ZERO) ∧
  v_status (data (oracle w') 1) = Pending ∧
  finalized w' 1 = false.
Proof. intros w w'. split_and!; vm_compute; reflexivity. Qed.



(** C8, as stated, fails: project 42 is not in the registry, and the
    submission for it is accepted: it becomes submission 1 and is counted as
    community data of project 42. *)
Lemma C8_unregistered_project_accepted :
  let w := Scenario.deployed in
  let w' := step w Scenario.submit_unregistered in
  is_ok (Registry.getProject 42 (registry w)) = false ∧
  is_ok (exec Scenario.submit_unregistered w) = true ∧
  verificationIdCounter (oracle w') = 1 ∧
  v_projectId (data (oracle w') 1) = 42 ∧
  pv_communityDataCount (projectVerif (oracle w') 42) = 1.
Proof. intros w w'. split_and!; vm_compute; reflexivity. Qed.

(** C8, amended: [submitVerificationData] does not consult the registry. It
    reverts with "Invalid project ID" for the claim id 0; for every other
    claim id, registered or not, with a content reference and a positive
    estimate it creates the pending submission and increments the counter of
    its source (the counters not being at their maximum). *)
Theorem C8_submit_checks_nonzero_id sender now pid src ipfs descr est
    (s : state) :
  (pid = 0 →
   submitVerificationData sender now pid src ipfs descr est s
   = Err (Revert "Invalid project ID")) ∧
  (0 < pid → nonempty ipfs = true → 0 < est →
   verificationIdCounter s < MAX_UINT256 →
   source_count src (projectVerif s pid) < MAX_UINT256 →
   let id := verificationIdCounter s + 1 in
   ∃ s', submitVerificationData sender now pid src ipfs descr est s = Ok (s', id) ∧
         verificationIdCounter s' = id ∧
         data s' id = mkData pid src ipfs descr sender now Pending
                        (v_notes (data s id)) est ∧
         source_count src (projectVerif s' pid)
         = source_count src (projectVerif s pid) + 1 ∧
         pv_verificationIds (projectVerif s' pid)
         = pv_verificationIds (projectVerif s pid) ++ [id]).
Proof.
  split.
  - intros ->. reflexivity.
  - intros Hpid Hipfs Hest Hcount Hsrc id.
    unfold submitVerificationData, validProjectId.
    apply N.ltb_lt in Hpid as ->. rewrite Hipfs.
    apply N.ltb_lt in Hest as ->. cbn [require]. rewrite !Ok_bind.
    unfold checked_add at 1.
    assert ((verificationIdCounter s + 1 <=? MAX_UINT256) = true) as ->
      by (apply N.leb_le; lia). rewrite Ok_bind. fold id.
    assert (∀ c, c < MAX_UINT256 → checked_add c 1 = Ok (c + 1)) as Hadd.
    { intros c Hc. unfold checked_add.
      by assert ((c + 1 <=? MAX_UINT256) = true) as -> by (apply N.leb_le; lia). }
    destruct src; simpl in Hsrc; unfold count_source; cbn [pv_communityDataCount
      pv_satelliteDataCount pv_droneDataCount pv_thirdPartyDataCount];
      rewrite (Hadd _ Hsrc), !Ok_bind; eexists; (split; [reflexivity|]);
      (split_and!; [done|unfold data|unfold projectVerif..]);
      simpl; rewrite lookup_insert_eq; done.
Qed.

Lemma C8_submit_checks_nonzero_id_witness :
  let s := oracle Scenario.deployed in
  ∃ s', submitVerificationData 5 20 42 Community "QmEvidence" "field data" 10 s
        = Ok (s', 1) ∧
        source_count Community (projectVerif s' 42) = 1.
Proof.
  intros s.
  destruct (C8_submit_checks_nonzero_id 5 20 42 Community "QmEvidence"
              "field data" 10 s) as [_ Hok].
  destruct Hok as (s' & Hs & _ & _ & Hc & _); [by vm_compute..|].
  exists s'. split; [exact Hs|exact Hc].
Defined.

End oracle_claims_edge.

(** ** PaymentDistributor: configuration, settlement and withdrawal *)

Section distributor.
Import Distributor.

Lemma add_percentages_Ok (l : list N) (t r : N) :
  add_percentages l t = Ok r → r = t + list_sum l.
Proof.
  revert t. induction l as [|p l IH]; intros t Ha; simpl in Ha.
  - ok_inv. subst. simpl. lia.
  - ok_inv. apply IH in Ha. simpl. lia.
Qed.

(** What an accepted configuration passed and what it stores. *)
Lemma configurePaymentSplit_Ok sender pid cw cp nw np vw vp pw pp (s s' : state) :
  configurePaymentSplit sender pid cw cp nw np vw vp pw pp s = Ok s' →
  owner s = sender ∧ 0 < pid ∧
  length cw = length cp ∧ length nw = length np ∧ length vw = length vp ∧
  requested_total cp np vp pp <= 10000 ∧
  s' = mkState (owner s)
         (<[pid := mkSplit cw cp nw np vw vp
                     (if negb (pw =? 0) then pw else platformTreasury s)
                     (if 0 <? pp then pp else defaultPlatformFee s)]>
            (projectPaymentSplits s))
         (sales s) (pendingWithdrawals s) (platformTreasury s)
         (defaultPlatformFee s) (saleIdCounter s) (etherBalance s).
Proof.
  unfold configurePaymentSplit, onlyOwner, validProjectId. intros Hc. ok_inv.
  repeat match goal with H : add_percentages _ _ = Ok _ |- _ =>
    apply add_percentages_Ok in H end.
  repeat match goal with H : (_ =? _)%nat = true |- _ =>
    apply Nat.eqb_eq in H end.
  bool_prop. subst. unfold requested_total. split_and!; try done. 
Qed.

(** A configuration whose percentages add up to more than 10000 basis
    points is rejected; the storage stays as it was. *)
Lemma configurePaymentSplit_rejects sender pid cw cp nw np vw vp pw pp (s : state) :
  10000 < requested_total cp np vp pp →
  is_ok (configurePaymentSplit sender pid cw cp nw np vw vp pw pp s) = false.
Proof.
  intros Hgt.
  destruct (configurePaymentSplit _ _ _ _ _ _ _ _ _ _ _) as [s'|] eqn:Hc;
    [|done].
  apply configurePaymentSplit_Ok in Hc as (_ & _ & _ & _ & _ & Hle & _). lia.
Qed.

(** What is stored adds up to the requested percentages, plus the default
    platform fee when no platform percentage was requested. *)
Lemma configurePaymentSplit_stored sender pid cw cp nw np vw vp pw pp
    (s s' : state) :
  configurePaymentSplit sender pid cw cp nw np vw vp pw pp s = Ok s' →
  stored_total (paymentSplit s' pid)
  = requested_total cp np vp pp
    + (if 0 <? pp then 0 else defaultPlatformFee s).
Proof.
  intros Hc.
  apply configurePaymentSplit_Ok in Hc as (_ & _ & _ & _ & _ & _ & ->).
  unfold paymentSplit, stored_total, requested_total. simpl.
  rewrite lookup_insert_eq. simpl.
  destruct (N.ltb_spec 0 pp); lia.
Qed.

Lemma distribution_noSplit (total : N) (pending : gmap address N) :
  distribution total noSplit pending = Ok pending.
Proof.
  unfold distribution. cbn [distribute communityWallets ngoWallets
    verifierWallets noSplit platformPercentage platformWallet].
  rewrite !Ok_bind. unfold checked_mul. rewrite N.mul_0_r. reflexivity.
Qed.

(** The sale a successful [recordSaleAndDistribute] records and what it does
    to the balances. No guard reads the caller. *)
Lemma recordSaleAndDistribute_succeeds accepts sender value now pid bid amount
    price buyer seller (s : state) (pending : gmap address N) :
  0 < pid → 0 < amount → 0 < price → buyer ≠ 0 → seller ≠ 0 →
  price <= value → saleIdCounter s < MAX_UINT256 →
  distribution price (paymentSplit s pid) (pendingWithdrawals s) = Ok pending →
  value = price ∨ accepts sender = true →
  recordSaleAndDistribute accepts sender value now pid bid amount price
    buyer seller s
  = Ok (mkState (owner s) (projectPaymentSplits s)
          (<[saleIdCounter s + 1 :=
               mkSale pid bid amount price buyer seller now true]> (sales s))
          pending (platformTreasury s) (defaultPlatformFee s)
          (saleIdCounter s + 1) (etherBalance s + price)).
Proof.
  intros Hpid Hamount Hprice Hbuyer Hseller Hvalue Hcount Hdist Hrefund.
  unfold recordSaleAndDistribute, validProjectId.
  apply N.ltb_lt in Hpid as ->. apply N.ltb_lt in Hamount as ->.
  apply N.ltb_lt in Hprice as ->.
  apply N.eqb_neq in Hbuyer as ->. apply N.eqb_neq in Hseller as ->.
  apply N.leb_le in Hvalue as Hv. rewrite Hv.
  cbn [require negb]. rewrite !Ok_bind.
  unfold checked_add. cbn [saleIdCounter set_etherBalance].
  assert ((saleIdCounter s + 1 <=? MAX_UINT256) = true) as ->
    by (apply N.leb_le; lia).
  rewrite Ok_bind. unfold _distributePayment, paymentSplit, sale.
  cbn [projectPaymentSplits pendingWithdrawals sales set_etherBalance owner
       platformTreasury defaultPlatformFee saleIdCounter etherBalance].
  fold (paymentSplit s pid). rewrite Hdist, Ok_bind.
  rewrite lookup_insert_eq, insert_insert_eq. simpl.
  destruct (N.ltb_spec price value) as [Hlt|Hge].
  - unfold can_send. destruct Hrefund as [-> | ->]; [lia|]. simpl.
    assert ((value - price <=? etherBalance s + value) = true) as ->
      by (apply N.leb_le; lia).
    simpl. unfold set_etherBalance, with_distributed. simpl. do 2 f_equal. lia.
  - unfold with_distributed. simpl. do 2 f_equal. lia.
Qed.

(** With the exact price attached, the result is the same for every
    caller. *)
Lemma recordSaleAndDistribute_any_caller accepts sender1 sender2 now pid bid
    amount price buyer seller (s : state) :
  recordSaleAndDistribute accepts sender1 price now pid bid amount price
    buyer seller s
  = recordSaleAndDistribute accepts sender2 price now pid bid amount price
      buyer seller s.
Proof.
  unfold recordSaleAndDistribute. rewrite N.ltb_irrefl. reflexivity.
Qed.

End distributor.

Section distributor_shares.
Import Distributor.

Lemma list_sum_elem (l : list N) (p : N) : p ∈ l → p <= list_sum l.
Proof.
  induction l as [|x l IH]; intros Hin; [by apply elem_of_nil in Hin|].
  apply elem_of_cons in Hin as [->|Hin]; simpl; [lia|].
  apply IH in Hin. lia.
Qed.

(** Rounding down: the shares are at most their part of the price. *)
Lemma shares_le (price : N) (ps : list N) :
  10000 * shares price ps <= price * list_sum ps.
Proof.
  unfold shares. induction ps as [|p ps IH]; simpl; [lia|].
  pose proof (N.Div0.mul_div_le (price * p) 10000). lia.
Qed.

Lemma credit_Ok (wallet : address) (amount : N) (pending : gmap address N) :
  map_sum id pending + amount <= MAX_UINT256 →
  ∃ pending', credit wallet amount pending = Ok pending' ∧
              map_sum id pending' = map_sum id pending + amount.
Proof.
  intros Hfit. unfold credit. destruct (N.ltb_spec 0 amount) as [Hpos|Hzero].
  - pose proof (rd_le_sum pending wallet) as Hle.
    unfold checked_add.
    assert ((rd pending wallet + amount <=? MAX_UINT256) = true) as ->
      by (apply N.leb_le; lia).
    rewrite Ok_bind. eexists. split; [reflexivity|].
    pose proof (map_sum_write pending wallet (rd pending wallet + amount)). lia.
  - exists pending. split; [reflexivity|lia].
Qed.

(** A loop of [_distributePayment] credits the shares of its percentages. *)
Lemma distribute_Ok (price : N) (ws : list address) (ps : list N)
    (pending : gmap address N) :
  length ws = length ps →
  (∀ p, p ∈ ps → price * p <= MAX_UINT256) →
  map_sum id pending + shares price ps <= MAX_UINT256 →
  ∃ pending', distribute price ws ps pending = Ok pending' ∧
              map_sum id pending' = map_sum id pending + shares price ps.
Proof.
  revert ps pending. induction ws as [|w ws IH]; intros ps pending Hlen Hmul Hfit.
  - destruct ps; [|done]. exists pending. split; [reflexivity|].
    unfold shares. simpl. lia.
  - destruct ps as [|p ps]; [done|]. simpl.
    unfold shares in Hfit. simpl in Hfit. fold (shares price ps) in Hfit.
    unfold checked_mul.
    assert ((price * p <=? MAX_UINT256) = true) as ->
      by (apply N.leb_le, Hmul, elem_of_cons; by left).
    rewrite Ok_bind.
    destruct (credit_Ok w (price * p / 10000) pending) as (p1 & -> & Hs1);
      [lia|]. rewrite Ok_bind.
    destruct (IH ps p1) as (p2 & -> & Hs2).
    + simpl in Hlen. lia.
    + intros q Hq. apply Hmul, elem_of_cons. by right.
    + lia.
    + exists p2. split; [reflexivity|].
      unfold shares. simpl. fold (shares price ps). lia.
Qed.

(** With aligned arrays and numbers that fit, the distribution credits the
    shares of the configuration. *)
Lemma distribution_Ok (price : N) (split : PaymentSplit)
    (pending : gmap address N) :
  aligned split → stored_total split <= 11000 →
  11000 * price <= MAX_UINT256 →
  map_sum id pending + 2 * price <= MAX_UINT256 →
  ∃ pending', distribution price split pending = Ok pending' ∧
              map_sum id pending' = map_sum id pending + total_shares price split.
Proof.
  intros (Hc & Hn & Hv) Htotal Hprice Hfit. unfold stored_total in Htotal.
  pose proof (shares_le price (communityPercentages split)) as Hsc.
  pose proof (shares_le price (ngoPercentages split)) as Hsn.
  pose proof (shares_le price (verifierPercentages split)) as Hsv.
  pose proof (N.Div0.mul_div_le (price * platformPercentage split) 10000) as Hsp.
  assert (∀ l p, p ∈ l → list_sum l <= 11000 → price * p <= MAX_UINT256)
    as Hmul.
  { intros l p Hin Hl. apply list_sum_elem in Hin.
    apply N.le_trans with (11000 * price); [|done].
    rewrite (N.mul_comm 11000). apply N.mul_le_mono_l. lia. }
  assert (price * platformPercentage split <= MAX_UINT256) as Hplat.
  { apply N.le_trans with (11000 * price); [|done].
    rewrite (N.mul_comm 11000). apply N.mul_le_mono_l. lia. }
  assert (10000 * total_shares price split <= price * 11000) as Hshares.
  { unfold total_shares.
    apply N.le_trans with (price * stored_total split).
    - unfold stored_total. lia.
    - apply N.mul_le_mono_l. unfold stored_total. lia. }
  unfold total_shares in *. unfold distribution.
  clear Hsc Hsn Hsv Hsp.
  set (D := price * platformPercentage split / 10000) in *.
  destruct (distribute_Ok price (communityWallets split)
              (communityPercentages split) pending) as (p1 & -> & Hs1);
    [done|intros p Hp; eapply Hmul; [done|lia]|lia|]. rewrite Ok_bind.
  destruct (distribute_Ok price (ngoWallets split) (ngoPercentages split) p1)
    as (p2 & -> & Hs2);
    [done|intros p Hp; eapply Hmul; [done|lia]|lia|]. rewrite Ok_bind.
  destruct (distribute_Ok price (verifierWallets split)
              (verifierPercentages split) p2) as (p3 & -> & Hs3);
    [done|intros p Hp; eapply Hmul; [done|lia]|lia|]. rewrite Ok_bind.
  unfold checked_mul.
  assert ((price * platformPercentage split <=? MAX_UINT256) = true) as ->
    by (by apply N.leb_le).
  rewrite Ok_bind. fold D.
  destruct (credit_Ok (platformWallet split) D p3) as (p4 & -> & Hs4); [lia|].
  exists p4. split; [reflexivity|lia].
Qed.

End distributor_shares.

Section distributor_invariant.
Import Distributor.

Lemma distributor_inv_init (deployer treasury : address) : inv (init deployer treasury).
Proof.
  split; simpl; [lia|]. intros pid split. by rewrite lookup_empty.
Qed.

(** Only [configurePaymentSplit] and [updateDefaultPlatformFee] write the
    configuration. *)
Lemma distributor_inv_same_config (s s' : state) :
  inv s → projectPaymentSplits s' = projectPaymentSplits s →
  defaultPlatformFee s' = defaultPlatformFee s → inv s'.
Proof. unfold inv. intros [? ?] -> ->. done. Qed.

Lemma distributor_exec_inv accepts (t : tx) (s s' : state) :
  inv s → exec accepts t s = Ok s' → inv s'.
Proof.
  intros Hinv He. destruct t as [sender value now c].
  unfold exec in He. simpl in He. destruct c.
  - ok_inv.
    pose proof (configurePaymentSplit_stored _ _ _ _ _ _ _ _ _ _ _ _ He)
      as Hstored.
    apply configurePaymentSplit_Ok in He
      as (_ & _ & Hc & Hn & Hv & Hreq & Hs').
    destruct Hinv as [Hfee Hsplits]. subst s'.
    split; simpl; [done|].
    intros pid split. destruct (decide (pid = projectId)) as [->|Hne].
    + rewrite lookup_insert_eq. intros [= <-]. split; [done|].
      unfold paymentSplit in Hstored. simpl in Hstored.
      rewrite lookup_insert_eq in Hstored. simpl in Hstored.
      rewrite Hstored. destruct (0 <? platformPercentage0); lia.
    + rewrite lookup_insert_ne by done. apply Hsplits.
  - unfold recordSaleAndDistribute, _distributePayment in He. ok_inv.
    destruct (price <? value); ok_inv; subst; by eapply distributor_inv_same_config.
  - unfold withdraw in He. ok_inv. subst. by eapply distributor_inv_same_config.
  - unfold emergencyWithdraw in He. ok_inv. subst. by eapply distributor_inv_same_config.
  - unfold updatePlatformTreasury in He. ok_inv. subst.
    by eapply distributor_inv_same_config.
  - unfold updateDefaultPlatformFee in He. ok_inv. bool_prop. subst.
    destruct Hinv as [_ Hsplits]. split; simpl; done.
  - unfold receive in He. ok_inv. subst. by eapply distributor_inv_same_config.
Qed.

Lemma distributor_run_inv accepts (txs : list tx) (s : state) :
  inv s → inv (run accepts txs s).
Proof.
  revert s. induction txs as [|t txs IH]; intros s Hinv; simpl; [done|].
  apply IH. unfold step, commit.
  destruct (exec accepts t s) as [s'|] eqn:He; [by eapply distributor_exec_inv|done].
Qed.

Lemma distributor_reachable_inv (s : state) : reachable s → inv s.
Proof.
  intros (accepts & deployer & treasury & txs & ->).
  apply distributor_run_inv, distributor_inv_init.
Qed.

(** In a reachable state the shares of a price that fits can be credited
    for every project. *)
Lemma reachable_distribution_Ok (price pid : N) (s : state) :
  reachable s → 11000 * price <= MAX_UINT256 →
  map_sum id (pendingWithdrawals s) + 2 * price <= MAX_UINT256 →
  ∃ pending,
    distribution price (paymentSplit s pid) (pendingWithdrawals s) = Ok pending ∧
    map_sum id pending
    = map_sum id (pendingWithdrawals s) + total_shares price (paymentSplit s pid).
Proof.
  intros Hreach Hprice Hfit. apply distributor_reachable_inv in Hreach as [_ Hsplits].
  apply distribution_Ok; try done.
  - unfold paymentSplit. destruct (projectPaymentSplits s !! pid) eqn:Hl;
      [by apply (Hsplits pid)|done].
  - unfold paymentSplit. destruct (projectPaymentSplits s !! pid) eqn:Hl;
      [by apply (Hsplits pid)|]. by vm_compute.
Qed.

End distributor_invariant.

Section distributor_claims.
Import Distributor.

(** C3: the bound fails for a stored configuration. The owner configures
    project 1 with 10000 basis points for account 7 and no platform
    percentage; the request adds up to 10000 and is accepted, and the
    configuration stored has the default platform fee of 250 basis points in
    place of the zero: its percentages add up to 10250. *)
Theorem C3_stored_split_exceeds_bound :
  let s := Scenario.distributor in
  let s' := step Scenario.everyone s Scenario.configure_full_split in
  requested_total [10000] [] [] 0 = 10000 ∧
  is_ok (exec Scenario.everyone Scenario.configure_full_split s) = true ∧
  paymentSplit s' 1 = mkSplit [7] [10000] [] [] [] [] 6 250 ∧
  stored_total (paymentSplit s' 1) = 10250.
Proof. intros s s'. split_and!; vm_compute; reflexivity. Qed.

(** C6, as stated, fails: project 1 has no split, the price of 100 wei is
    positive and paid in full, and the call reverts because the quantity
    sold is 0. *)
Lemma C6_zero_quantity_reverts :
  let s := Scenario.distributor in
  projectPaymentSplits s !! 1 = None ∧
  recordSaleAndDistribute Scenario.everyone 8 100 50 1 1 0 100 8 7 s
  = Err (Revert "Amount must be greater than 0").
Proof. intros s. split; vm_compute; reflexivity. Qed.

(** C6, amended: for a project without a configured split, a call with a
    positive project id, quantity and price, a buyer and a seller other than
    the zero address and a payment that covers the price records the sale,
    marks it distributed and leaves every pending withdrawal as it was; the
    price stays in the contract. The sale counter is below its maximum and
    the caller accepts the refund of an excess payment. *)
Theorem C6_unconfigured_sale_pays_no_one accepts sender value now pid bid
    amount price buyer seller (s : state) :
  projectPaymentSplits s !! pid = None →
  0 < pid → 0 < amount → 0 < price → buyer ≠ 0 → seller ≠ 0 →
  price <= value → saleIdCounter s < MAX_UINT256 →
  value = price ∨ accepts sender = true →
  let id := saleIdCounter s + 1 in
  ∃ s', recordSaleAndDistribute accepts sender value now pid bid amount price
          buyer seller s = Ok s' ∧
        saleIdCounter s' = id ∧
        sale s' id = mkSale pid bid amount price buyer seller now true ∧
        pendingWithdrawals s' = pendingWithdrawals s ∧
        etherBalance s' = etherBalance s + price.
Proof.
  intros Hnone Hpid Hamount Hprice Hbuyer Hseller Hvalue Hcount Hrefund id.
  assert (distribution price (paymentSplit s pid) (pendingWithdrawals s)
          = Ok (pendingWithdrawals s)) as Hdist.
  { unfold paymentSplit. rewrite Hnone. apply distribution_noSplit. }
  eexists. split.
  - by apply recordSaleAndDistribute_succeeds.
  - unfold sale. simpl. rewrite lookup_insert_eq. done.
Qed.

Lemma C6_unconfigured_sale_witness :
  let s := Scenario.distributor in
  ∃ s', recordSaleAndDistribute Scenario.everyone 8 100 50 1 1 50 100 8 7 s
        = Ok s' ∧
        sale_isDistributed (sale s' 1) = true ∧
        pendingWithdrawals s' = pendingWithdrawals s.
Proof.
  intros s.
  destruct (C6_unconfigured_sale_pays_no_one Scenario.everyone 8 100 50 1 1 50
              100 8 7 s) as (s' & Hs & _ & Hsale & Hpending & _);
    [by vm_compute..|by left|].
  exists s'. split; [exact Hs|]. split; [|exact Hpending].
  change 1 with (saleIdCounter s + 1). by rewrite Hsale.
Defined.




(** C10, as stated, fails: account 20, a contract that takes no ether, calls
    with every argument valid and 1001 wei for a price of 1000 wei; the
    refund of the excess wei fails and the call reverts. *)
Lemma C10_refused_refund_reverts :
  is_ok (recordSaleAndDistribute (Scenario.refuses 20) 20 1001 50 1 1 50 1000
           8 7 Scenario.distributor) = false.
Proof. vm_compute. reflexivity. Qed.

(** C10, amended: no guard of [recordSaleAndDistribute] reads the caller.
    In every reachable state and for every caller, a call with a positive
    project id, quantity and price, a buyer and a seller other than the zero
    address and a payment that covers the price records the sale as
    distributed and credits the shares of the price as pending withdrawals,
    whatever the project and whether or not credits were transferred. The
    caller accepts the refund of an excess payment, and the numbers fit a
    word: the sale counter is below its maximum, 11000 times the price and
    the sum of the pending withdrawals plus twice the price are at most the
    maximum. *)
Theorem C10_settlement_open_to_any_caller accepts sender value now pid bid
    amount price buyer seller (s : state) :
  reachable s →
  0 < pid → 0 < amount → 0 < price → buyer ≠ 0 → seller ≠ 0 →
  price <= value →
  saleIdCounter s < MAX_UINT256 → 11000 * price <= MAX_UINT256 →
  map_sum id (pendingWithdrawals s) + 2 * price <= MAX_UINT256 →
  value = price ∨ accepts sender = true →
  let saleId := saleIdCounter s + 1 in
  ∃ s', recordSaleAndDistribute accepts sender value now pid bid amount price
          buyer seller s = Ok s' ∧
        sale s' saleId = mkSale pid bid amount price buyer seller now true ∧
        distribution price (paymentSplit s pid) (pendingWithdrawals s)
        = Ok (pendingWithdrawals s') ∧
        map_sum id (pendingWithdrawals s')
        = map_sum id (pendingWithdrawals s)
          + total_shares price (paymentSplit s pid).
Proof.
  intros Hreach Hpid Hamount Hprice Hbuyer Hseller Hvalue Hcount Hfit1 Hfit2
    Hrefund saleId.
  destruct (reachable_distribution_Ok price pid s Hreach Hfit1 Hfit2)
    as (pending & Hdist & Hsum).
  eexists. split.
  - by apply recordSaleAndDistribute_succeeds.
  - unfold sale. simpl. rewrite lookup_insert_eq. done.
Qed.

Lemma C10_settlement_witness :
  let s := Scenario.configured in
  owner s ≠ 8 ∧
  ∃ s', recordSaleAndDistribute Scenario.everyone 8 1000 41 1 1 50 1000 8 7 s
        = Ok s' ∧
        getPendingWithdrawal s' 7 = 300.
Proof.
  intros s. split; [by vm_compute|].
  assert (reachable s) as Hreach.
  { exists Scenario.everyone, 1, 6, [Scenario.configure_split]. reflexivity. }
  destruct (C10_settlement_open_to_any_caller Scenario.everyone 8 1000 41 1 1
              50 1000 8 7 s Hreach)
    as (s' & Hs & _ & Hd & _); [by vm_compute..|by left|].
  exists s'. split; [exact Hs|].
  assert (distribution 1000 (paymentSplit s 1) (pendingWithdrawals s)
          = Ok (pendingWithdrawals Scenario.sold)) as Hsold
    by (vm_compute; reflexivity).
  rewrite Hsold in Hd. injection Hd as Hd.
  unfold getPendingWithdrawal. rewrite <- Hd. by vm_compute.
Defined.

End distributor_claims.

(** * Further properties *)

(** ** CarbonCreditToken: records, indexes and views *)

Section token_frame.
Import Token TokenViews.

Lemma same_ledger_refl (s : state) : same_ledger s s.
Proof. by repeat split. Qed.

Lemma same_ledger_set_erc (e : erc20) (s : state) : same_ledger s (set_erc e s).
Proof. by repeat split. Qed.

(** The calls of ERC20, ERC20Burnable, Pausable and Ownable leave the batch
    records alone. *)
Lemma exec_same_ledger (t : tx) (s s' : state) :
  writes_ledger (tx_call t) = false → exec t s = Ok s' → same_ledger s s'.
Proof.
  intros Hw He. destruct t as [sender now c]. unfold exec in He.
  simpl in He, Hw. destruct c; try discriminate Hw.
  - unfold transfer, _transfer in He. ok_inv. subst. apply same_ledger_set_erc.
  - unfold approve, _approve in He. ok_inv. subst. apply same_ledger_set_erc.
  - unfold transferFrom in He. ok_inv.
    match goal with H : _spendAllowance _ _ _ _ = Ok _ |- _ =>
      apply _spendAllowance_Ok in H as (e1 & -> & _) end.
    unfold _transfer in He. ok_inv. subst. by repeat split.
  - unfold increaseAllowance, _approve in He. ok_inv. subst.
    apply same_ledger_set_erc.
  - unfold decreaseAllowance, _approve in He. ok_inv. subst.
    apply same_ledger_set_erc.
  - unfold burn, _burn in He. ok_inv. subst. apply same_ledger_set_erc.
  - unfold burnFrom in He. ok_inv.
    match goal with H : _spendAllowance _ _ _ _ = Ok _ |- _ =>
      apply _spendAllowance_Ok in H as (e1 & -> & _) end.
    unfold _burn in He. ok_inv. subst. by repeat split.
  - unfold pause in He. ok_inv. subst. by repeat split.
  - unfold unpause in He. ok_inv. subst. by repeat split.
  - unfold transferOwnership in He. ok_inv. subst. by repeat split.
  - unfold renounceOwnership in He. ok_inv. subst. by repeat split.
Qed.

Lemma retireCredits_sender sender now id a reason (s s' : state) :
  retireCredits sender now id a reason s = Ok s' → sender ≠ 0.
Proof.
  unfold retireCredits, _burn. intros Hr. ok_inv. by bool_prop.
Qed.

Lemma updateBatchMetadata_Ok sender id ipfs (s s' : state) :
  updateBatchMetadata sender id ipfs s = Ok s' →
  owner s = sender ∧ 0 < id <= batchIdCounter s ∧ nonempty ipfs = true ∧
  s' = set_creditBatches
         (<[id := mkBatch (b_projectId (batch s id)) (b_amount (batch s id))
                    (b_vintage (batch s id))
                    (b_verificationStandard (batch s id)) ipfs
                    (b_isRetired (batch s id)) (b_createdAt (batch s id))
                    (b_originalOwner (batch s id))]> (creditBatches s)) s.
Proof.
  unfold updateBatchMetadata, onlyOwner, validBatchId. intros Hu. ok_inv.
  bool_prop. split_and!; try done; lia.
Qed.

End token_frame.

(** *** Index lists kept beside a mapping of records *)

Lemma index_updated {A B : Type} (m : gmap N A) (id : N) (b b' : A)
    (f : A → B) (i : N) (x : B) :
  m !! id = Some b → f b' = f b →
  (∃ c, <[id := b']> m !! i = Some c ∧ f c = x) ↔
  (∃ c, m !! i = Some c ∧ f c = x).
Proof.
  intros Hl Hf. destruct (decide (i = id)) as [->|Hne].
  - rewrite lookup_insert_eq, Hl. split; intros (c & [= <-] & <-); eauto.
  - by rewrite lookup_insert_ne.
Qed.

Lemma index_extended {A B : Type} `{EqDecision B} (m : gmap N A) (id : N)
    (b : A) (f : A → B) (l : list N) (i : N) (x : B) :
  m !! id = None →
  (i ∈ l ↔ ∃ c, m !! i = Some c ∧ f c = x) →
  (i ∈ (if decide (f b = x) then l ++ [id] else l) ↔
   ∃ c, <[id := b]> m !! i = Some c ∧ f c = x).
Proof.
  intros Hfresh Hl. destruct (decide (i = id)) as [->|Hne].
  - rewrite lookup_insert_eq. case_decide as Hx.
    + split; [eauto|]. intros _. apply elem_of_app. right. by apply list_elem_of_singleton.
    + split.
      * intros Hin. apply Hl in Hin as (c & Hc & _). congruence.
      * intros (c & [= <-] & ?). done.
  - rewrite lookup_insert_ne by done. rewrite <- Hl. case_decide; [|done].
    rewrite elem_of_app, list_elem_of_singleton.
    split; [intros [?|?]; [done|congruence]|by left].
Qed.

Section token_records.
Import Token TokenViews.

Lemma mintCreditBatch_guards sender now p a v std ipfs to (s : state)
    (r : state * N) :
  mintCreditBatch sender now p a v std ipfs to s = Ok r →
  0 < p ∧ 0 < a ∧ 0 < v ∧ to ≠ 0 ∧ nonempty std = true.
Proof.
  unfold mintCreditBatch. intros Hm. ok_inv. by bool_prop.
Qed.

Lemma records_ok_constructor (deployer : address) :
  records_ok (constructor deployer).
Proof.
  split; simpl; try (intros; by rewrite lookup_empty in * ).
  - apply map_sum_empty.
  - intros o id. unfold getOwnerBatches. simpl. rewrite lookup_empty. simpl.
    split; [by intros ?%elem_of_nil|]. intros (b & Hb & _).
    by rewrite lookup_empty in Hb.
  - intros o. unfold getOwnerBatches. simpl. rewrite lookup_empty. constructor.
  - intros p id. unfold getProjectBatches. simpl. rewrite lookup_empty. simpl.
    split; [by intros ?%elem_of_nil|]. intros (b & Hb & _).
    by rewrite lookup_empty in Hb.
  - intros p. unfold getProjectBatches. simpl. rewrite lookup_empty. constructor.
Qed.

Lemma records_ok_same_ledger (s s' : state) :
  records_ok s → same_ledger s s' → records_ok s'.
Proof.
  intros [] (Hc & Hb & Ho & Hp & Hr & Ht & Hi & Hg).
  split; unfold getOwnerBatches, getProjectBatches in *;
    rewrite ?Hb, ?Ho, ?Hp, ?Hr, ?Ht, ?Hi, ?Hg; done.
Qed.

Lemma records_ok_mint sender now p a v std ipfs to (s s' : state) (id : N) :
  inv s → records_ok s →
  mintCreditBatch sender now p a v std ipfs to s = Ok (s', id) → records_ok s'.
Proof.
  intros Hinv Hrec Hm.
  pose proof (mintCreditBatch_guards _ _ _ _ _ _ _ _ _ _ Hm)
    as (Hp & Ha & Hv & Hto & Hstd).
  destruct (mintCreditBatch_Ok _ _ _ _ _ _ _ _ _ _ _ Hinv Hm)
    as (e & _ & _ & _ & _ & -> & _ & _ & _ & -> & _).
  destruct Hrec as [Hb Hr Hacc Hoi Hon Hpi Hpn].
  set (nid := batchIdCounter s + 1) in *.
  set (nb := mkBatch p a v std ipfs false now to) in *.
  assert (creditBatches s !! nid = None) as Hfresh.
  { apply eq_None_not_Some. rewrite (inv_batch_dom s Hinv). unfold nid. lia. }
  split; simpl.
  - intros i b. destruct (decide (i = nid)) as [->|Hne].
    + rewrite lookup_insert_eq. intros [= <-]. by repeat split.
    + rewrite lookup_insert_ne by done. apply Hb.
  - exact Hr.
  - exact Hacc.
  - intros o i. unfold getOwnerBatches in *. simpl.
    pose proof (index_extended (creditBatches s) nid nb b_originalOwner
                  (default [] (ownerBatches s !! o)) i o Hfresh (Hoi o i))
      as Hext. unfold nb in Hext. simpl in Hext. revert Hext.
    case_decide as Hd; [subst o; rewrite (lookup_insert_eq (ownerBatches s))
                       |rewrite (lookup_insert_ne (ownerBatches s)) by done];
      done.
  - intros o. unfold getOwnerBatches in *. simpl.
    destruct (decide (to = o)) as [->|Hne];
      [rewrite lookup_insert_eq|by rewrite lookup_insert_ne]. simpl.
    apply NoDup_app. split_and!; [apply Hon| |apply NoDup_singleton].
    intros i Hi ->%list_elem_of_singleton.
    apply Hoi in Hi as (b & Hl & _). congruence.
  - intros q i. unfold getProjectBatches in *. simpl.
    pose proof (index_extended (creditBatches s) nid nb b_projectId
                  (default [] (projectBatches s !! q)) i q Hfresh (Hpi q i))
      as Hext. unfold nb in Hext. simpl in Hext. revert Hext.
    case_decide as Hd; [subst q; rewrite (lookup_insert_eq (projectBatches s))
                       |rewrite (lookup_insert_ne (projectBatches s)) by done];
      done.
  - intros q. unfold getProjectBatches in *. simpl.
    destruct (decide (p = q)) as [->|Hne];
      [rewrite lookup_insert_eq|by rewrite lookup_insert_ne]. simpl.
    apply NoDup_app. split_and!; [apply Hpn| |apply NoDup_singleton].
    intros i Hi ->%list_elem_of_singleton.
    apply Hpi in Hi as (b & Hl & _). congruence.
Qed.

(** Rewriting a batch without touching its origin keeps the records. *)
Lemma records_ok_rewrite (s : state) (id : N) (b b' : CreditBatch) :
  records_ok s → creditBatches s !! id = Some b → same_origin b b' →
  records_ok (set_creditBatches (<[id := b']> (creditBatches s)) s).
Proof.
  intros [Hb Hr Hacc Hoi Hon Hpi Hpn] Hl Hsame.
  destruct Hsame as (Hs1 & Hs2 & Hs3 & Hs4 & Hs5 & Hs6).
  split; simpl; try done.
  - intros i c. destruct (decide (i = id)) as [->|Hne].
    + rewrite lookup_insert_eq. intros [= <-].
      destruct (Hb _ _ Hl) as (? & ? & ? & ? & ?).
      unfold minted_well. by rewrite Hs1, Hs2, Hs3, Hs4, Hs6.
    + rewrite lookup_insert_ne by done. apply Hb.
  - intros o i. unfold getOwnerBatches. simpl.
    rewrite (index_updated _ id _ b' b_originalOwner i o Hl Hs6). apply Hoi.
  - intros q i. unfold getProjectBatches. simpl.
    rewrite (index_updated _ id _ b' b_projectId i q Hl Hs1). apply Hpi.
Qed.

Lemma records_ok_retire sender now id a reason (s s' : state) :
  inv s → records_ok s →
  retireCredits sender now id a reason s = Ok s' → records_ok s'.
Proof.
  intros Hinv Hrec Hr.
  pose proof (retireCredits_sender _ _ _ _ _ _ _ Hr) as Hsender.
  destruct (retireCredits_Ok _ _ _ _ _ _ _ Hinv Hr)
    as (e & _ & _ & _ & Hid & Ha & Hreason & _ & ->).
  set (b := batch s id) in *.
  set (r := mkRetirement id a reason sender now).
  assert (records_ok
            (mkState (owner s) (paused s) e (batchIdCounter s)
               (creditBatches s) (ownerBatches s) (projectBatches s)
               (<[id := retirements s id ++ [r]]> (batchRetirements s))
               (<[sender := rd (totalRetiredCredits s) sender + a]>
                  (totalRetiredCredits s))
               (totalIssuedCredits s) (totalRetiredCreditsGlobal s + a)))
    as Hmid.
  { destruct Hrec as [Hb Hrr Hacc Hoi Hon Hpi Hpn]. split; simpl; try done.
    - intros i l x. destruct (decide (i = id)) as [->|Hne].
      + rewrite lookup_insert_eq. intros [= <-].
        rewrite elem_of_app, list_elem_of_singleton. intros [Hin| ->].
        * unfold retirements in Hin.
          destruct (batchRetirements s !! id) as [l0|] eqn:Hl0; simpl in Hin;
            [by eapply Hrr|by apply elem_of_nil in Hin].
        * by repeat split.
      + rewrite lookup_insert_ne by done. apply Hrr.
    - pose proof (map_sum_write (totalRetiredCredits s) sender
                    (rd (totalRetiredCredits s) sender + a)). lia. }
  destruct (b_amount b <=? _); [|exact Hmid].
  apply (records_ok_rewrite _ id b _ Hmid); [|by repeat split].
  apply (batch_lookup s id Hinv Hid).
Qed.

Lemma records_ok_update sender id ipfs (s s' : state) :
  inv s → records_ok s →
  updateBatchMetadata sender id ipfs s = Ok s' → records_ok s'.
Proof.
  intros Hinv Hrec Hu.
  apply updateBatchMetadata_Ok in Hu as (_ & Hid & _ & ->).
  apply (records_ok_rewrite s id (batch s id) _ Hrec); [|by repeat split].
  apply (batch_lookup s id Hinv Hid).
Qed.

Lemma records_ok_exec (t : tx) (s s' : state) :
  inv s → records_ok s → exec t s = Ok s' → records_ok s'.
Proof.
  intros Hinv Hrec He.
  destruct (writes_ledger (tx_call t)) eqn:Hw;
    [|by eapply records_ok_same_ledger, exec_same_ledger].
  destruct t as [sender now c]. unfold exec in He. simpl in He, Hw.
  destruct c; try discriminate Hw.
  - ok_inv. subst s'.
    match goal with H : mintCreditBatch _ _ _ _ _ _ _ _ _ = Ok ?r |- _ =>
      destruct r as [s1 id]; simpl; by eapply records_ok_mint end.
  - by eapply records_ok_retire.
  - by eapply records_ok_update.
Qed.

Lemma records_ok_run (txs : list tx) (s : state) :
  inv s → records_ok s → records_ok (run txs s).
Proof.
  revert s. induction txs as [|t txs IH]; intros s Hinv Hrec; simpl; [done|].
  apply IH; [by apply step_inv|]. unfold step, commit.
  destruct (exec t s) as [s'|] eqn:He; [by eapply records_ok_exec|done].
Qed.

Lemma records_ok_reachable (s : state) : reachable s → records_ok s.
Proof.
  intros (deployer & txs & ->).
  apply records_ok_run; [apply inv_constructor|apply records_ok_constructor].
Qed.

End token_records.

Section token_history.
Import Token TokenViews.

Lemma same_origin_refl (b : CreditBatch) : same_origin b b.
Proof. by repeat split. Qed.

Lemma same_origin_trans (b1 b2 b3 : CreditBatch) :
  same_origin b1 b2 → same_origin b2 b3 → same_origin b1 b3.
Proof.
  intros (? & ? & ? & ? & ? & ?) (? & ? & ? & ? & ? & ?).
  repeat split; congruence.
Qed.

Lemma batch_kept_refl (s : state) (id : N) : batch_kept s s id.
Proof. split_and!; [apply same_origin_refl|done|done]. Qed.

Lemma batch_kept_trans (s1 s2 s3 : state) (id : N) :
  batch_kept s1 s2 id → batch_kept s2 s3 id → batch_kept s1 s3 id.
Proof.
  intros (Ho & Hr & Hp) (Ho' & Hr' & Hp'). split_and!.
  - by eapply same_origin_trans.
  - auto.
  - by etrans.
Qed.

Lemma batch_kept_same_ledger (s s' : state) (id : N) :
  same_ledger s s' → batch_kept s s' id.
Proof.
  intros (_ & Hb & _ & _ & Hr & _). unfold batch_kept, batch, retirements.
  rewrite Hb, Hr. split_and!; [apply same_origin_refl|done|done].
Qed.

(** One transaction keeps every batch that exists and never lowers the
    batch counter. *)
Lemma exec_batch_kept (t : tx) (s s' : state) (id : N) :
  inv s → 0 < id <= batchIdCounter s → exec t s = Ok s' →
  batch_kept s s' id ∧ batchIdCounter s <= batchIdCounter s'.
Proof.
  intros Hinv Hid He.
  destruct (writes_ledger (tx_call t)) eqn:Hw.
  2:{ pose proof (exec_same_ledger t s s' Hw He) as Hs. split.
      - by apply batch_kept_same_ledger.
      - destruct Hs as (-> & _). lia. }
  destruct t as [sender now c]. unfold exec in He. simpl in He, Hw.
  destruct c; try discriminate Hw.
  - ok_inv. subst s'.
    match goal with H : mintCreditBatch _ _ _ _ _ _ _ _ _ = Ok ?r |- _ =>
      destruct r as [s1 nid]; simpl;
      destruct (mintCreditBatch_Ok _ _ _ _ _ _ _ _ _ _ _ Hinv H)
        as (e & _ & _ & _ & _ & -> & _ & _ & _ & -> & _) end.
    split; [|simpl; lia].
    unfold batch_kept, batch, retirements. simpl.
    rewrite lookup_insert_ne by lia.
    split_and!; [apply same_origin_refl|done|done].
  - destruct (retireCredits_Ok _ _ _ _ _ _ _ Hinv He)
      as (e & _ & _ & _ & _ & _ & _ & _ & ->).
    split; [|simpl; lia].
    unfold batch_kept, batch, retirements. simpl.
    assert (default [] (batchRetirements s !! id) `prefix_of`
            default [] (<[batchId := default [] (batchRetirements s !! batchId)
                            ++ [mkRetirement batchId amount reason sender now]]>
                          (batchRetirements s) !! id)) as Hpre.
    { destruct (decide (id = batchId)) as [->|Hne].
      - rewrite lookup_insert_eq. simpl. by apply prefix_app_r.
      - by rewrite lookup_insert_ne. }
    destruct (_ <=? _); simpl; [|by split_and!; [apply same_origin_refl|..]].
    destruct (decide (id = batchId)) as [->|Hne].
    + rewrite lookup_insert_eq. simpl. by split_and!.
    + rewrite lookup_insert_ne by done.
      by split_and!; [apply same_origin_refl|..].
  - apply updateBatchMetadata_Ok in He as (_ & _ & _ & ->).
    split; [|simpl; lia].
    unfold batch_kept, batch, retirements. simpl.
    destruct (decide (id = batchId)) as [->|Hne].
    + rewrite lookup_insert_eq. simpl. by split_and!.
    + rewrite lookup_insert_ne by done.
      by split_and!; [apply same_origin_refl|..].
Qed.

Lemma run_batch_kept (txs : list tx) (s : state) (id : N) :
  inv s → 0 < id <= batchIdCounter s →
  batch_kept s (run txs s) id ∧ batchIdCounter s <= batchIdCounter (run txs s).
Proof.
  revert s. induction txs as [|t txs IH]; intros s Hinv Hid; simpl.
  - split; [apply batch_kept_refl|lia].
  - assert (batch_kept s (step s t) id ∧
            batchIdCounter s <= batchIdCounter (step s t)) as [Hk Hc].
    { unfold step, commit. destruct (exec t s) as [s'|] eqn:He.
      - by eapply exec_batch_kept.
      - split; [apply batch_kept_refl|lia]. }
    destruct (IH (step s t)) as [Hk' Hc']; [by apply step_inv|lia|].
    split; [by eapply batch_kept_trans|lia].
Qed.

(** *** The issued total fits a word *)

Lemma issued_bounded_exec (t : tx) (s s' : state) :
  inv s → totalIssuedCredits s <= MAX_UINT256 → exec t s = Ok s' →
  totalIssuedCredits s' <= MAX_UINT256.
Proof.
  intros Hinv Hle He.
  destruct (writes_ledger (tx_call t)) eqn:Hw.
  2:{ destruct (exec_same_ledger t s s' Hw He) as (_ & _ & _ & _ & _ & _ & -> & _).
      done. }
  destruct t as [sender now c]. unfold exec in He. simpl in He, Hw.
  destruct c; try discriminate Hw.
  - ok_inv. subst s'.
    match goal with H : mintCreditBatch _ _ _ _ _ _ _ _ _ = Ok ?r |- _ =>
      destruct r as [s1 nid]; simpl;
      destruct (mintCreditBatch_Ok _ _ _ _ _ _ _ _ _ _ _ Hinv H)
        as (e & _ & _ & _ & _ & _ & _ & _ & _ & -> & Hb) end.
    simpl. exact Hb.
  - destruct (retireCredits_Ok _ _ _ _ _ _ _ Hinv He)
      as (e & _ & _ & _ & _ & _ & _ & _ & ->).
    by destruct (_ <=? _).
  - by apply updateBatchMetadata_Ok in He as (_ & _ & _ & ->).
Qed.

Lemma issued_bounded_run (txs : list tx) (s : state) :
  inv s → totalIssuedCredits s <= MAX_UINT256 →
  totalIssuedCredits (run txs s) <= MAX_UINT256.
Proof.
  revert s. induction txs as [|t txs IH]; intros s Hinv Hle; simpl; [done|].
  apply IH; [by apply step_inv|]. unfold step, commit.
  destruct (exec t s) as [s'|] eqn:He; [by eapply issued_bounded_exec|done].
Qed.

Lemma issued_bounded_reachable (s : state) :
  reachable s → totalIssuedCredits s <= MAX_UINT256.
Proof.
  intros (deployer & txs & ->).
  apply issued_bounded_run; [apply inv_constructor|]. simpl.
  unfold MAX_UINT256. lia.
Qed.

Lemma retired_le_issued (s : state) :
  inv s → totalRetiredCreditsGlobal s <= totalIssuedCredits s.
Proof.
  intros Hinv. pose proof (inv_bounded s Hinv) as Hb.
  assert (0 < UNIT) by (unfold UNIT; lia). nia.
Qed.

Lemma sum_retirements_total (l : list RetirementInfo) (t : N) :
  t + list_retired l <= MAX_UINT256 →
  sum_retirements l t = Ok (t + list_retired l).
Proof.
  revert t. induction l as [|r l IH]; simpl; intros t Hle.
  - by rewrite N.add_0_r.
  - unfold checked_add.
    destruct (t + r_amount r <=? MAX_UINT256) eqn:Hc;
      [|apply N.leb_gt in Hc; lia].
    rewrite Ok_bind, IH by lia. f_equal. lia.
Qed.

Lemma retired_from_batch_le (s : state) (id : N) :
  retired_from_batch s id <= sum_retired s.
Proof.
  unfold retired_from_batch, retirements, sum_retired.
  destruct (batchRetirements s !! id) as [l|] eqn:Hl; simpl; [|lia].
  by eapply (map_sum_lookup_le list_retired).
Qed.

Lemma validBatchId_Ok (id : N) (s : state) :
  validBatchId id s = Ok tt ↔ 0 < id <= batchIdCounter s.
Proof.
  unfold validBatchId, require.
  destruct (0 <? id) eqn:H1; destruct (id <=? batchIdCounter s) eqn:H2; simpl;
    bool_prop; split; try done; lia.
Qed.

Lemma validBatchId_cases (id : N) (s : state) :
  (0 < id <= batchIdCounter s ∧ validBatchId id s = Ok tt) ∨
  (¬ 0 < id <= batchIdCounter s ∧
   validBatchId id s = Err (Revert "Invalid batch ID")).
Proof.
  unfold validBatchId, require.
  destruct (0 <? id) eqn:H1; destruct (id <=? batchIdCounter s) eqn:H2; simpl;
    bool_prop; [left|right..]; split; try done; lia.
Qed.

End token_history.

Section token_further.
Import Token TokenViews.

(** X1 ([getGlobalStats]). In every reachable state of the token
    [getGlobalStats] returns: its checked subtraction cannot underflow. The
    retired and the circulating credits it reports add up to the issued
    credits, and the token supply is at most the circulating credits in base
    units. *)
Theorem getGlobalStats_returns (s : state) :
  reachable s →
  ∃ circulating,
    getGlobalStats s
    = Ok (totalIssuedCredits s, totalRetiredCreditsGlobal s, circulating) ∧
    totalRetiredCreditsGlobal s + circulating = totalIssuedCredits s ∧
    totalSupply (erc s) <= UNIT * circulating.
Proof.
  intros Hinv%reachable_inv.
  pose proof (retired_le_issued s Hinv) as Hle.
  pose proof (inv_bounded s Hinv) as Hb.
  exists (totalIssuedCredits s - totalRetiredCreditsGlobal s).
  unfold getGlobalStats, checked_sub.
  destruct (_ <=? _) eqn:Hc; [|apply N.leb_gt in Hc; lia].
  rewrite Ok_bind. split_and!; [done|lia|].
  rewrite N.mul_sub_distr_l. lia.
Qed.

Lemma getGlobalStats_returns_witness :
  let s := run Scenario.mint_mint_retire (constructor 1) in
  ∃ circulating,
    getGlobalStats s
    = Ok (totalIssuedCredits s, totalRetiredCreditsGlobal s, circulating) ∧
    totalRetiredCreditsGlobal s + circulating = totalIssuedCredits s ∧
    totalSupply (erc s) <= UNIT * circulating.
Proof.
  intros s.
  assert (reachable s) as Hreach by (by exists 1, Scenario.mint_mint_retire).
  exact (getGlobalStats_returns s Hreach).
Defined.

(** X2 ([getOwnerBatches], [ownerOf]). In every reachable state the list
    [getOwnerBatches] returns for an account holds, once each, exactly the
    batches of which [ownerOf] names that account: the index follows the
    original recipient of the mint, not the holder of the tokens. *)
Theorem getOwnerBatches_are_ownerOf (s : state) (o : address) :
  reachable s →
  NoDup (getOwnerBatches o s) ∧
  ∀ id, id ∈ getOwnerBatches o s ↔ ownerOf id s = Ok o.
Proof.
  intros Hreach. pose proof (reachable_inv s Hreach) as Hinv.
  pose proof (records_ok_reachable s Hreach) as Hrec.
  split; [apply (rec_owner_nodup s Hrec)|]. intros id.
  rewrite (rec_owner_index s Hrec). unfold ownerOf.
  destruct (validBatchId_cases id s) as [[Hid ->]|[Hid ->]].
  - rewrite Ok_bind. rewrite (batch_lookup s id Hinv Hid). split.
    + intros (b & Hb & Ho). by simplify_eq.
    + intros Ho. simplify_eq. eauto.
  - rewrite Err_bind. split; [|done]. intros (b & Hb & _).
    destruct Hid. apply (inv_batch_dom s Hinv). eauto.
Qed.

Lemma getOwnerBatches_are_ownerOf_witness :
  let s := run Scenario.mint_mint_retire (constructor 1) in
  NoDup (getOwnerBatches 7 s) ∧
  ∀ id, id ∈ getOwnerBatches 7 s ↔ ownerOf id s = Ok 7.
Proof.
  intros s.
  assert (reachable s) as Hreach by (by exists 1, Scenario.mint_mint_retire).
  exact (getOwnerBatches_are_ownerOf s 7 Hreach).
Defined.

(** X3 ([getProjectBatches], [getBatch]). In every reachable state the list
    [getProjectBatches] returns for a project holds, once each, exactly the
    batches whose record, as [getBatch] returns it, carries that project
    id. *)
Theorem getProjectBatches_are_of_project (s : state) (p : N) :
  reachable s →
  NoDup (getProjectBatches p s) ∧
  ∀ id, id ∈ getProjectBatches p s ↔
        ∃ b, getBatch id s = Ok b ∧ b_projectId b = p.
Proof.
  intros Hreach. pose proof (reachable_inv s Hreach) as Hinv.
  pose proof (records_ok_reachable s Hreach) as Hrec.
  split; [apply (rec_project_nodup s Hrec)|]. intros id.
  rewrite (rec_project_index s Hrec). unfold getBatch.
  destruct (validBatchId_cases id s) as [[Hid ->]|[Hid ->]].
  - rewrite Ok_bind. rewrite (batch_lookup s id Hinv Hid). split.
    + intros (b & Hb & Hp). simplify_eq. eauto.
    + intros (b & Hb & Hp). simplify_eq. eauto.
  - rewrite Err_bind. split; [|by intros (b & ? & _)]. intros (b & Hb & _).
    destruct Hid. apply (inv_batch_dom s Hinv). eauto.
Qed.

Lemma getProjectBatches_are_of_project_witness :
  let s := run Scenario.mint_mint_retire (constructor 1) in
  NoDup (getProjectBatches 1 s) ∧
  ∀ id, id ∈ getProjectBatches 1 s ↔
        ∃ b, getBatch id s = Ok b ∧ b_projectId b = 1.
Proof.
  intros s.
  assert (reachable s) as Hreach by (by exists 1, Scenario.mint_mint_retire).
  exact (getProjectBatches_are_of_project s 1 Hreach).
Defined.

(** X4 ([retireCredits]: [totalRetiredCredits]). In every reachable state the
    retired totals kept per account add up to [totalRetiredCreditsGlobal],
    which is also the sum of the amounts of all retirement records. *)
Theorem retired_per_account_adds_up (s : state) :
  reachable s →
  map_sum id (totalRetiredCredits s) = totalRetiredCreditsGlobal s ∧
  sum_retired s = totalRetiredCreditsGlobal s.
Proof.
  intros Hreach. split.
  - apply (rec_by_account s (records_ok_reachable s Hreach)).
  - apply (inv_retired s (reachable_inv s Hreach)).
Qed.

Lemma retired_per_account_adds_up_witness :
  let s := run Scenario.mint_mint_retire (constructor 1) in
  map_sum id (totalRetiredCredits s) = totalRetiredCreditsGlobal s ∧
  sum_retired s = totalRetiredCreditsGlobal s.
Proof.
  intros s.
  assert (reachable s) as Hreach by (by exists 1, Scenario.mint_mint_retire).
  exact (retired_per_account_adds_up s Hreach).
Defined.

(** X5 ([getBatch]). In every reachable state a record that [getBatch]
    returns is one that [mintCreditBatch] accepted: its project id, amount and
    vintage are positive, its verification standard is not empty and its
    original owner is not the zero address. *)
Theorem getBatch_returns_minted (s : state) (id : N) (b : CreditBatch) :
  reachable s → getBatch id s = Ok b → minted_well b.
Proof.
  intros Hreach Hg. pose proof (reachable_inv s Hreach) as Hinv.
  unfold getBatch in Hg.
  destruct (validBatchId_cases id s) as [[Hid Hv]|[Hid Hv]]; rewrite Hv in Hg.
  - rewrite Ok_bind in Hg. injection Hg as <-.
    apply (rec_batches s (records_ok_reachable s Hreach) id).
    by apply batch_lookup.
  - by rewrite Err_bind in Hg.
Qed.

Lemma getBatch_returns_minted_witness :
  let s := run Scenario.mint_mint_retire (constructor 1) in
  minted_well (batch s 2).
Proof.
  intros s.
  assert (reachable s) as Hreach by (by exists 1, Scenario.mint_mint_retire).
  assert (getBatch 2 s = Ok (batch s 2)) as Hg by (vm_compute; reflexivity).
  exact (getBatch_returns_minted s 2 (batch s 2) Hreach Hg).
Defined.

(** X6 ([getBatchRetirements], [getTotalRetiredFromBatch]). In every
    reachable state the history [getBatchRetirements] returns for a batch
    holds only records of that batch with a positive amount, a reason and a
    retiring account other than zero; [getTotalRetiredFromBatch] returns the
    sum of their amounts (its loop does not overflow), and that sum is at
    most [totalRetiredCreditsGlobal]. *)
Theorem getBatchRetirements_history (s : state) (id : N)
    (l : list RetirementInfo) :
  reachable s → getBatchRetirements id s = Ok l →
  (∀ r, r ∈ l → retired_well id r) ∧
  getTotalRetiredFromBatch id s = Ok (list_retired l) ∧
  list_retired l <= totalRetiredCreditsGlobal s.
Proof.
  intros Hreach Hg. pose proof (reachable_inv s Hreach) as Hinv.
  pose proof (records_ok_reachable s Hreach) as Hrec.
  unfold getBatchRetirements in Hg. unfold getTotalRetiredFromBatch.
  destruct (validBatchId_cases id s) as [[Hid Hv]|[Hid Hv]]; rewrite Hv in *;
    [|by rewrite Err_bind in Hg].
  rewrite Ok_bind in *. injection Hg as <-.
  pose proof (retired_from_batch_le s id) as Hle.
  rewrite (inv_retired s Hinv) in Hle. unfold retired_from_batch in Hle.
  pose proof (retired_le_issued s Hinv).
  pose proof (issued_bounded_reachable s Hreach).
  split_and!; [|by rewrite sum_retirements_total by lia|done].
  intros r Hr. unfold retirements in Hr.
  destruct (batchRetirements s !! id) as [l|] eqn:Hl; simpl in Hr;
    [by eapply (rec_retirements s Hrec)|by apply elem_of_nil in Hr].
Qed.

Lemma getBatchRetirements_history_witness :
  let s := run Scenario.mint_mint_retire (constructor 1) in
  (∀ r, r ∈ retirements s 1 → retired_well 1 r) ∧
  getTotalRetiredFromBatch 1 s = Ok (list_retired (retirements s 1)) ∧
  list_retired (retirements s 1) <= totalRetiredCreditsGlobal s.
Proof.
  intros s.
  assert (reachable s) as Hreach by (by exists 1, Scenario.mint_mint_retire).
  assert (getBatchRetirements 1 s = Ok (retirements s 1)) as Hg
    by (vm_compute; reflexivity).
  exact (getBatchRetirements_history s 1 (retirements s 1) Hreach Hg).
Defined.

(** X7 ([mintCreditBatch], [retireCredits], [updateBatchMetadata] and the
    inherited calls). A batch that exists in a reachable state exists after
    any further transactions, with the same project, amount, vintage,
    verification standard, creation time and original owner; if it was
    retired it is still retired, and its retirement history has only grown at
    its end. *)
Theorem batch_is_permanent (s : state) (txs : list tx) (id : N) :
  reachable s → batchExists id s = true →
  batchExists id (run txs s) = true ∧ batch_kept s (run txs s) id.
Proof.
  intros Hinv%reachable_inv He. unfold batchExists in *. bool_prop.
  destruct (run_batch_kept txs s id Hinv) as [Hk Hc]; [lia|].
  split; [|done]. apply andb_true_iff. split; [apply N.ltb_lt|apply N.leb_le]; lia.
Qed.

Lemma batch_is_permanent_witness :
  let s := run Scenario.two_batches (constructor 1) in
  let txs := [Scenario.retire_50_of_batch_1;
              mkTx 7 102 (Transfer 8 UNIT);
              mkTx 1 103 (UpdateBatchMetadata 1 "QmOther")] in
  batchExists 1 (run txs s) = true ∧ batch_kept s (run txs s) 1.
Proof.
  intros s txs.
  assert (reachable s) as Hreach by (by exists 1, Scenario.two_batches).
  exact (batch_is_permanent s txs 1 Hreach eq_refl).
Defined.

(** X8 ([pause], [_beforeTokenTransfer]). While the token is paused no
    transaction moves, mints or burns tokens, mints a batch or retires
    credits: a transaction that succeeds leaves every balance, the supply,
    the batch counter, the retirement records and the issued and retired
    totals as they were. *)
Theorem paused_freezes_credits (t : tx) (s s' : state) :
  paused s = true → exec t s = Ok s' →
  balances (erc s') = balances (erc s) ∧
  totalSupply (erc s') = totalSupply (erc s) ∧
  batchIdCounter s' = batchIdCounter s ∧
  batchRetirements s' = batchRetirements s ∧
  totalIssuedCredits s' = totalIssuedCredits s ∧
  totalRetiredCreditsGlobal s' = totalRetiredCreditsGlobal s.
Proof.
  intros Hp He. destruct t as [sender now c]. unfold exec in He. simpl in He.
  destruct c.
  - unfold mintCreditBatch, _mint, _beforeTokenTransfer in He.
    rewrite Hp in He. ok_inv. discriminate.
  - unfold retireCredits, _burn, _beforeTokenTransfer in He.
    rewrite Hp in He. ok_inv. discriminate.
  - unfold updateBatchMetadata in He. ok_inv. by subst.
  - unfold transfer, _transfer, _beforeTokenTransfer in He.
    rewrite Hp in He. ok_inv. discriminate.
  - unfold approve, _approve in He. ok_inv. by subst.
  - unfold transferFrom in He. ok_inv.
    unfold _transfer, _beforeTokenTransfer in He.
    match goal with H : _spendAllowance _ _ _ _ = Ok _ |- _ =>
      apply _spendAllowance_Ok in H as (e1 & -> & _) end.
    simpl in He. rewrite Hp in He. ok_inv. discriminate.
  - unfold increaseAllowance, _approve in He. ok_inv. by subst.
  - unfold decreaseAllowance, _approve in He. ok_inv. by subst.
  - unfold burn, _burn, _beforeTokenTransfer in He.
    rewrite Hp in He. ok_inv. discriminate.
  - unfold burnFrom in He. ok_inv.
    unfold _burn, _beforeTokenTransfer in He.
    match goal with H : _spendAllowance _ _ _ _ = Ok _ |- _ =>
      apply _spendAllowance_Ok in H as (e1 & -> & _) end.
    simpl in He. rewrite Hp in He. ok_inv. discriminate.
  - unfold pause in He. rewrite Hp in He. ok_inv. discriminate.
  - unfold unpause in He. ok_inv. by subst.
  - unfold transferOwnership in He. ok_inv. by subst.
  - unfold renounceOwnership in He. ok_inv. by subst.
Qed.

Lemma paused_freezes_credits_witness :
  let s := run (Scenario.two_batches ++ [mkTx 1 101 Pause]) (constructor 1) in
  let t := mkTx 7 102 (Approve 8 UNIT) in
  ∃ s', exec t s = Ok s' ∧
        balances (erc s') = balances (erc s) ∧
        totalSupply (erc s') = totalSupply (erc s) ∧
        batchIdCounter s' = batchIdCounter s ∧
        batchRetirements s' = batchRetirements s ∧
        totalIssuedCredits s' = totalIssuedCredits s ∧
        totalRetiredCreditsGlobal s' = totalRetiredCreditsGlobal s.
Proof.
  intros s t. destruct (exec t s) as [s'|e] eqn:He; [|by vm_compute in He].
  exists s'. split; [done|].
  exact (paused_freezes_credits t s s' eq_refl He).
Defined.

(** X9 ([mintCreditBatch] and the views). A successful [mintCreditBatch] in
    a reachable state returns the next batch id, which becomes
    [getTotalBatches]; [getBatch] then returns the record as given, not
    retired, stamped with the block time and the recipient as original owner;
    the id is appended to the recipient's and to the project's list; the
    recipient's balance grows by the amount in base units; and the new batch
    has no retirement history. *)
Theorem mintCreditBatch_round_trip sender now p a v std ipfs to
    (s s' : state) (id : N) :
  reachable s →
  mintCreditBatch sender now p a v std ipfs to s = Ok (s', id) →
  id = getTotalBatches s + 1 ∧ getTotalBatches s' = id ∧
  getBatch id s' = Ok (mkBatch p a v std ipfs false now to) ∧
  ownerOf id s' = Ok to ∧
  getOwnerBatches to s' = getOwnerBatches to s ++ [id] ∧
  getProjectBatches p s' = getProjectBatches p s ++ [id] ∧
  balanceOf s' to = balanceOf s to + a * UNIT ∧
  getBatchRetirements id s' = Ok [].
Proof.
  intros Hinv%reachable_inv Hm.
  destruct (mintCreditBatch_Ok _ _ _ _ _ _ _ _ _ _ _ Hinv Hm)
    as (e & _ & _ & Hbal & _ & -> & _ & _ & _ & -> & _).
  unfold getTotalBatches, getBatch, ownerOf, getOwnerBatches, getProjectBatches,
    getBatchRetirements, validBatchId, balanceOf, batch, retirements. simpl.
  assert ((0 <? batchIdCounter s + 1)
          && (batchIdCounter s + 1 <=? batchIdCounter s + 1) = true) as ->.
  { apply andb_true_iff. split; [apply N.ltb_lt|apply N.leb_le]; lia. }
  simpl. rewrite ?Ok_bind, !lookup_insert_eq. simpl.
  split_and!; try done.
  destruct (batchRetirements s !! (batchIdCounter s + 1)) as [l|] eqn:Hl;
    [|done].
  assert (0 < batchIdCounter s + 1 <= batchIdCounter s)
    by (apply (inv_ret_dom s Hinv); eauto). lia.
Qed.

Lemma mintCreditBatch_round_trip_witness :
  let s := run Scenario.mint_mint_retire (constructor 1) in
  ∃ s', mintCreditBatch 1 200 2 30 2025 "VCS" "QmBatch3" 8 s = Ok (s', 3) ∧
        getBatch 3 s' = Ok (mkBatch 2 30 2025 "VCS" "QmBatch3" false 200 8) ∧
        getOwnerBatches 8 s' = getOwnerBatches 8 s ++ [3] ∧
        getBatchRetirements 3 s' = Ok [].
Proof.
  intros s.
  assert (reachable s) as Hreach by (by exists 1, Scenario.mint_mint_retire).
  destruct (mintCreditBatch 1 200 2 30 2025 "VCS" "QmBatch3" 8 s)
    as [[s' id]|e] eqn:Hm; [|by vm_compute in Hm].
  destruct (mintCreditBatch_round_trip 1 200 2 30 2025 "VCS" "QmBatch3" 8
              s s' id Hreach Hm) as (Hid & _ & Hb & _ & Ho & _ & _ & Hr).
  assert (id = 3) as -> by (rewrite Hid; vm_compute; reflexivity).
  exists s'. split; [reflexivity|]. exact (conj Hb (conj Ho Hr)).
Defined.

End token_further.

(** ** ProjectRegistry: records, index and views *)

Section registry_records.
Import Registry RegistryViews.

Lemma projectExists_cases (id : N) (s : state) :
  (0 < id <= projectIdCounter s ∧ projectExists id s = Ok tt) ∨
  (¬ 0 < id <= projectIdCounter s ∧
   projectExists id s = Err (Revert "Project does not exist")).
Proof.
  unfold projectExists, require.
  destruct (0 <? id) eqn:H1; destruct (id <=? projectIdCounter s) eqn:H2; simpl;
    bool_prop; [left|right..]; split; try done; lia.
Qed.

Lemma project_lookup (s : state) (id : N) :
  registry_ok s → 0 < id <= projectIdCounter s →
  projects s !! id = Some (project s id).
Proof.
  intros Hok Hid. apply (reg_dom s Hok) in Hid as [p Hp].
  unfold project. by rewrite Hp.
Qed.

Lemma registerProject_Ok sender now n d e l a cw ipfs est (s s' : state)
    (id : N) :
  registry_ok s →
  registerProject sender now n d e l a cw ipfs est s = Ok (s', id) →
  id = projectIdCounter s + 1 ∧ projects s !! id = None ∧
  nonempty n = true ∧ nonempty l = true ∧ 0 < a ∧ 0 < est ∧
  s' = mkState (owner s) id
         (<[id := mkProject id n d e l a sender cw [] Pending now 0 ipfs est 0
                    true]> (projects s))
         (<[sender := default [] (ownerProjects s !! sender) ++ [id]]>
            (ownerProjects s))
         (authorizedVerifiers s).
Proof.
  intros Hok Hr. unfold registerProject in Hr. ok_inv. bool_prop.
  assert (projects s !! (projectIdCounter s + 1) = None) as Hfresh.
  { apply eq_None_not_Some. rewrite (reg_dom s Hok). lia. }
  simplify_eq. unfold project. rewrite Hfresh. simpl. by split_and!.
Qed.

Lemma registry_ok_constructor (deployer : address) :
  registry_ok (constructor deployer).
Proof.
  split; simpl.
  - intros id. rewrite lookup_empty. split; [by intros [? ?]|lia].
  - intros id p. by rewrite lookup_empty.
  - intros o id. unfold getProjectsByOwner. simpl. rewrite !lookup_empty. simpl.
    split; [by intros ?%elem_of_nil|]. by intros (p & Hp & _).
  - intros o. unfold getProjectsByOwner. simpl. rewrite lookup_empty.
    constructor.
Qed.

Lemma registry_ok_register sender now n d e l a cw ipfs est (s s' : state)
    (id : N) :
  registry_ok s →
  registerProject sender now n d e l a cw ipfs est s = Ok (s', id) →
  registry_ok s'.
Proof.
  intros Hok Hr.
  destruct (registerProject_Ok _ _ _ _ _ _ _ _ _ _ _ _ _ Hok Hr)
    as (-> & Hfresh & Hn & Hl & Ha & Hest & ->).
  destruct Hok as [Hdom Hp Hoi Hon].
  set (nid := projectIdCounter s + 1) in *.
  split; simpl.
  - intros i. destruct (decide (i = nid)) as [->|Hne].
    + rewrite lookup_insert_eq. split; [lia|eauto].
    + rewrite lookup_insert_ne by done. rewrite Hdom. lia.
  - intros i p. destruct (decide (i = nid)) as [->|Hne].
    + rewrite lookup_insert_eq. intros [= <-]. by repeat split.
    + rewrite lookup_insert_ne by done. apply Hp.
  - intros o i. unfold getProjectsByOwner in *. simpl.
    pose proof (index_extended (projects s) nid
                  (mkProject nid n d e l a sender cw [] Pending now 0 ipfs est
                     0 true) p_projectOwner
                  (default [] (ownerProjects s !! o)) i o Hfresh (Hoi o i))
      as Hext. simpl in Hext. revert Hext.
    case_decide as Hd; [subst o; rewrite (lookup_insert_eq (ownerProjects s))
                       |rewrite (lookup_insert_ne (ownerProjects s)) by done];
      done.
  - intros o. unfold getProjectsByOwner in *. simpl.
    destruct (decide (sender = o)) as [->|Hne];
      [rewrite lookup_insert_eq|by rewrite lookup_insert_ne]. simpl.
    apply NoDup_app. split_and!; [apply Hon| |apply NoDup_singleton].
    intros i Hi ->%list_elem_of_singleton.
    apply Hoi in Hi as (p & Hlk & _). congruence.
Qed.

(** Rewriting a project without touching its registration keeps the
    records. *)
Lemma registry_ok_rewrite (s : state) (id : N) (p p' : Project) :
  registry_ok s → projects s !! id = Some p → same_registration p p' →
  p_isActive p' = p_isActive p → p_verifiers p' = p_verifiers p →
  registry_ok (set_project id p' s).
Proof.
  intros [Hdom Hp Hoi Hon] Hl Hsame Hact Hver.
  destruct Hsame as (H1 & H2 & H3 & H4 & H5 & H6 & H7 & H8 & H9 & H10 & H11).
  split; simpl; try done.
  - intros i. destruct (decide (i = id)) as [->|Hne].
    + rewrite lookup_insert_eq. rewrite <- Hdom, Hl. split; eauto.
    + by rewrite lookup_insert_ne.
  - intros i q. destruct (decide (i = id)) as [->|Hne].
    + rewrite lookup_insert_eq. intros [= <-].
      destruct (Hp _ _ Hl) as (? & ? & ? & ? & ? & ? & ?).
      unfold registered_well. rewrite H1, H2, H5, H6, H11, Hact, Hver.
      by split_and!.
    + rewrite lookup_insert_ne by done. apply Hp.
  - intros o i. unfold getProjectsByOwner. simpl.
    rewrite (index_updated _ id _ p' p_projectOwner i o Hl H7). apply Hoi.
Qed.

Lemma registry_ok_exec sender now (c : call) (s s' : state) :
  registry_ok s → exec sender now c s = Ok s' → registry_ok s'.
Proof.
  intros Hok He. destruct c; simpl in He.
  - ok_inv. subst s'.
    match goal with H : registerProject _ _ _ _ _ _ _ _ _ _ _ = Ok ?r |- _ =>
      destruct r as [s1 id]; simpl; by eapply registry_ok_register end.
  - unfold approveProject, projectExists in He. ok_inv. bool_prop. subst s'.
    eapply registry_ok_rewrite; [done|apply project_lookup; [done|lia]|..];
      by repeat split.
  - unfold updateProjectStatus, projectExists in He. ok_inv. bool_prop.
    subst s'.
    eapply registry_ok_rewrite; [done|apply project_lookup; [done|lia]|..];
      by repeat split.
  - unfold addVerifier in He. ok_inv. subst s'. by destruct Hok.
  - unfold removeVerifier in He. ok_inv. subst s'. by destruct Hok.
  - unfold updateTotalCarbonCredits, projectExists in He. ok_inv. bool_prop.
    subst s'.
    eapply registry_ok_rewrite; [done|apply project_lookup; [done|lia]|..];
      by repeat split.
  - unfold transferOwnership in He. ok_inv. subst s'. by destruct Hok.
  - unfold renounceOwnership in He. ok_inv. subst s'. by destruct Hok.
Qed.

Lemma registry_ok_step (t : tx) (s : state) :
  registry_ok s → registry_ok (step s t).
Proof.
  intros Hok. unfold step, commit.
  destruct (exec _ _ _ s) as [s'|] eqn:He; [by eapply registry_ok_exec|done].
Qed.

Lemma registry_ok_run (txs : list tx) (s : state) :
  registry_ok s → registry_ok (run txs s).
Proof.
  revert s. induction txs as [|t txs IH]; intros s Hok; simpl; [done|].
  by apply IH, registry_ok_step.
Qed.

Lemma registry_ok_reachable (s : state) : reachable s → registry_ok s.
Proof.
  intros (deployer & txs & ->).
  apply registry_ok_run, registry_ok_constructor.
Qed.

Lemma same_registration_refl (p : Project) : same_registration p p.
Proof. by repeat split. Qed.

Lemma same_registration_trans (p1 p2 p3 : Project) :
  same_registration p1 p2 → same_registration p2 p3 → same_registration p1 p3.
Proof.
  intros (? & ? & ? & ? & ? & ? & ? & ? & ? & ? & ?)
         (? & ? & ? & ? & ? & ? & ? & ? & ? & ? & ?).
  repeat split; congruence.
Qed.

Lemma project_set_project (s : state) (id i : N) (p : Project) :
  project (set_project id p s) i = if decide (i = id) then p else project s i.
Proof.
  unfold project. simpl. case_decide as Hd.
  - subst. by rewrite lookup_insert_eq.
  - by rewrite lookup_insert_ne.
Qed.

Lemma exec_same_registration sender now (c : call) (s s' : state) (id : N) :
  registry_ok s → 0 < id <= projectIdCounter s →
  exec sender now c s = Ok s' →
  same_registration (project s id) (project s' id) ∧
  projectIdCounter s <= projectIdCounter s'.
Proof.
  intros Hok Hid He. destruct c; simpl in He.
  - ok_inv. subst s'.
    match goal with H : registerProject _ _ _ _ _ _ _ _ _ _ _ = Ok ?r |- _ =>
      destruct r as [s1 nid]; simpl;
      destruct (registerProject_Ok _ _ _ _ _ _ _ _ _ _ _ _ _ Hok H)
        as (-> & _ & _ & _ & _ & _ & ->) end.
    simpl. split; [|lia]. unfold project. simpl.
    rewrite lookup_insert_ne by lia. apply same_registration_refl.
  - unfold approveProject in He. ok_inv. subst s'. simpl. split; [|lia].
    rewrite project_set_project. case_decide; [subst|]; by repeat split.
  - unfold updateProjectStatus in He. ok_inv. subst s'. simpl. split; [|lia].
    rewrite project_set_project. case_decide; [subst|]; by repeat split.
  - unfold addVerifier in He. ok_inv. subst s'.
    split; [apply same_registration_refl|simpl; lia].
  - unfold removeVerifier in He. ok_inv. subst s'.
    split; [apply same_registration_refl|simpl; lia].
  - unfold updateTotalCarbonCredits in He. ok_inv. subst s'. simpl.
    split; [|lia].
    rewrite project_set_project. case_decide; [subst|]; by repeat split.
  - unfold transferOwnership in He. ok_inv. subst s'.
    split; [apply same_registration_refl|simpl; lia].
  - unfold renounceOwnership in He. ok_inv. subst s'.
    split; [apply same_registration_refl|simpl; lia].
Qed.

Lemma run_same_registration (txs : list tx) (s : state) (id : N) :
  registry_ok s → 0 < id <= projectIdCounter s →
  same_registration (project s id) (project (run txs s) id) ∧
  projectIdCounter s <= projectIdCounter (run txs s).
Proof.
  revert s. induction txs as [|t txs IH]; intros s Hok Hid; simpl.
  - split; [apply same_registration_refl|lia].
  - assert (same_registration (project s id) (project (step s t) id) ∧
            projectIdCounter s <= projectIdCounter (step s t)) as [Hk Hc].
    { unfold step, commit. destruct (exec _ _ _ s) as [s'|] eqn:He.
      - by eapply exec_same_registration.
      - split; [apply same_registration_refl|lia]. }
    destruct (IH (step s t)) as [Hk' Hc']; [by apply registry_ok_step|lia|].
    split; [by eapply same_registration_trans|lia].
Qed.

End registry_records.

Section registry_further.
Import Registry RegistryViews.

(** X10 ([getProject], [registerProject]). In every reachable state of the
    registry a record that [getProject] returns carries the id it was asked
    for, a name and a location that are not empty, a positive area and a
    positive estimate; it is active and its list of verifiers is empty, since
    no function of the registry writes these two fields after the
    registration. *)
Theorem getProject_returns_registered (s : state) (id : N) (p : Project) :
  reachable s → getProject id s = Ok p → registered_well id p.
Proof.
  intros Hok%registry_ok_reachable Hg. unfold getProject in Hg.
  destruct (projectExists_cases id s) as [[Hid Hv]|[Hid Hv]]; rewrite Hv in Hg.
  - rewrite Ok_bind in Hg. injection Hg as <-.
    apply (reg_projects s Hok id). by apply project_lookup.
  - by rewrite Err_bind in Hg.
Qed.

Lemma getProject_returns_registered_witness :
  let s := run two_projects (constructor 1) in
  registered_well 2 (project s 2).
Proof.
  intros s.
  assert (reachable s) as Hreach by (by exists 1, two_projects).
  assert (getProject 2 s = Ok (project s 2)) as Hg by (vm_compute; reflexivity).
  exact (getProject_returns_registered s 2 (project s 2) Hreach Hg).
Defined.

(** X11 ([getProjectsByOwner]). In every reachable state of the registry the
    list [getProjectsByOwner] returns for an account holds, once each,
    exactly the projects whose record, as [getProject] returns it, names that
    account as project owner. *)
Theorem getProjectsByOwner_are_owned (s : state) (o : address) :
  reachable s →
  NoDup (getProjectsByOwner o s) ∧
  ∀ id, id ∈ getProjectsByOwner o s ↔
        ∃ p, getProject id s = Ok p ∧ p_projectOwner p = o.
Proof.
  intros Hok%registry_ok_reachable.
  split; [apply (reg_owner_nodup s Hok)|]. intros id.
  rewrite (reg_owner_index s Hok). unfold getProject.
  destruct (projectExists_cases id s) as [[Hid ->]|[Hid ->]].
  - rewrite Ok_bind. rewrite (project_lookup s id Hok Hid). split.
    + intros (p & Hp & Ho). simplify_eq. eauto.
    + intros (p & Hp & Ho). simplify_eq. eauto.
  - rewrite Err_bind. split; [|by intros (p & ? & _)]. intros (p & Hp & _).
    destruct Hid. apply (reg_dom s Hok). eauto.
Qed.

Lemma getProjectsByOwner_are_owned_witness :
  let s := run two_projects (constructor 1) in
  NoDup (getProjectsByOwner 7 s) ∧
  ∀ id, id ∈ getProjectsByOwner 7 s ↔
        ∃ p, getProject id s = Ok p ∧ p_projectOwner p = 7.
Proof.
  intros s.
  assert (reachable s) as Hreach by (by exists 1, two_projects).
  exact (getProjectsByOwner_are_owned s 7 Hreach).
Defined.

(** X12 (all state-changing functions of the registry). A project that
    [getProject] returns in a reachable state is returned after any further
    transactions with the same id, name, description, ecosystem type,
    location, area, project owner, community wallets, creation time, IPFS
    reference and estimate: only its status, approval time and total credits
    are ever rewritten. *)
Theorem registration_is_permanent (s : state) (txs : list tx) (id : N)
    (p : Project) :
  reachable s → getProject id s = Ok p →
  ∃ p', getProject id (run txs s) = Ok p' ∧ same_registration p p'.
Proof.
  intros Hok%registry_ok_reachable Hg. unfold getProject in *.
  destruct (projectExists_cases id s) as [[Hid Hv]|[Hid Hv]]; rewrite Hv in Hg;
    [|by rewrite Err_bind in Hg].
  rewrite Ok_bind in Hg. injection Hg as <-.
  destruct (run_same_registration txs s id Hok Hid) as [Hk Hc].
  exists (project (run txs s) id). split; [|done].
  destruct (projectExists_cases id (run txs s)) as [[_ ->]|[Hid' _]];
    [by rewrite Ok_bind|]. destruct Hid'. lia.
Qed.

Lemma registration_is_permanent_witness :
  let s := run two_projects (constructor 1) in
  let txs := [mkTx 3 20 (UpdateProjectStatus 1 Suspended);
              mkTx 3 21 (UpdateTotalCarbonCredits 1 990);
              mkTx 8 22 (RegisterProject "Salt marsh" "Marsh" SaltMarsh "Kochi"
                           5 [] "QmProject3" 70)] in
  ∃ p', getProject 1 (run txs s) = Ok p' ∧ same_registration (project s 1) p'.
Proof.
  intros s txs.
  assert (reachable s) as Hreach by (by exists 1, two_projects).
  assert (getProject 1 s = Ok (project s 1)) as Hg by (vm_compute; reflexivity).
  exact (registration_is_permanent s txs 1 (project s 1) Hreach Hg).
Defined.

(** X13 ([registerProject] and the views). A successful [registerProject] in
    a reachable state returns the next project id, which becomes
    [getTotalProjects]; [getProject] then returns the record as given, owned
    by the caller, pending, active, stamped with the block time, never
    approved, with no credits and no verifiers; the id is appended to the
    caller's list, and every other id reads as before. *)
Theorem registerProject_round_trip sender now n d e l a cw ipfs est
    (s s' : state) (id : N) :
  reachable s →
  registerProject sender now n d e l a cw ipfs est s = Ok (s', id) →
  id = getTotalProjects s + 1 ∧ getTotalProjects s' = id ∧
  getProject id s'
  = Ok (mkProject id n d e l a sender cw [] Pending now 0 ipfs est 0 true) ∧
  getProjectsByOwner sender s' = getProjectsByOwner sender s ++ [id] ∧
  ∀ id', id' ≠ id → getProject id' s' = getProject id' s.
Proof.
  intros Hok%registry_ok_reachable Hr.
  destruct (registerProject_Ok _ _ _ _ _ _ _ _ _ _ _ _ _ Hok Hr)
    as (-> & Hfresh & _ & _ & _ & _ & ->).
  unfold getTotalProjects, getProject, getProjectsByOwner, projectExists,
    project. simpl.
  split_and!; try done.
  - assert ((0 <? projectIdCounter s + 1)
            && (projectIdCounter s + 1 <=? projectIdCounter s + 1) = true)
      as ->.
    { apply andb_true_iff. split; [apply N.ltb_lt|apply N.leb_le]; lia. }
    simpl. rewrite ?Ok_bind. by rewrite lookup_insert_eq.
  - by rewrite lookup_insert_eq.
  - intros id' Hne. rewrite lookup_insert_ne by done.
    assert ((id' <=? projectIdCounter s + 1) = (id' <=? projectIdCounter s))
      as ->; [|done].
    destruct (id' <=? projectIdCounter s) eqn:Hc;
      [apply N.leb_le in Hc; apply N.leb_le; lia
      |apply N.leb_gt in Hc; apply N.leb_gt; lia].
Qed.

Lemma registerProject_round_trip_witness :
  let s := run two_projects (constructor 1) in
  ∃ s', registerProject 8 30 "Salt marsh" "Marsh" SaltMarsh "Kochi" 5 [8]
          "QmProject3" 70 s = Ok (s', 3) ∧
        getProject 3 s'
        = Ok (mkProject 3 "Salt marsh" "Marsh" SaltMarsh "Kochi" 5 8 [8] []
                Pending 30 0 "QmProject3" 70 0 true) ∧
        getProjectsByOwner 8 s' = getProjectsByOwner 8 s ++ [3] ∧
        getProject 1 s' = getProject 1 s.
Proof.
  intros s.
  assert (reachable s) as Hreach by (by exists 1, two_projects).
  destruct (registerProject 8 30 "Salt marsh" "Marsh" SaltMarsh "Kochi" 5 [8]
              "QmProject3" 70 s) as [[s' id]|err] eqn:Hr;
    [|by vm_compute in Hr].
  destruct (registerProject_round_trip 8 30 "Salt marsh" "Marsh" SaltMarsh
              "Kochi" 5 [8] "QmProject3" 70 s s' id Hreach Hr)
    as (Hid & _ & Hp & Ho & Hother).
  assert (id = 3) as -> by (rewrite Hid; vm_compute; reflexivity).
  exists s'. split; [reflexivity|].
  exact (conj Hp (conj Ho (Hother 1 ltac:(discriminate)))).
Defined.

(** X14 ([approveProject]). [approveProject] succeeds only for an authorised
    verifier or the owner and only on a pending project; afterwards
    [getProject] returns the project as approved at the block time, with
    nothing else changed, and a repeated [approveProject] of it reverts for
    every caller. *)
Theorem approveProject_once sender now id (s s' : state) :
  approveProject sender now id s = Ok s' →
  (isAuthorizedVerifier s sender = true ∨ sender = owner s) ∧
  p_status (project s id) = Pending ∧
  getProject id s' = Ok (with_status Approved now (project s id)) ∧
  ∀ sender' now', is_ok (approveProject sender' now' id s') = false.
Proof.
  unfold approveProject, onlyAuthorizedVerifier. intros Ha. ok_inv.
  match goal with H : projectExists _ _ = Ok _ |- _ => rename H into Hex end.
  match goal with H : is_pending _ = true |- _ => rename H into Hpen end.
  match goal with H : _ || _ = true |- _ => rename H into Hauth end.
  subst s'. split_and!.
  - apply orb_true_iff in Hauth as [Hv|Hv%N.eqb_eq]; auto.
  - by destruct (p_status (project s id)).
  - unfold getProject, projectExists in *. simpl.
    rewrite Hex, Ok_bind, project_set_project. by rewrite decide_True by done.
  - intros sender' now'. unfold projectExists in *. simpl.
    rewrite Hex, project_set_project, decide_True by done. simpl.
    unfold require. by destruct (isAuthorizedVerifier _ sender' || _).
Qed.

Lemma approveProject_once_witness :
  let s := run [mkTx 7 10 (RegisterProject "Mangroves" "Restoration" Mangrove
                             "Mumbai" 100 [7] "QmProject1" 1000)]
             (constructor 1) in
  ∃ s', approveProject 1 20 1 s = Ok s' ∧
        getProject 1 s' = Ok (with_status Approved 20 (project s 1)) ∧
        is_ok (approveProject 1 21 1 s') = false.
Proof.
  intros s.
  destruct (approveProject 1 20 1 s) as [s'|err] eqn:Ha; [|by vm_compute in Ha].
  destruct (approveProject_once 1 20 1 s s' Ha) as (_ & _ & Hg & Hno).
  exists s'. split; [reflexivity|]. exact (conj Hg (Hno 1 21)).
Defined.

End registry_further.

(** ** VerificationOracle: records, counters and verdicts *)

Section oracle_counts.
Import Oracle OracleViews.

Lemma count_where_ext (f g : N → bool) (ids : list N) :
  (∀ i, i ∈ ids → f i = g i) → count_where f ids = count_where g ids.
Proof.
  induction ids as [|i ids IH]; intros Hfg; simpl; [done|].
  rewrite (Hfg i) by apply list_elem_of_here.
  rewrite IH; [done|]. intros j Hj. apply Hfg. by apply list_elem_of_further.
Qed.

Lemma count_where_app (f : N → bool) (l : list N) (x : N) :
  count_where f (l ++ [x]) = count_where f l + (if f x then 1 else 0).
Proof. induction l as [|i l IH]; simpl; [lia|]. rewrite IH. lia. Qed.

(** Changing the test at one listed id moves the count by that id alone. *)
Lemma count_where_update (f g : N → bool) (ids : list N) (vid : N) :
  NoDup ids → vid ∈ ids → (∀ i, i ∈ ids → i ≠ vid → g i = f i) →
  count_where g ids + (if f vid then 1 else 0)
  = count_where f ids + (if g vid then 1 else 0).
Proof.
  induction ids as [|i ids IH]; intros Hnd Hin Hfg; [by apply elem_of_nil in Hin|].
  apply NoDup_cons in Hnd as [Hni Hnd]. simpl.
  destruct (decide (i = vid)) as [->|Hne].
  - rewrite (count_where_ext g f ids); [lia|].
    intros j Hj. apply Hfg; [by apply list_elem_of_further|].
    intros ->. done.
  - apply elem_of_cons in Hin as [->|Hin]; [done|].
    rewrite (Hfg i) by (done || apply list_elem_of_here).
    specialize (IH Hnd Hin). lapply IH; [lia|].
    intros j Hj. apply Hfg. by apply list_elem_of_further.
Qed.

Lemma count_where_le (f : N → bool) (ids : list N) :
  count_where f ids <= N.of_nat (length ids).
Proof.
  induction ids as [|i ids IH]; simpl length; simpl count_where; [lia|].
  destruct (f i); lia.
Qed.

Lemma count_verified (s : state) (ids : list N) :
  count_where (verified s) ids = N.of_nat (length (verified_of s ids)).
Proof.
  induction ids as [|i ids IH]; [done|].
  rewrite verified_of_cons. simpl count_where. unfold verified at 1.
  destruct (is_verified _); simpl length; lia.
Qed.

Lemma source_count_same (src : DataSource) (pv pv' : ProjectVerification) :
  same_tracking pv pv' → source_count src pv' = source_count src pv.
Proof. intros (_ & _ & ? & ? & ? & ?). by destruct src. Qed.

Lemma count_source_Ok (src : DataSource) (pv pv' : ProjectVerification) :
  count_source src pv = Ok pv' →
  pv_projectId pv' = pv_projectId pv ∧
  pv_verificationIds pv' = pv_verificationIds pv ∧
  pv_verifiedDataCount pv' = pv_verifiedDataCount pv ∧
  pv_isCompletelyVerified pv' = pv_isCompletelyVerified pv ∧
  pv_finalCarbonCredits pv' = pv_finalCarbonCredits pv ∧
  ∀ src', source_count src' pv'
          = source_count src' pv + (if same_source src src' then 1 else 0).
Proof.
  intros Hc. destruct src; simpl in Hc; ok_inv; subst pv'; simpl;
    split_and!; try done; intros []; simpl; lia.
Qed.

End oracle_counts.

Section oracle_records.
Import Oracle OracleViews.

Lemma oracle_ok_constructor (deployer : address) :
  oracle_ok (constructor deployer).
Proof.
  split; unfold getProjectVerificationIds, projectVerif; simpl;
    try (intros; rewrite ?lookup_empty; simpl; done).
  - intros id. rewrite lookup_empty. split; [by intros [? ?]|lia].
  - intros p id. rewrite !lookup_empty. simpl.
    split; [by intros ?%elem_of_nil|by intros (d & ? & _)].
  - intros p. rewrite lookup_empty. constructor.
  - intros p src. rewrite lookup_empty. by destruct src.
  - intros []; simpl; lia.
  - intros p. rewrite lookup_empty. by right.
Qed.

Lemma data_lookup (s : state) (id : N) :
  oracle_ok s → 0 < id <= verificationIdCounter s →
  verificationData s !! id = Some (data s id).
Proof.
  intros Hok Hid. apply (ok_dom s Hok) in Hid as [d Hd].
  unfold data. by rewrite Hd.
Qed.

Lemma listed_in_range (s : state) (p id : N) :
  oracle_ok s → id ∈ getProjectVerificationIds p s →
  0 < id <= verificationIdCounter s ∧ v_projectId (data s id) = p.
Proof.
  intros Hok Hin. apply (ok_index s Hok) in Hin as (d & Hd & Hp).
  split; [apply (ok_dom s Hok); eauto|]. unfold data. by rewrite Hd.
Qed.

(** What a successful [submitVerificationData] did. *)
Lemma submitVerificationData_Ok sender now pid src ipfs descr est
    (s s' : state) (id : N) :
  oracle_ok s →
  submitVerificationData sender now pid src ipfs descr est s = Ok (s', id) →
  ∃ pv',
    id = verificationIdCounter s + 1 ∧ verificationData s !! id = None ∧
    0 < pid ∧ nonempty ipfs = true ∧ 0 < est ∧
    pv_projectId pv' = pid ∧
    pv_verificationIds pv' = getProjectVerificationIds pid s ++ [id] ∧
    pv_verifiedDataCount pv' = pv_verifiedDataCount (projectVerif s pid) ∧
    pv_isCompletelyVerified pv'
    = pv_isCompletelyVerified (projectVerif s pid) ∧
    pv_finalCarbonCredits pv' = pv_finalCarbonCredits (projectVerif s pid) ∧
    (∀ src', source_count src' pv'
             = source_count src' (projectVerif s pid)
               + (if same_source src src' then 1 else 0)) ∧
    s' = mkState (owner s)
           (<[id := mkData pid src ipfs descr sender now Pending EmptyString
                      est]> (verificationData s))
           (<[pid := pv']> (projectVerifications s))
           (authorizedVerifiers s) (minimumDataRequirements s)
           (verificationWeights s) id.
Proof.
  intros Hok Hs. unfold submitVerificationData, validProjectId in Hs.
  ok_inv. bool_prop.
  assert (verificationData s !! (verificationIdCounter s + 1) = None)
    as Hfresh.
  { apply eq_None_not_Some. rewrite (ok_dom s Hok). lia. }
  match goal with H : count_source _ _ = Ok ?pv |- _ =>
    apply count_source_Ok in H as (Hp & Hids & Hv & Hc & Hf & Hsrc);
    exists (mkVerif (pv_projectId pv) (pv_verificationIds pv)
              (pv_communityDataCount pv) (pv_satelliteDataCount pv)
              (pv_droneDataCount pv) (pv_thirdPartyDataCount pv)
              (pv_verifiedDataCount pv) (pv_isCompletelyVerified pv)
              (pv_finalCarbonCredits pv) now) end.
  simpl in *. simplify_eq. split_and!; try done; simpl.
  - rewrite Hp. destruct (ok_projectId s Hok pid) as [->|[-> _]]; [|done].
    destruct (pid =? 0) eqn:Hz; [apply N.eqb_eq in Hz; lia|done].
  - unfold data. by rewrite Hfresh.
Qed.

Lemma oracle_ok_submit sender now pid src ipfs descr est (s s' : state)
    (id : N) :
  oracle_ok s →
  submitVerificationData sender now pid src ipfs descr est s = Ok (s', id) →
  oracle_ok s'.
Proof.
  intros Hok Hs.
  destruct (submitVerificationData_Ok _ _ _ _ _ _ _ _ _ _ Hok Hs)
    as (pv' & -> & Hfresh & Hpid & Hipfs & Hest & Hp' & Hids' & Hv' & _ & _
        & Hsrc' & ->).
  set (nid := verificationIdCounter s + 1) in *.
  set (nd := mkData pid src ipfs descr sender now Pending EmptyString est).
  set (s' := mkState (owner s) (<[nid := nd]> (verificationData s))
               (<[pid := pv']> (projectVerifications s))
               (authorizedVerifiers s) (minimumDataRequirements s)
               (verificationWeights s) nid).
  assert (projectVerif s' pid = pv') as Hpv_eq.
  { unfold projectVerif. simpl. by rewrite lookup_insert_eq. }
  assert (∀ p, pid ≠ p → projectVerif s' p = projectVerif s p) as Hpv_ne.
  { intros p Hne. unfold projectVerif. simpl. by rewrite lookup_insert_ne. }
  assert (∀ p i, i ∈ getProjectVerificationIds p s → data s' i = data s i)
    as Hsame.
  { intros p i Hi. apply (listed_in_range s p i Hok) in Hi as [Hi _].
    unfold data. simpl. rewrite lookup_insert_ne; [done|]. unfold nid. lia. }
  assert (data s' nid = nd) as Hnew.
  { unfold data. simpl. by rewrite lookup_insert_eq. }
  split.
  - intros i. simpl. destruct (decide (i = nid)) as [->|Hne].
    + rewrite lookup_insert_eq. split; [lia|eauto].
    + rewrite lookup_insert_ne by done. rewrite (ok_dom s Hok). lia.
  - intros i d. simpl. destruct (decide (i = nid)) as [->|Hne].
    + rewrite lookup_insert_eq. intros [= <-]. by repeat split.
    + rewrite lookup_insert_ne by done. apply (ok_data s Hok).
  - intros p i. unfold getProjectVerificationIds.
    pose proof (index_extended (verificationData s) nid nd v_projectId
                  (getProjectVerificationIds p s) i p
                  Hfresh (ok_index s Hok p i)) as Hext.
    simpl in Hext. revert Hext.
    case_decide as Hd; [subst p; rewrite Hpv_eq, Hids'|rewrite Hpv_ne by done];
      done.
  - intros p. unfold getProjectVerificationIds.
    destruct (decide (pid = p)) as [<-|Hne];
      [rewrite Hpv_eq, Hids'|rewrite Hpv_ne by done; apply (ok_nodup s Hok)].
    apply NoDup_app. split_and!; [apply (ok_nodup s Hok)| |apply NoDup_singleton].
    intros i Hi ->%list_elem_of_singleton.
    apply (ok_index s Hok) in Hi as (d & Hl & _). congruence.
  - intros p src'. unfold getProjectVerificationIds.
    destruct (decide (pid = p)) as [<-|Hne].
    + rewrite Hpv_eq, Hsrc', Hids', count_where_app.
      unfold of_source at 2. rewrite Hnew. simpl. f_equal.
      rewrite (ok_sources s Hok pid src'). apply count_where_ext.
      intros i Hi. unfold of_source. by rewrite (Hsame pid).
    + rewrite Hpv_ne by done. rewrite (ok_sources s Hok p src').
      apply count_where_ext. intros i Hi. unfold of_source.
      by rewrite (Hsame p).
  - intros p. unfold getProjectVerificationIds.
    destruct (decide (pid = p)) as [<-|Hne].
    + rewrite Hpv_eq, Hv', Hids', count_where_app.
      unfold verified at 2. rewrite Hnew. simpl. rewrite N.add_0_r.
      rewrite (ok_verified s Hok pid). apply count_where_ext.
      intros i Hi. unfold verified. by rewrite (Hsame pid).
    + rewrite Hpv_ne by done. rewrite (ok_verified s Hok p).
      apply count_where_ext. intros i Hi. unfold verified.
      by rewrite (Hsame p).
  - apply (ok_weights s Hok).
  - intros p. unfold getProjectVerificationIds.
    destruct (decide (pid = p)) as [<-|Hne].
    + rewrite Hpv_eq. by left.
    + rewrite Hpv_ne by done. apply (ok_projectId s Hok).
Qed.

(** Rewriting the verification record of a project without touching its
    tracking fields and its verified count keeps the records. *)
Lemma oracle_ok_set_verif (s : state) (p : N) (pv' : ProjectVerification) :
  oracle_ok s → same_tracking (projectVerif s p) pv' →
  pv_verifiedDataCount pv' = pv_verifiedDataCount (projectVerif s p) →
  oracle_ok (set_verif p pv' s).
Proof.
  intros Hok Hsame Hv.
  assert (∀ q, getProjectVerificationIds q (set_verif p pv' s)
               = getProjectVerificationIds q s) as Hids.
  { intros q. unfold getProjectVerificationIds.
    destruct (decide (p = q)) as [<-|Hne].
    - rewrite projectVerif_set_verif_eq. by destruct Hsame as (_ & -> & _).
    - by rewrite projectVerif_set_verif_ne. }
  split.
  - apply (ok_dom s Hok).
  - apply (ok_data s Hok).
  - intros q i. rewrite Hids. apply (ok_index s Hok).
  - intros q. rewrite Hids. apply (ok_nodup s Hok).
  - intros q src. rewrite Hids.
    change (of_source src (set_verif p pv' s)) with (of_source src s).
    rewrite <- (ok_sources s Hok q src).
    destruct (decide (p = q)) as [<-|Hne].
    + rewrite projectVerif_set_verif_eq. by apply source_count_same.
    + by rewrite projectVerif_set_verif_ne.
  - intros q. rewrite Hids.
    change (verified (set_verif p pv' s)) with (verified s).
    rewrite <- (ok_verified s Hok q).
    destruct (decide (p = q)) as [<-|Hne].
    + by rewrite projectVerif_set_verif_eq.
    + by rewrite projectVerif_set_verif_ne.
  - apply (ok_weights s Hok).
  - intros q. rewrite Hids. destruct (decide (p = q)) as [<-|Hne].
    + rewrite projectVerif_set_verif_eq. destruct Hsame as (-> & _).
      apply (ok_projectId s Hok).
    + rewrite projectVerif_set_verif_ne by done. apply (ok_projectId s Hok).
Qed.

(** The status update of a decision keeps the records when the new verified
    count follows the change of status. *)
Lemma oracle_ok_status_updated now vid st notes count (s : state) :
  oracle_ok s → 0 < vid <= verificationIdCounter s →
  count + (if is_verified (v_status (data s vid)) then 1 else 0)
  = pv_verifiedDataCount (projectVerif s (v_projectId (data s vid)))
    + (if is_verified st then 1 else 0) →
  oracle_ok (status_updated now vid st notes count s).
Proof.
  intros Hok Hvid Hcount. unfold status_updated.
  set (d := data s vid) in *. set (pid := v_projectId d) in *.
  set (s1 := set_data vid (with_status st notes d) s).
  pose proof (data_lookup s vid Hok Hvid) as Hl. fold d in Hl.
  assert (∀ q, projectVerif s1 q = projectVerif s q) as Hpv by done.
  assert (∀ i, data s1 i
               = if decide (vid = i) then with_status st notes d else data s i)
    as Hdata.
  { intros i. unfold data at 1. simpl. rewrite lookup_insert.
    by destruct (decide (vid = i)). }
  assert (∀ q, getProjectVerificationIds q
                 (set_verif pid (with_verified count now (projectVerif s pid)) s1)
               = getProjectVerificationIds q s) as Hids.
  { intros q. unfold getProjectVerificationIds.
    destruct (decide (pid = q)) as [<-|Hne].
    - by rewrite projectVerif_set_verif_eq.
    - by rewrite projectVerif_set_verif_ne. }
  assert (vid ∈ getProjectVerificationIds pid s) as Hin.
  { apply (ok_index s Hok). eauto. }
  split.
  - intros i. simpl. destruct (decide (i = vid)) as [->|Hne].
    + rewrite lookup_insert_eq. rewrite <- (ok_dom s Hok), Hl. split; eauto.
    + rewrite lookup_insert_ne by done. apply (ok_dom s Hok).
  - intros i x. simpl. destruct (decide (i = vid)) as [->|Hne].
    + rewrite lookup_insert_eq. intros [= <-].
      destruct (ok_data s Hok vid d Hl) as (? & ? & ?). by repeat split.
    + rewrite lookup_insert_ne by done. apply (ok_data s Hok).
  - intros q i. rewrite Hids. simpl.
    rewrite (index_updated _ vid _ (with_status st notes d) v_projectId i q Hl)
      by done.
    apply (ok_index s Hok).
  - intros q. rewrite Hids. apply (ok_nodup s Hok).
  - intros q src. rewrite Hids.
    rewrite (count_where_ext _ (of_source src s)).
    + rewrite <- (ok_sources s Hok q src).
      destruct (decide (pid = q)) as [<-|Hne].
      * rewrite projectVerif_set_verif_eq. by destruct src.
      * by rewrite projectVerif_set_verif_ne.
    + intros i _. unfold of_source.
      change (data (set_verif _ _ s1) i) with (data s1 i). rewrite Hdata.
      case_decide; [by subst|done].
  - intros q. rewrite Hids. destruct (decide (pid = q)) as [<-|Hne].
    + rewrite projectVerif_set_verif_eq. simpl.
      pose proof (count_where_update (verified s)
                    (verified (set_verif pid
                                 (with_verified count now (projectVerif s pid))
                                 s1))
                    (getProjectVerificationIds pid s) vid
                    (ok_nodup s Hok pid) Hin) as Hupd.
      lapply Hupd.
      * unfold verified at 2 4.
        change (data (set_verif _ _ s1) vid) with (data s1 vid).
        rewrite Hdata, decide_True by done. simpl. fold d.
        pose proof (ok_verified s Hok pid). lia.
      * intros i _ Hne. unfold verified.
        change (data (set_verif _ _ s1) i) with (data s1 i).
        by rewrite Hdata, decide_False by done.
    + rewrite projectVerif_set_verif_ne, Hpv by done.
      rewrite (ok_verified s Hok q). apply count_where_ext.
      intros i Hi. unfold verified.
      change (data (set_verif _ _ s1) i) with (data s1 i). rewrite Hdata.
      case_decide as Hd; [|done]. subst i.
      apply (listed_in_range s q vid Hok) in Hi as [_ Hq]. by destruct Hne.
  - apply (ok_weights s Hok).
  - intros q. rewrite Hids. destruct (decide (pid = q)) as [<-|Hne].
    + rewrite projectVerif_set_verif_eq. apply (ok_projectId s Hok).
    + rewrite projectVerif_set_verif_ne by done. apply (ok_projectId s Hok).
Qed.

(** What a successful [updateVerificationStatus] did, with the caller and
    the new verified count. *)
Lemma updateVerificationStatus_decided sender now vid st notes (w w' : world) :
  updateVerificationStatus sender now vid st notes w = Ok w' →
  let s := oracle w in
  let pid := v_projectId (data s vid) in
  ∃ count,
    let w1 := set_oracle (status_updated now vid st notes count s) w in
    (isAuthorizedVerifier s sender = true ∨ sender = owner s) ∧
    0 < vid <= verificationIdCounter s ∧
    count + (if is_verified (v_status (data s vid)) then 1 else 0)
    = pv_verifiedDataCount (projectVerif s pid)
      + (if is_verified st then 1 else 0) ∧
    (w' = w1 ∨ ∃ q id project, fired now pid w1 w' q id project).
Proof.
  intros Hu. cbv zeta.
  unfold updateVerificationStatus, onlyAuthorizedVerifier in Hu.
  ok_inv. bool_prop.
  match goal with H : (if _ then _ else _) = Ok ?c |- _ =>
    exists c; rename H into Hc end.
  split_and!; [| lia | lia | |by apply _check_Ok in Hu].
  - match goal with H : _ || _ = true |- _ =>
      apply orb_true_iff in H as [?|?%N.eqb_eq]; auto end.
  - change (projectVerif (set_data _ _ (oracle w)) ?p)
      with (projectVerif (oracle w) p) in Hc.
    destruct (is_verified (v_status (data (oracle w) vid))), (is_verified st);
      simpl in Hc; ok_inv; lia.
Qed.

End oracle_records.

Section oracle_runs.
Import Oracle OracleViews.

Lemma at_source_set_source (src src' : DataSource) (v : N) (m : perSource) :
  at_source (set_source src v m) src'
  = if same_source src src' then v else at_source m src'.
Proof. by destruct src, src'. Qed.

Lemma fired_oracle now pid (w w' : world) (q id : N)
    (project : Registry.Project) :
  fired now pid w w' q id project →
  oracle w'
  = set_verif pid
      (with_finalCarbonCredits q (with_completed (projectVerif (oracle w) pid)))
      (oracle w).
Proof. intros (_ & _ & _ & _ & _ & _ & reg & tok & _ & _ & ->). done. Qed.

Lemma exec_oracle_ok (t : tx) (w w' : world) :
  oracle_ok (oracle w) → exec t w = Ok w' → oracle_ok (oracle w').
Proof.
  intros Hok He.
  destruct t as [sender now [c|c|c]]; unfold exec in He; simpl in He.
  - destruct c; simpl in He; unfold lift in He.
    + ok_inv. subst w'. simpl.
      match goal with H : submitVerificationData _ _ _ _ _ _ _ _ = Ok ?r |- _ =>
        destruct r as [s' id]; simpl; by eapply oracle_ok_submit end.
    + apply updateVerificationStatus_decided in He
        as (count & _ & Hvid & Hcount & Hw').
      pose proof (oracle_ok_status_updated now verificationId newStatus notes
                    count (oracle w) Hok Hvid Hcount) as Hok1.
      destruct Hw' as [->|(q & id & project & Hf)]; [done|].
      rewrite (fired_oracle _ _ _ _ _ _ _ Hf). simpl.
      apply oracle_ok_set_verif; [done|by repeat split|done].
    + unfold addVerifier in He. ok_inv. subst. by destruct Hok.
    + unfold removeVerifier in He. ok_inv. subst. by destruct Hok.
    + unfold updateMinimumDataRequirements in He. ok_inv. subst.
      by destruct Hok.
    + unfold updateVerificationWeights in He. ok_inv. bool_prop. subst.
      destruct Hok. split; try done. simpl. intros src.
      rewrite at_source_set_source. by destruct (same_source _ _).
    + unfold transferOwnership in He. ok_inv. subst. by destruct Hok.
    + unfold renounceOwnership in He. ok_inv. subst. by destruct Hok.
  - ok_inv. by subst.
  - ok_inv. by subst.
Qed.

Lemma step_oracle_ok (t : tx) (w : world) :
  oracle_ok (oracle w) → oracle_ok (oracle (step w t)).
Proof.
  intros Hok. unfold step, commit.
  destruct (exec t w) as [w'|] eqn:He; [by eapply exec_oracle_ok|done].
Qed.

Lemma run_oracle_ok (txs : list tx) (w : world) :
  oracle_ok (oracle w) → oracle_ok (oracle (run txs w)).
Proof.
  revert w. induction txs as [|t txs IH]; intros w Hok; simpl; [done|].
  by apply IH, step_oracle_ok.
Qed.

Lemma reachable_oracle_ok (w : world) : reachable w → oracle_ok (oracle w).
Proof.
  intros (this & ro & to & oo & txs & ->).
  apply run_oracle_ok, oracle_ok_constructor.
Qed.

(** *** The weighted average lies between the estimates *)

Lemma weighted_sum_lower (s : state) (ds : list VerificationData) (lo : N) :
  (∀ d, d ∈ ds → lo <= v_carbonCreditsEstimate d) →
  lo * weight_sum s ds <= weighted_sum s ds.
Proof.
  induction ds as [|d ds IH]; intros Hb; simpl; [lia|].
  lapply IH; [intros IH1|intros x Hx; apply Hb; by apply list_elem_of_further].
  pose proof (Hb d (list_elem_of_here _ _)) as Hd.
  set (e := v_carbonCreditsEstimate d) in *. set (x := weight_of s d).
  set (ws := weight_sum s ds) in *. set (wsum := weighted_sum s ds) in *.
  nia.
Qed.

Lemma weighted_sum_upper (s : state) (ds : list VerificationData) (hi : N) :
  (∀ d, d ∈ ds → v_carbonCreditsEstimate d <= hi) →
  weighted_sum s ds <= hi * weight_sum s ds.
Proof.
  induction ds as [|d ds IH]; intros Hb; simpl; [lia|].
  lapply IH; [intros IH1|intros x Hx; apply Hb; by apply list_elem_of_further].
  pose proof (Hb d (list_elem_of_here _ _)) as Hd.
  set (e := v_carbonCreditsEstimate d) in *. set (x := weight_of s d).
  set (ws := weight_sum s ds) in *. set (wsum := weighted_sum s ds) in *.
  nia.
Qed.

Lemma verified_of_listed (s : state) (ids : list N) (d : VerificationData) :
  d ∈ verified_of s ids → ∃ id, id ∈ ids ∧ d = data s id.
Proof.
  induction ids as [|i ids IH]; [by intros ?%elem_of_nil|].
  rewrite verified_of_cons. destruct (is_verified _).
  - intros [->|Hd]%elem_of_cons.
    + exists i. split; [apply list_elem_of_here|done].
    + destruct (IH Hd) as (id & Hid & ->).
      exists id. split; [by apply list_elem_of_further|done].
  - intros Hd. destruct (IH Hd) as (id & Hid & ->).
    exists id. split; [by apply list_elem_of_further|done].
Qed.

Lemma accepted_estimates_positive (s : state) (p : N) (d : VerificationData) :
  oracle_ok s → d ∈ accepted s p → 1 <= v_carbonCreditsEstimate d.
Proof.
  intros Hok Hd. apply verified_of_listed in Hd as (id & Hid & ->).
  apply (ok_index s Hok) in Hid as (d & Hd & _).
  destruct (ok_data s Hok id d Hd) as (_ & _ & He).
  unfold data. rewrite Hd. simpl. lia.
Qed.

(** *** Verdicts *)

Lemma verdicts_ok_constructor (deployer : address) :
  verdicts_ok (constructor deployer).
Proof.
  intros p. unfold projectVerif. simpl. rewrite lookup_empty. simpl.
  split; [done|lia].
Qed.

Lemma verdicts_ok_same (s s' : state) :
  (∀ p, pv_isCompletelyVerified (projectVerif s' p)
        = pv_isCompletelyVerified (projectVerif s p) ∧
        pv_finalCarbonCredits (projectVerif s' p)
        = pv_finalCarbonCredits (projectVerif s p)) →
  verdicts_ok s → verdicts_ok s'.
Proof. intros Hsame Hv p. destruct (Hsame p) as [-> ->]. apply Hv. Qed.

(** The quantity of a completion is positive. *)
Lemma fired_positive now pid (w w' : world) (q id : N)
    (project : Registry.Project) :
  oracle_ok (oracle w) → fired now pid w w' q id project → 1 <= q.
Proof.
  intros Hok (_ & _ & _ & Hpos & -> & _).
  apply N.div_le_lower_bound; [lia|]. rewrite N.mul_comm.
  apply weighted_sum_lower. intros d Hd.
  by eapply accepted_estimates_positive.
Qed.

Lemma exec_verdicts_ok (t : tx) (w w' : world) :
  oracle_ok (oracle w) → verdicts_ok (oracle w) → exec t w = Ok w' →
  verdicts_ok (oracle w').
Proof.
  intros Hok Hv He.
  destruct t as [sender now [c|c|c]]; unfold exec in He; simpl in He.
  - destruct c; simpl in He; unfold lift in He.
    + ok_inv. subst w'. simpl.
      match goal with H : submitVerificationData _ _ _ _ _ _ _ _ = Ok ?r |- _ =>
        destruct r as [s' id]; simpl;
        apply (verdicts_ok_same (oracle w)); [|done];
        intros p; by eapply submit_verdict end.
    + apply updateVerificationStatus_decided in He
        as (count & _ & Hvid & Hcount & Hw').
      pose proof (oracle_ok_status_updated now verificationId newStatus notes
                    count (oracle w) Hok Hvid Hcount) as Hok1.
      assert (verdicts_ok
                (status_updated now verificationId newStatus notes count
                   (oracle w))) as Hv1.
      { apply (verdicts_ok_same (oracle w)); [|done]. intros p.
        destruct (projectVerif_status_updated now verificationId newStatus
                    notes count (oracle w) p) as (? & ? & _). done. }
      destruct Hw' as [->|(q & id & project & Hf)]; [done|].
      pose proof (fired_positive _ _ (set_oracle _ w) _ _ _ _ Hok1 Hf) as Hq.
      rewrite (fired_oracle _ _ _ _ _ _ _ Hf). simpl. intros p.
      destruct (decide (v_projectId (data (oracle w) verificationId) = p))
        as [<-|Hne].
      * rewrite projectVerif_set_verif_eq. simpl. split; [lia|done].
      * rewrite projectVerif_set_verif_ne by done. apply Hv1.
    + unfold addVerifier in He. ok_inv. by subst.
    + unfold removeVerifier in He. ok_inv. by subst.
    + unfold updateMinimumDataRequirements in He. ok_inv. by subst.
    + unfold updateVerificationWeights in He. ok_inv. by subst.
    + unfold transferOwnership in He. ok_inv. by subst.
    + unfold renounceOwnership in He. ok_inv. by subst.
  - ok_inv. by subst.
  - ok_inv. by subst.
Qed.

Lemma run_verdicts_ok (txs : list tx) (w : world) :
  oracle_ok (oracle w) → verdicts_ok (oracle w) →
  verdicts_ok (oracle (run txs w)).
Proof.
  revert w. induction txs as [|t txs IH]; intros w Hok Hv; simpl; [done|].
  apply IH; [by apply step_oracle_ok|]. unfold step, commit.
  destruct (exec t w) as [w'|] eqn:He; [by eapply exec_verdicts_ok|done].
Qed.

Lemma reachable_verdicts_ok (w : world) : reachable w → verdicts_ok (oracle w).
Proof.
  intros (this & ro & to & oo & txs & ->).
  apply run_verdicts_ok;
    [apply oracle_ok_constructor|apply verdicts_ok_constructor].
Qed.

(** *** Submissions are kept *)

Lemma same_submission_refl (d : VerificationData) : same_submission d d.
Proof. by repeat split. Qed.

Lemma same_submission_trans (d1 d2 d3 : VerificationData) :
  same_submission d1 d2 → same_submission d2 d3 → same_submission d1 d3.
Proof.
  intros (? & ? & ? & ? & ? & ? & ?) (? & ? & ? & ? & ? & ? & ?).
  repeat split; congruence.
Qed.

Lemma exec_same_submission (t : tx) (w w' : world) (id : N) :
  oracle_ok (oracle w) → 0 < id <= verificationIdCounter (oracle w) →
  exec t w = Ok w' →
  same_submission (data (oracle w) id) (data (oracle w') id) ∧
  verificationIdCounter (oracle w) <= verificationIdCounter (oracle w').
Proof.
  intros Hok Hid He.
  destruct t as [sender now [c|c|c]]; unfold exec in He; simpl in He.
  - destruct c; simpl in He; unfold lift in He.
    + ok_inv. subst w'. simpl.
      match goal with H : submitVerificationData _ _ _ _ _ _ _ _ = Ok ?r |- _ =>
        destruct r as [s' nid]; simpl;
        destruct (submitVerificationData_Ok _ _ _ _ _ _ _ _ _ _ Hok H)
          as (pv' & -> & _ & _ & _ & _ & _ & _ & _ & _ & _ & _ & ->) end.
      simpl. split; [|lia]. unfold data. simpl.
      rewrite lookup_insert_ne by lia. apply same_submission_refl.
    + apply updateVerificationStatus_decided in He
        as (count & _ & Hvid & Hcount & Hw').
      assert (same_submission (data (oracle w) id)
                (data (status_updated now verificationId newStatus notes count
                         (oracle w)) id)) as Hsame.
      { rewrite data_status_updated. case_decide; [subst|]; by repeat split. }
      destruct Hw' as [->|(q & nid & project & Hf)]; [simpl; split; [done|lia]|].
      rewrite (fired_oracle _ _ _ _ _ _ _ Hf). simpl. split; [done|lia].
    + unfold addVerifier in He. ok_inv. subst.
      split; [apply same_submission_refl|simpl; lia].
    + unfold removeVerifier in He. ok_inv. subst.
      split; [apply same_submission_refl|simpl; lia].
    + unfold updateMinimumDataRequirements in He. ok_inv. subst.
      split; [apply same_submission_refl|simpl; lia].
    + unfold updateVerificationWeights in He. ok_inv. subst.
      split; [apply same_submission_refl|simpl; lia].
    + unfold transferOwnership in He. ok_inv. subst.
      split; [apply same_submission_refl|simpl; lia].
    + unfold renounceOwnership in He. ok_inv. subst.
      split; [apply same_submission_refl|simpl; lia].
  - ok_inv. subst. split; [apply same_submission_refl|simpl; lia].
  - ok_inv. subst. split; [apply same_submission_refl|simpl; lia].
Qed.

Lemma run_same_submission (txs : list tx) (w : world) (id : N) :
  oracle_ok (oracle w) → 0 < id <= verificationIdCounter (oracle w) →
  same_submission (data (oracle w) id) (data (oracle (run txs w)) id) ∧
  verificationIdCounter (oracle w) <= verificationIdCounter (oracle (run txs w)).
Proof.
  revert w. induction txs as [|t txs IH]; intros w Hok Hid; simpl.
  - split; [apply same_submission_refl|lia].
  - assert (same_submission (data (oracle w) id) (data (oracle (step w t)) id) ∧
            verificationIdCounter (oracle w)
            <= verificationIdCounter (oracle (step w t))) as [Hk Hc].
    { unfold step, commit. destruct (exec t w) as [w'|] eqn:He.
      - by eapply exec_same_submission.
      - split; [apply same_submission_refl|lia]. }
    destruct (IH (step w t)) as [Hk' Hc']; [by apply step_oracle_ok|lia|].
    split; [by eapply same_submission_trans|lia].
Qed.

End oracle_runs.

Section oracle_further.
Import Oracle OracleViews.

(** The one way the flag of a project goes from false to true. *)
Lemma exec_completes (t : tx) (w w' : world) (p : N) :
  exec t w = Ok w' → finalized w p = false → finalized w' p = true →
  ∃ vid st notes count q id project,
    tx_target t = ToOracle (UpdateVerificationStatus vid st notes) ∧
    (isAuthorizedVerifier (oracle w) (tx_sender t) = true
     ∨ tx_sender t = owner (oracle w)) ∧
    0 < vid <= verificationIdCounter (oracle w) ∧
    count + (if is_verified (v_status (data (oracle w) vid)) then 1 else 0)
    = pv_verifiedDataCount (projectVerif (oracle w) p)
      + (if is_verified st then 1 else 0) ∧
    v_projectId (data (oracle w) vid) = p ∧
    fired (tx_time t) p
      (set_oracle (status_updated (tx_time t) vid st notes count (oracle w)) w)
      w' q id project.
Proof.
  unfold finalized. intros He Hbefore Hafter.
  destruct t as [sender now [c|c|c]]; unfold exec in He; simpl in He.
  - destruct c; simpl in He; unfold lift in He.
    + ok_inv. subst w'. simpl in Hafter.
      match goal with H : submitVerificationData _ _ _ _ _ _ _ _ = Ok ?r |- _ =>
        destruct r as [s' id];
        destruct (submit_verdict _ _ _ _ _ _ _ _ _ _ p H) as [Hv1 _] end.
      simpl in Hafter. congruence.
    + apply updateVerificationStatus_decided in He
        as (count & Hauth & Hvid & Hcount & Hw').
      destruct (projectVerif_status_updated now verificationId newStatus
                  notes count (oracle w) p) as (Hf1 & _).
      destruct Hw' as [->|(q & id & project & Hf)];
        [simpl in Hafter; congruence|].
      destruct (decide (v_projectId (data (oracle w) verificationId) = p))
        as [Heq|Hne].
      * rewrite Heq in *.
        exists verificationId, newStatus, notes, count, q, id, project.
        destruct Hvid. by split_and!.
      * rewrite (fired_oracle _ _ _ _ _ _ _ Hf) in Hafter. simpl in Hafter.
        rewrite projectVerif_set_verif_ne in Hafter by done.
        simpl in Hafter. congruence.
    + unfold addVerifier in He. ok_inv. subst.
      destruct (eq_true_false_abs _ Hafter Hbefore).
    + unfold removeVerifier in He. ok_inv. subst.
      destruct (eq_true_false_abs _ Hafter Hbefore).
    + unfold updateMinimumDataRequirements in He. ok_inv. subst.
      destruct (eq_true_false_abs _ Hafter Hbefore).
    + unfold updateVerificationWeights in He. ok_inv. subst.
      destruct (eq_true_false_abs _ Hafter Hbefore).
    + unfold transferOwnership in He. ok_inv. subst.
      destruct (eq_true_false_abs _ Hafter Hbefore).
    + unfold renounceOwnership in He. ok_inv. subst.
      destruct (eq_true_false_abs _ Hafter Hbefore).
  - ok_inv. subst. destruct (eq_true_false_abs _ Hafter Hbefore).
  - ok_inv. subst. destruct (eq_true_false_abs _ Hafter Hbefore).
Qed.

Lemma four_accepted_reachable : reachable Scenario.four_accepted.
Proof. exists 9, 1, 1, 1. eexists. reflexivity. Qed.

Lemma five_accepted_reachable : reachable Scenario.five_accepted.
Proof.
  exists 9, 1, 1, 1,
    (Scenario.setup ++ Scenario.evidence
     ++ [Scenario.verify 1; Scenario.verify 2; Scenario.verify 3;
         Scenario.verify 4; Scenario.verify 5]).
  vm_compute. reflexivity.
Qed.

(** X15 ([updateVerificationStatus]: [verifiedDataCount]). In every
    reachable state of the pipeline the verified count kept for a project is
    the number of its submissions whose status is Verified: the increments
    and decrements of [updateVerificationStatus] keep it exact. *)
Theorem verifiedDataCount_is_exact (w : world) (p : N) :
  reachable w →
  pv_verifiedDataCount (getProjectVerification p (oracle w))
  = N.of_nat (length (accepted (oracle w) p)).
Proof.
  intros Hok%reachable_oracle_ok. unfold getProjectVerification, accepted.
  rewrite (ok_verified _ Hok p). apply count_verified.
Qed.

Lemma verifiedDataCount_is_exact_witness :
  pv_verifiedDataCount
    (getProjectVerification 1 (oracle Scenario.four_accepted))
  = N.of_nat (length (accepted (oracle Scenario.four_accepted) 1)).
Proof.
  exact (verifiedDataCount_is_exact Scenario.four_accepted 1
           four_accepted_reachable).
Defined.

(** X16 ([submitVerificationData], [checkVerificationRequirements]). In
    every reachable state the four per-source counters of a project are the
    numbers of its submissions from each source, so
    [checkVerificationRequirements] holds exactly when, for every source, the
    number of the project's submissions from that source has reached the
    minimum set for it. *)
Theorem source_counters_are_exact (w : world) (p : N) :
  reachable w →
  let s := oracle w in
  let submitted src :=
    count_where (of_source src s) (getProjectVerificationIds p s) in
  (∀ src, source_count src (getProjectVerification p s) = submitted src) ∧
  (checkVerificationRequirements p s = true ↔
   ∀ src, at_source (minimumDataRequirements s) src <= submitted src).
Proof.
  intros Hok%reachable_oracle_ok. cbv zeta.
  split; [intros src; apply (ok_sources _ Hok)|].
  unfold checkVerificationRequirements, hasMinimumData.
  rewrite !andb_true_iff, !N.leb_le. split.
  - intros [[[? ?] ?] ?] src. rewrite <- (ok_sources _ Hok p src).
    by destruct src.
  - intros H.
    pose proof (H Community) as H1. pose proof (H Satellite) as H2.
    pose proof (H Drone) as H3. pose proof (H ThirdParty) as H4.
    rewrite <- (ok_sources _ Hok p) in H1, H2, H3, H4. by split_and!.
Qed.

Lemma source_counters_are_exact_witness :
  let s := oracle Scenario.four_accepted in
  let submitted src :=
    count_where (of_source src s) (getProjectVerificationIds 1 s) in
  (∀ src, source_count src (getProjectVerification 1 s) = submitted src) ∧
  (checkVerificationRequirements 1 s = true ↔
   ∀ src, at_source (minimumDataRequirements s) src <= submitted src).
Proof.
  exact (source_counters_are_exact Scenario.four_accepted 1
           four_accepted_reachable).
Defined.

(** X17 ([getProjectVerificationIds], [getVerificationData]). In every
    reachable state the list of verification ids of a project holds, once
    each, exactly the ids issued so far whose submission names that
    project. *)
Theorem verification_ids_are_of_project (w : world) (p : N) :
  reachable w →
  let s := oracle w in
  NoDup (getProjectVerificationIds p s) ∧
  ∀ id, id ∈ getProjectVerificationIds p s ↔
        0 < id <= getTotalVerifications s ∧
        v_projectId (getVerificationData id s) = p.
Proof.
  intros Hok%reachable_oracle_ok s. split; [apply (ok_nodup _ Hok)|].
  intros id. split; [by apply listed_in_range|].
  intros [Hid Hp]. apply (ok_index _ Hok).
  exists (data s id). split; [by apply data_lookup|done].
Qed.

Lemma verification_ids_are_of_project_witness :
  let s := oracle Scenario.four_accepted in
  NoDup (getProjectVerificationIds 1 s) ∧
  ∀ id, id ∈ getProjectVerificationIds 1 s ↔
        0 < id <= getTotalVerifications s ∧
        v_projectId (getVerificationData id s) = 1.
Proof.
  exact (verification_ids_are_of_project Scenario.four_accepted 1
           four_accepted_reachable).
Defined.

(** X18 ([getVerificationData], [submitVerificationData]). In every
    reachable state a submission with an id issued so far has a positive
    project id, an IPFS hash that is not empty and a positive estimate; any
    other id reads as the empty record. *)
Theorem getVerificationData_returns_submitted (w : world) (id : N) :
  reachable w →
  (0 < id <= getTotalVerifications (oracle w) →
   submitted_well (getVerificationData id (oracle w))) ∧
  (¬ 0 < id <= getTotalVerifications (oracle w) →
   getVerificationData id (oracle w) = noData).
Proof.
  intros Hok%reachable_oracle_ok. unfold getTotalVerifications. split.
  - intros Hid. apply (ok_data _ Hok id). by apply data_lookup.
  - intros Hid. unfold getVerificationData, data.
    destruct (verificationData (oracle w) !! id) as [d|] eqn:Hd; [|done].
    destruct Hid. apply (ok_dom _ Hok). eauto.
Qed.

Lemma getVerificationData_returns_submitted_witness :
  submitted_well (getVerificationData 7 (oracle Scenario.four_accepted)).
Proof.
  apply (getVerificationData_returns_submitted Scenario.four_accepted 7
           four_accepted_reachable).
  vm_compute. split; [reflexivity|discriminate].
Defined.

(** X19 ([_checkProjectVerificationCompletion]). A project becomes
    completely verified only in an [updateVerificationStatus] sent by an
    authorised verifier or the owner of the oracle for a submission of that
    project, and only if afterwards the project meets the minimum data
    requirements and the weight of its Verified submissions, in basis points
    of the weight of all its submissions, is at least
    [VERIFICATION_THRESHOLD]. The new status need not be Verified. *)
Theorem completion_needs_coverage_and_score (t : tx) (w w' : world) (p : N) :
  exec t w = Ok w' → finalized w p = false → finalized w' p = true →
  (∃ vid st notes,
     tx_target t = ToOracle (UpdateVerificationStatus vid st notes) ∧
     v_projectId (getVerificationData vid (oracle w)) = p) ∧
  (isAuthorizedVerifier (oracle w) (tx_sender t) = true
   ∨ tx_sender t = owner (oracle w)) ∧
  checkVerificationRequirements p (oracle w') = true ∧
  VERIFICATION_THRESHOLD
  <= weight_sum (oracle w') (accepted (oracle w') p) * 10000
     / weight_sum (oracle w') (submissions (oracle w') p).
Proof.
  intros He Hbefore Hafter.
  destruct (exec_completes t w w' p He Hbefore Hafter)
    as (vid & st & notes & count & q & id & project & Ht & Hauth & _ & _ & Hp
        & Hf).
  split; [by exists vid, st, notes|]. split; [done|].
  rewrite (fired_oracle _ _ _ _ _ _ _ Hf).
  destruct Hf as (Hmin & _ & Hscore & _). simpl in Hmin, Hscore.
  unfold checkVerificationRequirements, accepted, submissions.
  rewrite projectVerif_set_verif_eq. split; [exact Hmin|exact Hscore].
Qed.

Lemma completion_needs_coverage_and_score_witness :
  checkVerificationRequirements 1 (oracle Scenario.five_accepted) = true ∧
  VERIFICATION_THRESHOLD
  <= weight_sum (oracle Scenario.five_accepted)
       (accepted (oracle Scenario.five_accepted) 1) * 10000
     / weight_sum (oracle Scenario.five_accepted)
         (submissions (oracle Scenario.five_accepted) 1).
Proof.
  assert (exec (Scenario.verify 5) Scenario.four_accepted
          = Ok Scenario.five_accepted) as He by (vm_compute; reflexivity).
  destruct (completion_needs_coverage_and_score (Scenario.verify 5)
              Scenario.four_accepted Scenario.five_accepted 1 He)
    as (_ & _ & Hmin & Hscore); [vm_compute; reflexivity..|].
  exact (conj Hmin Hscore).
Defined.

(** X20 ([_calculateFinalCarbonCredits], [_issueCarbonCredits]). When a
    transaction in a reachable state completes a project, the final credits
    are at least 1 and lie between any lower and upper bound of the estimates
    of the project's Verified submissions: the mint of the completion is
    never asked for zero credits. *)
Theorem final_credits_between_estimates (t : tx) (w w' : world) (p : N) :
  reachable w → exec t w = Ok w' →
  finalized w p = false → finalized w' p = true →
  1 <= finalCarbonCredits w' p ∧
  ∀ lo hi,
    (∀ d, d ∈ accepted (oracle w') p → lo <= v_carbonCreditsEstimate d <= hi) →
    lo <= finalCarbonCredits w' p <= hi.
Proof.
  intros Hok%reachable_oracle_ok He Hbefore Hafter.
  destruct (exec_completes t w w' p He Hbefore Hafter)
    as (vid & st & notes & count & q & id & project & _ & _ & Hvid & Hcount
        & Hp & Hf).
  rewrite <- Hp in Hcount.
  pose proof (oracle_ok_status_updated (tx_time t) vid st notes count
                (oracle w) Hok Hvid Hcount) as Hok1.
  pose proof (fired_positive _ _ (set_oracle _ w) _ _ _ _ Hok1 Hf) as Hq.
  unfold finalCarbonCredits, accepted.
  rewrite (fired_oracle _ _ _ _ _ _ _ Hf), projectVerif_set_verif_eq.
  destruct Hf as (_ & _ & _ & Hpos & Hqeq & _). simpl in Hpos, Hqeq. simpl.
  split; [done|]. intros lo hi Hb. rewrite Hqeq. split.
  - apply N.div_le_lower_bound; [lia|]. rewrite N.mul_comm.
    apply weighted_sum_lower. intros d Hd. by apply Hb.
  - apply N.Div0.div_le_upper_bound. rewrite N.mul_comm.
    apply weighted_sum_upper. intros d Hd. by apply Hb.
Qed.

Lemma final_credits_between_estimates_witness :
  1 <= finalCarbonCredits Scenario.five_accepted 1 ∧
  ∀ lo hi,
    (∀ d, d ∈ accepted (oracle Scenario.five_accepted) 1 →
          lo <= v_carbonCreditsEstimate d <= hi) →
    lo <= finalCarbonCredits Scenario.five_accepted 1 <= hi.
Proof.
  assert (exec (Scenario.verify 5) Scenario.four_accepted
          = Ok Scenario.five_accepted) as He by (vm_compute; reflexivity).
  apply (final_credits_between_estimates (Scenario.verify 5)
           Scenario.four_accepted Scenario.five_accepted 1
           four_accepted_reachable He); vm_compute; reflexivity.
Defined.

(** X21 ([_checkProjectVerificationCompletion]: [finalCarbonCredits]). In
    every reachable state a project is completely verified exactly when
    final credits are recorded for it, and these are then positive. *)
Theorem completed_iff_final_credits (w : world) (p : N) :
  reachable w → finalized w p = true ↔ 0 < finalCarbonCredits w p.
Proof. intros Hv%reachable_verdicts_ok. apply Hv. Qed.

Lemma completed_iff_final_credits_witness :
  finalized Scenario.five_accepted 1 = true
  ↔ 0 < finalCarbonCredits Scenario.five_accepted 1.
Proof.
  exact (completed_iff_final_credits Scenario.five_accepted 1
           five_accepted_reachable).
Defined.

(** X22 ([submitVerificationData], [updateVerificationStatus]). A submission
    made in a reachable state keeps its project, source, IPFS hash,
    description, submitter, timestamp and estimate through any further
    transactions; only its status and notes are rewritten, and its id stays
    in use. *)
Theorem submission_is_permanent (w : world) (txs : list tx) (id : N) :
  reachable w →
  0 < id <= getTotalVerifications (oracle w) →
  same_submission (getVerificationData id (oracle w))
    (getVerificationData id (oracle (run txs w))) ∧
  id <= getTotalVerifications (oracle (run txs w)).
Proof.
  intros Hok%reachable_oracle_ok Hid.
  destruct (run_same_submission txs w id Hok Hid) as [Hs Hc].
  split; [done|]. unfold getTotalVerifications in *. lia.
Qed.

Lemma submission_is_permanent_witness :
  let w := Scenario.four_accepted in
  let txs := [Scenario.verify 5] in
  same_submission (getVerificationData 5 (oracle w))
    (getVerificationData 5 (oracle (run txs w))) ∧
  5 <= getTotalVerifications (oracle (run txs w)).
Proof.
  intros w txs.
  apply (submission_is_permanent w txs 5 four_accepted_reachable).
  vm_compute. split; [reflexivity|discriminate].
Defined.

End oracle_further.

(** ** PaymentDistributor: sale records, pending balances and settings *)

Section distributor_records.
Import Distributor DistributorViews.

(** What a successful [recordSaleAndDistribute] did. *)
Lemma recordSaleAndDistribute_Ok accepts sender value now pid bid amount price
    buyer seller (s s' : state) :
  recordSaleAndDistribute accepts sender value now pid bid amount price
    buyer seller s = Ok s' →
  ∃ pending,
    0 < pid ∧ 0 < amount ∧ 0 < price ∧ buyer ≠ 0 ∧ seller ≠ 0 ∧
    price <= value ∧ (value = price ∨ accepts sender = true) ∧
    distribution price (paymentSplit s pid) (pendingWithdrawals s) = Ok pending ∧
    s' = mkState (owner s) (projectPaymentSplits s)
           (<[saleIdCounter s + 1 :=
                mkSale pid bid amount price buyer seller now true]> (sales s))
           pending (platformTreasury s) (defaultPlatformFee s)
           (saleIdCounter s + 1) (etherBalance s + price).
Proof.
  intros Hr. unfold recordSaleAndDistribute, validProjectId in Hr.
  ok_inv. bool_prop. simpl in *.
  unfold _distributePayment in *. ok_inv. simpl in *.
  match goal with H : distribution _ _ _ = Ok ?p |- _ =>
    exists p; rename H into Hd end.
  unfold paymentSplit in Hd. simpl in Hd. fold (paymentSplit s pid) in Hd.
  unfold sale in *. simpl in *. rewrite lookup_insert_eq in *.
  rewrite insert_insert_eq in *. simpl in *.
  destruct (N.ltb_spec price value) as [Hlt|Hge].
  - ok_inv. unfold can_send in *. bool_prop. subst. simpl in *.
    split_and!; try done; try lia.
    + by right.
    + unfold set_etherBalance, with_distributed. simpl. f_equal. lia.
  - ok_inv. subst. split_and!; try done; try lia.
    unfold with_distributed. simpl. f_equal. lia.
Qed.

Lemma sales_ok_init (deployer treasury : address) :
  sales_ok (init deployer treasury).
Proof.
  split; simpl.
  - intros id. rewrite lookup_empty. split; [by intros [? ?]|lia].
  - intros id x. by rewrite lookup_empty.
Qed.

Lemma sales_ok_same (s s' : state) :
  sales s' = sales s → saleIdCounter s' = saleIdCounter s →
  sales_ok s → sales_ok s'.
Proof. intros Hs Hc [Hd Hw]. split; rewrite ?Hs, ?Hc; done. Qed.

Lemma exec_sales accepts (t : tx) (s s' : state) :
  exec accepts t s = Ok s' →
  (sales s' = sales s ∧ saleIdCounter s' = saleIdCounter s) ∨
  ∃ x, sold_well x ∧ saleIdCounter s' = saleIdCounter s + 1 ∧
       sales s' = <[saleIdCounter s + 1 := x]> (sales s).
Proof.
  intros He. destruct t as [sender value now c]. unfold exec in He.
  simpl in He. destruct c.
  - unfold configurePaymentSplit in He. ok_inv. subst. by left.
  - apply recordSaleAndDistribute_Ok in He
      as (pending & ? & ? & ? & ? & ? & _ & _ & _ & ->).
    right. eexists. split; [|done]. by repeat split.
  - unfold withdraw in He. ok_inv. subst. by left.
  - unfold emergencyWithdraw in He. ok_inv. subst. by left.
  - unfold updatePlatformTreasury in He. ok_inv. subst. by left.
  - unfold updateDefaultPlatformFee in He. ok_inv. subst. by left.
  - unfold receive in He. ok_inv. subst. by left.
Qed.

Lemma sales_ok_exec accepts (t : tx) (s s' : state) :
  sales_ok s → exec accepts t s = Ok s' → sales_ok s'.
Proof.
  intros Hok He.
  destruct (exec_sales accepts t s s' He) as [[Hs Hc]|(x & Hx & Hc & Hs)];
    [by eapply sales_ok_same|].
  destruct Hok as [Hd Hw]. split; rewrite Hs, ?Hc.
  - intros id. destruct (decide (id = saleIdCounter s + 1)) as [->|Hne].
    + rewrite lookup_insert_eq. split; [lia|eauto].
    + rewrite lookup_insert_ne by done. rewrite Hd. lia.
  - intros id y. destruct (decide (id = saleIdCounter s + 1)) as [->|Hne].
    + rewrite lookup_insert_eq. by intros [= <-].
    + rewrite lookup_insert_ne by done. apply Hw.
Qed.

Lemma sales_ok_step accepts (t : tx) (s : state) :
  sales_ok s → sales_ok (step accepts s t).
Proof.
  intros Hok. unfold step, commit.
  destruct (exec accepts t s) as [s'|] eqn:He; [by eapply sales_ok_exec|done].
Qed.

Lemma sales_ok_run accepts (txs : list tx) (s : state) :
  sales_ok s → sales_ok (run accepts txs s).
Proof.
  revert s. induction txs as [|t txs IH]; intros s Hok; simpl; [done|].
  by apply IH, sales_ok_step.
Qed.

Lemma sales_ok_reachable (s : state) : reachable s → sales_ok s.
Proof.
  intros (accepts & deployer & treasury & txs & ->).
  apply sales_ok_run, sales_ok_init.
Qed.

(** A recorded sale is not written again. *)
Lemma sale_kept_exec accepts (t : tx) (s s' : state) (id : N) :
  sales_ok s → 0 < id <= saleIdCounter s → exec accepts t s = Ok s' →
  sale s' id = sale s id ∧ saleIdCounter s <= saleIdCounter s'.
Proof.
  intros Hok Hid He. unfold sale.
  destruct (exec_sales accepts t s s' He) as [[-> ->]|(x & _ & -> & ->)];
    [split; [done|lia]|].
  rewrite lookup_insert_ne by lia. split; [done|lia].
Qed.

Lemma sale_kept_run accepts (txs : list tx) (s : state) (id : N) :
  sales_ok s → 0 < id <= saleIdCounter s →
  sale (run accepts txs s) id = sale s id ∧
  saleIdCounter s <= saleIdCounter (run accepts txs s).
Proof.
  revert s. induction txs as [|t txs IH]; intros s Hok Hid; simpl;
    [split; [done|lia]|].
  assert (sale (step accepts s t) id = sale s id ∧
          saleIdCounter s <= saleIdCounter (step accepts s t)) as [Hk Hc].
  { unfold step, commit. destruct (exec accepts t s) as [s'|] eqn:He.
    - by eapply sale_kept_exec.
    - split; [done|lia]. }
  destruct (IH (step accepts s t)) as [Hk' Hc'];
    [by apply sales_ok_step|lia|].
  split; [congruence|lia].
Qed.

(** *** Pending balances only grow in a settlement *)

Lemma credit_mono (wallet : address) (amount : N)
    (pending pending' : gmap address N) (a : address) :
  credit wallet amount pending = Ok pending' → rd pending a <= rd pending' a.
Proof.
  unfold credit. destruct (0 <? amount); intros Hc; ok_inv; subst; [|lia].
  destruct (decide (wallet = a)) as [->|Hne].
  - rewrite rd_insert_eq. lia.
  - rewrite rd_insert_ne by done. lia.
Qed.

Lemma distribute_mono (price : N) (ws : list address) (ps : list N)
    (pending pending' : gmap address N) (a : address) :
  distribute price ws ps pending = Ok pending' → rd pending a <= rd pending' a.
Proof.
  revert ps pending. induction ws as [|w ws IH]; intros ps pending Hd;
    simpl in Hd; [ok_inv; subst; lia|].
  destruct ps as [|p ps]; [discriminate|]. ok_inv.
  match goal with H : credit _ _ _ = Ok _ |- _ =>
    apply (credit_mono _ _ _ _ a) in H end.
  apply IH in Hd. lia.
Qed.

Lemma distribution_mono (price : N) (split : PaymentSplit)
    (pending pending' : gmap address N) (a : address) :
  distribution price split pending = Ok pending' →
  rd pending a <= rd pending' a.
Proof.
  unfold distribution. intros Hd. ok_inv.
  repeat match goal with
  | H : distribute _ _ _ _ = Ok _ |- _ => apply (distribute_mono _ _ _ _ _ a) in H
  | H : credit _ _ _ = Ok _ |- _ => apply (credit_mono _ _ _ _ a) in H
  end.
  lia.
Qed.

End distributor_records.

Section distributor_further.
Import Distributor DistributorViews.

Lemma sold_reachable : reachable Scenario.sold.
Proof.
  exists Scenario.everyone, 1, 6, [Scenario.configure_split; Scenario.sale_1000].
  reflexivity.
Qed.

(** X23 ([getSale], [recordSaleAndDistribute]). In every reachable state a
    sale with an id issued so far has a positive project id, quantity and
    price, a buyer and a seller other than the zero address, and is marked
    distributed: no sale is ever left recorded and not distributed. Any other
    id reads as the empty record. *)
Theorem getSale_returns_distributed (s : state) (id : N) :
  reachable s →
  (0 < id <= getTotalSales s → sold_well (getSale id s)) ∧
  (¬ 0 < id <= getTotalSales s → getSale id s = noSale).
Proof.
  intros Hok%sales_ok_reachable. unfold getTotalSales, getSale, sale. split.
  - intros Hid. apply (sales_dom s Hok) in Hid as [x Hx]. rewrite Hx.
    by apply (sales_well s Hok id).
  - intros Hid. destruct (sales s !! id) as [x|] eqn:Hx; [|done].
    destruct Hid. apply (sales_dom s Hok). eauto.
Qed.

Lemma getSale_returns_distributed_witness :
  sold_well (getSale 1 Scenario.sold).
Proof.
  apply (getSale_returns_distributed Scenario.sold 1 sold_reachable).
  vm_compute. split; [reflexivity|discriminate].
Defined.

(** X24 ([recordSaleAndDistribute] and the other calls). A sale recorded in
    a reachable state reads the same after any further transactions, whoever
    accepts ether: sale records are written once. *)
Theorem sale_is_permanent accepts (s : state) (txs : list tx) (id : N) :
  reachable s → 0 < id <= getTotalSales s →
  getSale id (run accepts txs s) = getSale id s ∧
  id <= getTotalSales (run accepts txs s).
Proof.
  intros Hok%sales_ok_reachable Hid. unfold getTotalSales, getSale in *.
  destruct (sale_kept_run accepts txs s id Hok Hid) as [Hk Hc].
  split; [done|lia].
Qed.

Lemma sale_is_permanent_witness :
  let txs := [Scenario.drain; Scenario.sale_1000] in
  getSale 1 (run Scenario.everyone txs Scenario.sold)
  = getSale 1 Scenario.sold ∧
  1 <= getTotalSales (run Scenario.everyone txs Scenario.sold).
Proof.
  intros txs.
  apply (sale_is_permanent Scenario.everyone Scenario.sold txs 1
           sold_reachable).
  vm_compute. split; [reflexivity|discriminate].
Defined.

(** X25 ([configurePaymentSplit], [updateDefaultPlatformFee],
    [_distributePayment]). In every reachable state the default platform fee
    is at most 1000 basis points and the configuration of every project has
    one percentage per wallet and adds up to at most 11000 basis points; the
    shares it assigns of any price add up to at most the price times its
    total over 10000, hence to at most 110% of the price. *)
Theorem shares_within_stored_total (s : state) (pid price : N) :
  reachable s →
  let split := getPaymentSplit pid s in
  defaultPlatformFee s <= 1000 ∧ aligned split ∧ stored_total split <= 11000 ∧
  10000 * total_shares price split <= price * stored_total split ∧
  10000 * total_shares price split <= 11000 * price.
Proof.
  intros [Hfee Hcfg]%distributor_reachable_inv. cbv zeta.
  assert (aligned (getPaymentSplit pid s) ∧
          stored_total (getPaymentSplit pid s) <= 11000) as [Hal Hst].
  { unfold getPaymentSplit, paymentSplit.
    destruct (projectPaymentSplits s !! pid) as [split|] eqn:Hs; simpl.
    - by apply (Hcfg pid).
    - split; [by repeat split|]. unfold stored_total. simpl. lia. }
  assert (10000 * total_shares price (getPaymentSplit pid s)
          <= price * stored_total (getPaymentSplit pid s)) as Hsh.
  { unfold total_shares, stored_total.
    pose proof (shares_le price (communityPercentages (getPaymentSplit pid s))).
    pose proof (shares_le price (ngoPercentages (getPaymentSplit pid s))).
    pose proof (shares_le price (verifierPercentages (getPaymentSplit pid s))).
    pose proof (N.Div0.mul_div_le
                  (price * platformPercentage (getPaymentSplit pid s)) 10000).
    lia. }
  split_and!; try done. nia.
Qed.

Lemma shares_within_stored_total_witness :
  let split := getPaymentSplit 1 Scenario.sold in
  defaultPlatformFee Scenario.sold <= 1000 ∧ aligned split ∧
  stored_total split <= 11000 ∧
  10000 * total_shares 1000 split <= 1000 * stored_total split ∧
  10000 * total_shares 1000 split <= 11000 * 1000.
Proof.
  exact (shares_within_stored_total Scenario.sold 1 1000 sold_reachable).
Defined.

End distributor_further.

(** ** GeoDataRegistry: positions, verdicts and the loops of the views *)

Section geodata.
Import GeoData.

Lemma submission_set_submission (s : state) (i j : N) (x : DataSubmission) :
  submission (set_submission i x s) j
  = if decide (j = i) then x else submission s j.
Proof.
  unfold submission. simpl. case_decide as Hd.
  - subst. by rewrite lookup_insert_eq.
  - by rewrite lookup_insert_ne.
Qed.

Lemma submissions_set_members (r : role) (m : gset address) (s : state) :
  submissions (set_members r m s) = submissions s ∧
  submissionIdCounter (set_members r m s) = submissionIdCounter s.
Proof. by destruct r. Qed.

(** What a transaction does to the submissions: nothing, one record
    rewritten in place, or a new record under the next id. *)
Inductive effect (s s' : state) : Prop :=
| effect_none :
    submissions s' = submissions s →
    submissionIdCounter s' = submissionIdCounter s → effect s s'
| effect_verified (sender : address) (now i credits : N) (notes : string) :
    i <= submissionIdCounter s →
    ds_isVerified (submission s i) = false →
    submissions s'
    = <[i := with_verification sender now notes credits (submission s i)]>
        (submissions s) →
    submissionIdCounter s' = submissionIdCounter s → effect s s'
| effect_moved (i : N) (latitude longitude : Z) :
    i <= submissionIdCounter s →
    valid_latitude latitude = true → valid_longitude longitude = true →
    submissions s'
    = <[i := with_position latitude longitude (submission s i)]>
        (submissions s) →
    submissionIdCounter s' = submissionIdCounter s → effect s s'
| effect_submitted (x : DataSubmission) :
    position_ok x → ds_isVerified x = false →
    submissions s'
    = <[unchecked_add (submissionIdCounter s) 1 := x]> (submissions s) →
    submissionIdCounter s' = unchecked_add (submissionIdCounter s) 1 →
    effect s s'.

Lemma exec_effect (t : tx) (s s' : state) : exec t s = Ok s' → effect s s'.
Proof.
  intros He. destruct t as [sender now c]. unfold exec in He. simpl in He.
  destruct c.
  - unfold submitGeoData in He. ok_inv. simplify_eq. simpl.
    eapply effect_submitted; cycle 2; [reflexivity|reflexivity|..].
    + by split.
    + done.
  - unfold verifySubmission in He. ok_inv. bool_prop. subst s'.
    eapply effect_verified; [done| |done..].
    by destruct (ds_isVerified _).
  - unfold updateLocation in He. ok_inv. bool_prop. subst s'.
    by eapply effect_moved.
  - unfold grantSubmitterRole, _grantRole in He. ok_inv. subst s'.
    by apply effect_none.
  - unfold grantVerifierRole, _grantRole in He. ok_inv. subst s'.
    by apply effect_none.
  - unfold grantRole, _grantRole in He. ok_inv. subst s'.
    apply effect_none; apply submissions_set_members.
  - unfold revokeRole, _revokeRole in He. ok_inv. subst s'.
    apply effect_none; apply submissions_set_members.
  - unfold renounceRole, _revokeRole in He. ok_inv. subst s'.
    apply effect_none; apply submissions_set_members.
Qed.

(** *** Positions *)

Lemma positions_constructor (deployer : address) (i : N) :
  position_ok (submission (constructor deployer) i).
Proof. unfold submission. simpl. by rewrite lookup_empty. Qed.

Lemma positions_exec (t : tx) (s s' : state) :
  (∀ i, position_ok (submission s i)) → exec t s = Ok s' →
  ∀ i, position_ok (submission s' i).
Proof.
  intros Hpos He i. unfold submission in *.
  destruct (exec_effect t s s' He)
    as [->|sender now j credits notes _ _ ->|j la lo _ Hla Hlo ->|x Hx _ ->];
    [apply Hpos|..].
  - destruct (decide (i = j)) as [->|Hne];
      [rewrite lookup_insert_eq; apply (Hpos j)
      |rewrite lookup_insert_ne by done; apply Hpos].
  - destruct (decide (i = j)) as [->|Hne];
      [rewrite lookup_insert_eq; by split
      |rewrite lookup_insert_ne by done; apply Hpos].
  - destruct (decide (i = unchecked_add (submissionIdCounter s) 1))
      as [->|Hne];
      [by rewrite lookup_insert_eq
      |rewrite lookup_insert_ne by done; apply Hpos].
Qed.

Lemma positions_run (txs : list tx) (s : state) :
  (∀ i, position_ok (submission s i)) →
  ∀ i, position_ok (submission (run txs s) i).
Proof.
  revert s. induction txs as [|t txs IH]; intros s Hpos; simpl; [done|].
  apply IH. unfold step, commit.
  destruct (exec t s) as [s'|] eqn:He; [by eapply positions_exec|done].
Qed.

(** *** Verdicts *)

Lemma unchecked_add_1 (n : N) : n < MAX_UINT256 → unchecked_add n 1 = n + 1.
Proof.
  intros Hn. unfold unchecked_add. apply N.mod_small.
  unfold MAX_UINT256 in *. lia.
Qed.

Lemma counter_exec (t : tx) (s s' : state) :
  submissionIdCounter s < MAX_UINT256 → exec t s = Ok s' →
  submissionIdCounter s <= submissionIdCounter s' <= submissionIdCounter s + 1.
Proof.
  intros Hc He.
  destruct (exec_effect t s s' He) as [_ ->|? ? ? ? ? _ _ _ ->|? ? ? _ _ _ _ ->
                                      |? _ _ _ ->];
    rewrite ?unchecked_add_1 by done; lia.
Qed.

Lemma same_verdict_refl (x : DataSubmission) : same_verdict x x.
Proof. by repeat split. Qed.

Lemma same_verdict_trans (x1 x2 x3 : DataSubmission) :
  same_verdict x1 x2 → same_verdict x2 x3 → same_verdict x1 x3.
Proof.
  intros (? & ? & ? & ? & ?) (? & ? & ? & ? & ?). repeat split; congruence.
Qed.

Lemma verdict_exec (t : tx) (s s' : state) (i : N) :
  submissionIdCounter s < MAX_UINT256 → i <= submissionIdCounter s →
  ds_isVerified (submission s i) = true → exec t s = Ok s' →
  same_verdict (submission s i) (submission s' i).
Proof.
  intros Hc Hi Hv He. unfold submission in *.
  destruct (exec_effect t s s' He)
    as [->|sender now j credits notes _ Hnot ->|j la lo _ _ _ ->|x _ _ ->];
    [apply same_verdict_refl|..].
  - destruct (decide (i = j)) as [->|Hne];
      [unfold submission in Hnot; congruence
      |rewrite lookup_insert_ne by done; apply same_verdict_refl].
  - destruct (decide (i = j)) as [->|Hne];
      [rewrite lookup_insert_eq; by repeat split
      |rewrite lookup_insert_ne by done; apply same_verdict_refl].
  - rewrite unchecked_add_1 by done.
    rewrite lookup_insert_ne by lia. apply same_verdict_refl.
Qed.

Lemma verdict_run (txs : list tx) (s : state) (i : N) :
  submissionIdCounter s + N.of_nat (length txs) <= MAX_UINT256 →
  i <= submissionIdCounter s → ds_isVerified (submission s i) = true →
  same_verdict (submission s i) (submission (run txs s) i) ∧
  i <= submissionIdCounter (run txs s).
Proof.
  revert s. induction txs as [|t txs IH]; intros s Hc Hi Hv; simpl.
  - split; [apply same_verdict_refl|done].
  - simpl length in Hc.
    assert (same_verdict (submission s i) (submission (step s t) i) ∧
            submissionIdCounter s <= submissionIdCounter (step s t)
            <= submissionIdCounter s + 1) as [Hk Hs].
    { unfold step, commit. destruct (exec t s) as [s'|] eqn:He.
      - split; [apply (verdict_exec t); (done || lia)
               |apply (counter_exec t); (done || lia)].
      - split; [apply same_verdict_refl|lia]. }
    destruct (IH (step s t)) as [Hk' Hi']; [lia|lia| |].
    + destruct Hk as (-> & _). done.
    + split; [by eapply same_verdict_trans|done].
Qed.

End geodata.

Section geodata_loops.
Import GeoData.

Lemma ids_from_bounds (i : N) (n : nat) (x : N) :
  x ∈ ids_from i n ↔ i <= x < i + N.of_nat n.
Proof.
  revert i. induction n as [|n IH]; intros i; simpl ids_from.
  - split; [by intros ?%elem_of_nil|lia].
  - rewrite elem_of_cons, IH. lia.
Qed.

Lemma ids_upto_bounds (n x : N) : x ∈ ids_upto n ↔ 0 < x <= n.
Proof. unfold ids_upto. rewrite ids_from_bounds. lia. Qed.

Lemma checked_add_fits (a b : N) :
  a + b <= MAX_UINT256 → checked_add a b = Ok (a + b).
Proof. intros H. unfold checked_add. by apply N.leb_le in H as ->. Qed.

(** The first loop of [getSubmissionsInArea] collects the ids in the area,
    in order. *)
Lemma area_loop_Ok (todo : nat) (s : state) (a b c d : Z) (i : N)
    (found : list N) (room : nat) :
  (todo <= room)%nat →
  i + N.of_nat todo <= MAX_UINT256 →
  N.of_nat (length found) + N.of_nat todo <= MAX_UINT256 →
  let hits := filter (λ i, in_area a b c d (ds_location (submission s i)) = true)
                (ids_from i todo) in
  area_loop todo s a b c d i (found ++ replicate room 0)
    (N.of_nat (length found))
  = Ok ((found ++ hits) ++ replicate (room - length hits) 0,
        N.of_nat (length (found ++ hits))).
Proof.
  revert i found room.
  induction todo as [|todo IH]; intros i found room Hroom Hi Hc; cbv zeta.
  - simpl. by rewrite app_nil_r, Nat.sub_0_r.
  - simpl ids_from. cbn [area_loop].
    destruct (in_area a b c d (ds_location (submission s i))) eqn:Hin.
    + rewrite filter_cons_True by done.
      rewrite Nat2N.id, length_app, length_replicate.
      destruct room as [|room]; [lia|].
      assert ((length found <? length found + S room)%nat = true) as ->
        by (apply Nat.ltb_lt; lia).
      rewrite (checked_add_fits (N.of_nat (length found)) 1) by lia.
      rewrite !Ok_bind. cbn [fst snd].
      rewrite (checked_add_fits i 1), Ok_bind by lia.
      assert (<[length found := i]> (found ++ replicate (S room) 0)
              = (found ++ [i]) ++ replicate room 0) as ->.
      { rewrite insert_app_r_alt by lia. rewrite Nat.sub_diag. simpl.
        by rewrite <- app_assoc. }
      assert (N.of_nat (length found) + 1 = N.of_nat (length (found ++ [i])))
        as -> by (rewrite length_app; simpl; lia).
      rewrite IH; [|lia|lia|rewrite length_app; simpl; lia].
      rewrite <- !app_assoc. simpl. done.
    + rewrite filter_cons_False by (rewrite Hin; done).
      rewrite !Ok_bind. cbn [fst snd].
      rewrite (checked_add_fits i 1), Ok_bind by lia.
      rewrite IH; [done|lia|lia|lia].
Qed.

(** The second loop copies the entries in use. *)
Lemma copy_loop_Ok (todo j : nat) (result : list N) :
  (j + todo <= length result)%nat → N.of_nat (j + todo) <= MAX_UINT256 →
  copy_loop todo (N.of_nat j) result (take j result ++ replicate todo 0)
  = Ok (take (j + todo) result).
Proof.
  revert j. induction todo as [|todo IH]; intros j Hlen Hmax.
  - simpl. by rewrite app_nil_r, Nat.add_0_r.
  - cbn [copy_loop]. rewrite Nat2N.id.
    destruct (result !! j) as [x|] eqn:Hx;
      [|apply lookup_ge_None in Hx; lia].
    rewrite length_app, length_take, length_replicate.
    assert ((j <? j `min` length result + S todo)%nat = true) as ->
      by (apply Nat.ltb_lt; lia).
    rewrite (checked_add_fits (N.of_nat j) 1), Ok_bind by lia.
    assert (<[j := x]> (take j result ++ replicate (S todo) 0)
            = take (S j) result ++ replicate todo 0) as ->.
    { rewrite insert_app_r_alt by (rewrite length_take; lia).
      rewrite length_take, Nat.min_l by lia. rewrite Nat.sub_diag. simpl.
      rewrite (take_S_r _ _ x) by done. by rewrite <- app_assoc. }
    replace (N.of_nat j + 1) with (N.of_nat (S j)) by lia.
    rewrite IH by lia. f_equal. f_equal. lia.
Qed.

Lemma getSubmissionsInArea_Ok (a b c d : Z) (s : state) :
  submissionIdCounter s < MAX_UINT256 →
  getSubmissionsInArea a b c d s = Ok (ids_in_area a b c d s).
Proof.
  intros Hc. unfold getSubmissionsInArea, ids_in_area, ids_upto.
  set (n := N.to_nat (submissionIdCounter s)).
  set (hits := filter _ (ids_from 1 n)).
  assert (length hits <= n)%nat as Hlen.
  { unfold hits. etrans; [apply length_filter|].
    clear. generalize 1. induction n as [|n IH]; intros i; simpl; [done|].
    specialize (IH (i + 1)). lia. }
  pose proof (area_loop_Ok n s a b c d 1 [] n) as Hloop.
  cbv zeta in Hloop. cbn [app length] in Hloop.
  change (N.of_nat 0) with 0 in Hloop. fold hits in Hloop.
  rewrite Hloop by (unfold n; lia).
  rewrite Ok_bind. cbn [fst snd]. rewrite Nat2N.id.
  pose proof (copy_loop_Ok (length hits) 0
                (hits ++ replicate (n - length hits) 0)) as Hcopy.
  rewrite take_0 in Hcopy. cbn [app Nat.add] in Hcopy.
  change (N.of_nat 0) with 0 in Hcopy.
  rewrite Hcopy.
  - by rewrite take_app_length.
  - rewrite length_app, length_replicate. lia.
  - unfold n in Hlen. lia.
Qed.

(** The loop of [getStatistics] counts the verified submissions and adds up
    their awards. *)
Lemma statistics_loop_Ok (todo : nat) (s : state) (i v c : N) :
  let vs := filter (λ i, ds_isVerified (submission s i) = true)
              (ids_from i todo) in
  i + N.of_nat todo <= MAX_UINT256 →
  v + N.of_nat todo <= MAX_UINT256 →
  c + awarded s vs <= MAX_UINT256 →
  statistics_loop todo s i v c
  = Ok (v + N.of_nat (length vs), c + awarded s vs).
Proof.
  revert i v c. induction todo as [|todo IH]; intros i v c; cbv zeta.
  - intros _ _ _. simpl. by rewrite !N.add_0_r.
  - simpl ids_from. cbn [statistics_loop]. intros Hi Hv Hc.
    destruct (ds_isVerified (submission s i)) eqn:Hver.
    + rewrite filter_cons_True in * by done. simpl in Hc.
      rewrite (checked_add_fits v 1), Ok_bind by lia.
      rewrite (checked_add_fits c (ds_carbonCreditsAwarded (submission s i))),
        !Ok_bind by lia.
      cbn [fst snd]. rewrite (checked_add_fits i 1), Ok_bind by lia.
      rewrite IH by lia. simpl. f_equal. f_equal; lia.
    + rewrite filter_cons_False in * by (rewrite Hver; done).
      rewrite !Ok_bind. cbn [fst snd].
      rewrite (checked_add_fits i 1), Ok_bind by lia.
      by rewrite IH by lia.
Qed.

End geodata_loops.

Section geodata_further.
Import GeoData.

Lemma survey_reachable : reachable (run survey (constructor 1)).
Proof. by exists 1, survey. Qed.

(** X27 ([submitGeoData], [updateLocation], [getSubmission]). In every
    reachable state the position that [getSubmission] returns has a latitude
    between -90 and 90 degrees and a longitude between -180 and 180 degrees
    (in millionths of a degree), for every id it accepts, the id 0 that was
    never issued included: both functions that write a position validate
    it. *)
Theorem getSubmission_position_valid (s : state) (i : N)
    (id : N) (submitter : address) (projectId projectType : string)
    (location : GPSCoordinates) (description : string) (submissionTime : N)
    (isVerified : bool) (carbonCreditsAwarded : N) :
  reachable s →
  getSubmission i s
  = Ok (id, submitter, projectId, projectType, location, description,
        submissionTime, isVerified, carbonCreditsAwarded) →
  (-90000000 <= gps_latitude location <= 90000000)%Z ∧
  (-180000000 <= gps_longitude location <= 180000000)%Z.
Proof.
  intros (deployer & txs & ->) Hg. unfold getSubmission in Hg. ok_inv.
  simplify_eq.
  destruct (positions_run txs (constructor deployer)
              (positions_constructor deployer) i) as [Hla Hlo].
  unfold valid_latitude, valid_longitude, within in *.
  apply andb_true_iff in Hla as [?%Z.leb_le ?%Z.leb_le].
  apply andb_true_iff in Hlo as [?%Z.leb_le ?%Z.leb_le]. done.
Qed.

Lemma getSubmission_position_valid_witness :
  let s := run survey (constructor 1) in
  let location := ds_location (submission s 2) in
  (-90000000 <= gps_latitude location <= 90000000)%Z ∧
  (-180000000 <= gps_longitude location <= 180000000)%Z.
Proof.
  intros s location.
  assert (getSubmission 2 s
          = Ok (2, 4, "P-1", "mangrove", location, "south plot", 12, false, 0))
    as Hg by (vm_compute; reflexivity).
  exact (getSubmission_position_valid s 2 _ _ _ _ location _ _ _ _
           survey_reachable Hg).
Defined.

(** X28 ([verifySubmission], [submitGeoData], [updateLocation]). A verification
    is final: as long as the submission counter has not wrapped around, a
    submission that is verified stays verified through any further
    transactions, with the same verifier, time, notes and awarded credits,
    and every further [verifySubmission] of it reverts. *)
Theorem verification_is_final (s : state) (txs : list tx) (i : N) :
  getTotalSubmissions s + N.of_nat (length txs) <= MAX_UINT256 →
  i <= getTotalSubmissions s → ds_isVerified (submission s i) = true →
  same_verdict (submission s i) (submission (run txs s) i) ∧
  ∀ sender now approved carbonCredits notes,
    is_ok (verifySubmission sender now i approved carbonCredits notes
             (run txs s)) = false.
Proof.
  unfold getTotalSubmissions. intros Hc Hi Hv.
  destruct (verdict_run txs s i Hc Hi Hv) as [Hk Hi']. split; [done|].
  intros sender now approved credits notes. unfold verifySubmission.
  destruct Hk as (Hver & _). rewrite Hver, Hv. simpl.
  destruct (onlyRole _ _ _); [|done]. rewrite Ok_bind.
  by destruct (require _ _).
Qed.

Lemma verification_is_final_witness :
  let s := run survey (constructor 1) in
  let txs := [mkTx 1 20 (VerifySubmission 1 true 900 "once more");
              mkTx 1 21 (UpdateLocation 1 0 0);
              mkTx 4 22 (SubmitGeoData "P-2" "seagrass" 100 200 0 0 "bay"
                           ["QmD"] [10] ["d.jpg"])] in
  same_verdict (submission s 1) (submission (run txs s) 1) ∧
  ∀ sender now approved carbonCredits notes,
    is_ok (verifySubmission sender now 1 approved carbonCredits notes
             (run txs s)) = false.
Proof.
  intros s txs. apply (verification_is_final s txs 1).
  - vm_compute. discriminate.
  - vm_compute. discriminate.
  - vm_compute. reflexivity.
Defined.

(** X29 ([getSubmissionsInArea]). While the submission counter is below its
    maximum, [getSubmissionsInArea] returns, in ascending order and once
    each, exactly the ids issued so far whose stored position lies in the
    rectangle: its two loops over the memory arrays neither miss an id nor
    read or write out of bounds. *)
Theorem getSubmissionsInArea_lists_area
    (minLatitude maxLatitude minLongitude maxLongitude : Z) (s : state) :
  getTotalSubmissions s < MAX_UINT256 →
  getSubmissionsInArea minLatitude maxLatitude minLongitude maxLongitude s
  = Ok (ids_in_area minLatitude maxLatitude minLongitude maxLongitude s) ∧
  ∀ i, i ∈ ids_in_area minLatitude maxLatitude minLongitude maxLongitude s ↔
       0 < i <= getTotalSubmissions s ∧
       (minLatitude <= gps_latitude (ds_location (submission s i))
        <= maxLatitude)%Z ∧
       (minLongitude <= gps_longitude (ds_location (submission s i))
        <= maxLongitude)%Z.
Proof.
  unfold getTotalSubmissions. intros Hc.
  split; [by apply getSubmissionsInArea_Ok|]. intros i.
  unfold ids_in_area. rewrite list_elem_of_filter, ids_upto_bounds.
  unfold in_area. rewrite !andb_true_iff, !Z.leb_le. tauto.
Qed.

Lemma getSubmissionsInArea_lists_area_witness :
  let s := run survey (constructor 1) in
  getSubmissionsInArea (-90000000) 0 0 180000000 s
  = Ok (ids_in_area (-90000000) 0 0 180000000 s) ∧
  ∀ i, i ∈ ids_in_area (-90000000) 0 0 180000000 s ↔
       0 < i <= getTotalSubmissions s ∧
       (-90000000 <= gps_latitude (ds_location (submission s i)) <= 0)%Z ∧
       (0 <= gps_longitude (ds_location (submission s i)) <= 180000000)%Z.
Proof.
  intros s. apply (getSubmissionsInArea_lists_area (-90000000) 0 0 180000000 s).
  vm_compute. reflexivity.
Defined.

(** X30 ([getStatistics]). While the submission counter is below its maximum and
    the awards of the verified submissions add up to at most [2^256 - 1],
    [getStatistics] returns the counter, the number of verified submissions
    among the ids issued so far, the sum of their awards, and 0 for the
    unique submitters, which it never computes; the verified submissions are
    at most the total. *)
Theorem getStatistics_counts_verified (s : state) :
  getTotalSubmissions s < MAX_UINT256 →
  awarded s (verified_ids s) <= MAX_UINT256 →
  getStatistics s
  = Ok (getTotalSubmissions s, N.of_nat (length (verified_ids s)),
        awarded s (verified_ids s), 0) ∧
  N.of_nat (length (verified_ids s)) <= getTotalSubmissions s.
Proof.
  unfold getTotalSubmissions, getStatistics, verified_ids, ids_upto.
  intros Hc Hsum.
  set (n := N.to_nat (submissionIdCounter s)) in *.
  assert (N.of_nat (length (filter (λ i, ds_isVerified (submission s i) = true)
                              (ids_from 1 n))) <= submissionIdCounter s)
    as Hlen.
  { pose proof (length_filter (λ i, ds_isVerified (submission s i) = true)
                  (ids_from 1 n)) as Hf.
    assert (length (ids_from 1 n) = n) as Hn.
    { clear. generalize 1. induction n as [|n IH]; intros i; simpl; [done|].
      by rewrite IH. }
    rewrite Hn in Hf. apply N.le_trans with (N.of_nat n); lia. }
  split; [|done].
  rewrite (statistics_loop_Ok n s 1 0 0) by (cbv zeta; lia).
  rewrite Ok_bind. cbn [fst snd]. by rewrite !N.add_0_l.
Qed.

Lemma getStatistics_counts_verified_witness :
  let s := run survey (constructor 1) in
  getStatistics s
  = Ok (getTotalSubmissions s, N.of_nat (length (verified_ids s)),
        awarded s (verified_ids s), 0) ∧
  N.of_nat (length (verified_ids s)) <= getTotalSubmissions s.
Proof.
  intros s. apply (getStatistics_counts_verified s).
  - vm_compute. reflexivity.
  - vm_compute. discriminate.
Defined.

End geodata_further.

(** ** PaymentDistributor: pending balances under call-backs *)

Section distributor_callbacks.
Import Distributor DistributorViews Callbacks.

(** Induction over a message call and the call-backs below it. *)
Lemma msg_nested_ind (P : msg → Prop) :
  (∀ sender value e inner accept,
     Forall P inner → P (Msg sender value e inner accept)) →
  ∀ m, P m.
Proof.
  intros step. fix IH 1. intros [sender value e inner accept].
  apply step. induction inner as [|m inner IHinner]; constructor.
  - apply IH.
  - apply IHinner.
Qed.

Lemma plain_Ok (r : result state) (g g' : guarded) :
  plain r g = Ok g' → ∃ s', r = Ok s' ∧ g' = set_store s' g.
Proof. unfold plain. intros H. ok_inv. subst. eauto. Qed.

Lemma send_Some recipient accept amount (g g' : guarded) :
  send recipient accept amount g = Some g' →
  amount <= etherBalance (store g) ∧ accept = true ∧
  g' = recipient
         (set_store
            (set_etherBalance (etherBalance (store g) - amount) (store g)) g).
Proof.
  unfold send. destruct (N.leb_spec amount (etherBalance (store g))); [|done].
  destruct accept; [|done]. intros [= <-]. done.
Qed.

(** Without call-backs a message call is the transaction of [Distributor]
    whose sends are answered by [accept]. *)
Lemma exec_without_call_backs now sender value (c : call) (accept : bool)
    (s : state) :
  Callbacks.exec (Callbacks.mkTx now (Msg sender value (Call c) [] accept)) s
  = Distributor.exec (λ _, accept) (Distributor.mkTx sender value now c) s.
Proof.
  unfold Callbacks.exec, Distributor.exec. simpl.
  destruct c as [p cw cp nw np vw vp pw pp|p b n price buyer seller| |to n|t|f|];
    simpl; unfold plain, nonReentrant; simpl;
    try (destruct (nonpayable value) as [[]|]; simpl; [|done]).
  - by destruct (configurePaymentSplit _ _ _ _ _ _ _ _ _ _ _).
  - by destruct (recordSaleAndDistribute _ _ _ _ _ _ _ _ _ _ _).
  - unfold Callbacks.withdraw, Distributor.withdraw, nonReentrant, send,
      can_send, react. simpl.
    destruct (0 <? rd (pendingWithdrawals s) sender); simpl; [|done].
    destruct (rd (pendingWithdrawals s) sender <=? etherBalance s);
      destruct accept; reflexivity.
  - unfold Callbacks.emergencyWithdraw, Distributor.emergencyWithdraw, send,
      can_send, react. simpl.
    destruct (onlyOwner sender s) as [[]|]; simpl; [|done].
    destruct (negb (to =? 0)); simpl; [|done].
    destruct (n <=? etherBalance s); simpl; [|done].
    destruct accept; reflexivity.
  - by destruct (updatePlatformTreasury _ _ _).
  - by destruct (updateDefaultPlatformFee _ _ _).
  - reflexivity.
Qed.

Lemma react_cons f (m : msg) (inner : list msg) (g : guarded) :
  react f (m :: inner) g = react f inner (commit (f m g) g).
Proof. reflexivity. Qed.

Lemma react_keeps_pending now (inner : list msg) (g : guarded) :
  Forall (keeps_pending now) inner →
  entered (react (call_msg now) inner g) = entered g ∧
  ∀ a, entered g = true ∨ a ∉ concat (map withdrawers inner) →
       rd (pendingWithdrawals (store g)) a
       <= rd (pendingWithdrawals (store (react (call_msg now) inner g))) a.
Proof.
  intros Hall. revert g.
  induction Hall as [|m inner Hm _ IH]; intros g.
  - split; [done|]. intros. simpl. lia.
  - rewrite react_cons. cbn [map concat].
    destruct (call_msg now m g) as [g1|e] eqn:Hc; simpl.
    + destruct (Hm g g1 Hc) as [He Hp]. destruct (IH g1) as [He1 Hp1].
      split; [by rewrite He1|]. intros a Ha.
      transitivity (rd (pendingWithdrawals (store g1)) a).
      * apply Hp. destruct Ha as [?|Ha]; [by left|right].
        intros ?. apply Ha, elem_of_app. by left.
      * apply Hp1. rewrite He. destruct Ha as [?|Ha]; [by left|right].
        intros ?. apply Ha, elem_of_app. by right.
    + destruct (IH g) as [He1 Hp1]. split; [done|]. intros a Ha.
      apply Hp1. destruct Ha as [?|Ha]; [by left|right].
      intros ?. apply Ha, elem_of_app. by right.
Qed.

Lemma call_msg_keeps_pending now (m : msg) : keeps_pending now m.
Proof.
  induction m as [sender value e inner accept IH] using msg_nested_ind.
  intros g g' Hc. simpl in Hc.
  destruct e as [c| |]; [destruct c|..]; ok_inv.
  - apply plain_Ok in Hc as (s' & Hc & ->). unfold configurePaymentSplit in Hc.
    ok_inv. subst. simpl. split; [done|]. intros. lia.
  - apply plain_Ok in Hc as (s' & Hc & ->).
    apply recordSaleAndDistribute_Ok in Hc
      as (pending & _ & _ & _ & _ & _ & _ & _ & Hd & ->).
    simpl. split; [done|]. intros a _.
    by apply (distribution_mono _ _ _ _ a) in Hd.
  - unfold Callbacks.withdraw, nonReentrant in Hc. ok_inv.
    match goal with H : negb (entered g) = true |- _ =>
      apply negb_true_iff in H; rename H into Hopen end.
    destruct (send _ _ _ _) as [g2|] eqn:Hs; [|done].
    injection Hc as <-. apply send_Some in Hs as (_ & _ & ->).
    match goal with |- context [react _ _ ?g0] =>
      destruct (react_keeps_pending now inner g0 IH) as [_ Hp] end.
    simpl in *. split; [done|]. intros a [?|Ha]; [congruence|].
    etransitivity; [|apply Hp; by left]. simpl.
    rewrite rd_insert_ne; [lia|]. intros ->. apply Ha. by left.
  - unfold Callbacks.emergencyWithdraw in Hc. ok_inv.
    destruct (send _ _ _ _) as [g2|] eqn:Hs; [|done].
    injection Hc as <-. apply send_Some in Hs as (_ & _ & ->).
    match goal with |- context [react _ _ ?g0] =>
      destruct (react_keeps_pending now inner g0 IH) as [He Hp] end.
    simpl in *. split; [done|]. intros a Ha. by apply Hp.
  - apply plain_Ok in Hc as (s' & Hc & ->).
    unfold updatePlatformTreasury in Hc. ok_inv. subst. simpl.
    split; [done|]. intros. lia.
  - apply plain_Ok in Hc as (s' & Hc & ->).
    unfold updateDefaultPlatformFee in Hc. ok_inv. subst. simpl.
    split; [done|]. intros. lia.
  - subst. simpl. split; [done|]. intros. lia.
  - apply plain_Ok in Hc as (s' & Hc & ->). unfold transferOwnership in Hc.
    ok_inv. subst. simpl. split; [done|]. intros. lia.
  - apply plain_Ok in Hc as (s' & Hc & ->). unfold renounceOwnership in Hc.
    ok_inv. subst. simpl. split; [done|]. intros. lia.
Qed.

(** With the call-backs the contract can lose more or less ether in a
    [withdraw] than was pending: here the recipient returns 100 of the 300
    wei it receives. *)
Lemma withdraw_and_return_balance :
  let s' := Callbacks.step Scenario.sold withdraw_and_return in
  Callbacks.exec withdraw_and_return Scenario.sold = Ok s' ∧
  getPendingWithdrawal Scenario.sold 7 = 300 ∧
  getPendingWithdrawal s' 7 = 0 ∧
  etherBalance Scenario.sold = 1000 ∧ etherBalance s' = 800.
Proof. vm_compute. done. Qed.

(** X26 ([withdraw], [emergencyWithdraw], [recordSaleAndDistribute],
    [_distributePayment]). With the ether of [withdraw] and
    [emergencyWithdraw] sent by [call], so that the recipient may call the
    contract again before the function goes on: if a transaction succeeds and
    leaves an account with less pending than before, that account called
    [withdraw] in the transaction while the lock of [ReentrancyGuard] was
    open, either as the sender of the transaction or from the code that ran
    when an [emergencyWithdraw] sent ether. So a [withdraw] by one account,
    whatever is called back under it, lowers the pending balance of no other
    account, and a settlement lowers none. *)
Theorem pending_lowered_only_by_withdrawers (t : Callbacks.tx)
    (s s' : state) (a : address) :
  Callbacks.exec t s = Ok s' →
  getPendingWithdrawal s' a < getPendingWithdrawal s a →
  a ∈ withdrawers (tx_msg t).
Proof.
  unfold Callbacks.exec, getPendingWithdrawal. intros He Hlt. ok_inv. subst.
  match goal with H : call_msg _ _ _ = Ok _ |- _ =>
    apply call_msg_keeps_pending in H as [_ Hp] end.
  destruct (decide (a ∈ withdrawers (tx_msg t))) as [|Hn]; [done|].
  specialize (Hp a (or_intror Hn)). simpl in Hp. lia.
Qed.

Lemma pending_lowered_only_by_withdrawers_witness :
  let s' := Callbacks.step Scenario.sold rescue_then_withdraw in
  Callbacks.exec rescue_then_withdraw Scenario.sold = Ok s' ∧
  getPendingWithdrawal s' 7 < getPendingWithdrawal Scenario.sold 7 ∧
  7 ∈ withdrawers (tx_msg rescue_then_withdraw).
Proof.
  intros s'.
  assert (Callbacks.exec rescue_then_withdraw Scenario.sold = Ok s') as He
    by (vm_compute; reflexivity).
  assert (getPendingWithdrawal s' 7 < getPendingWithdrawal Scenario.sold 7)
    as Hlt by (vm_compute; reflexivity).
  exact (conj He
           (conj Hlt
              (pending_lowered_only_by_withdrawers rescue_then_withdraw
                 Scenario.sold s' 7 He Hlt))).
Defined.

End distributor_callbacks.

